(** * Nexusdemics academic bot: a shallow embedding of the session controller,
      the draft pipeline and the pure helpers, with the properties of the
      written specification checked against them.

    Layout: Part I holds the embedding (one definition per source function,
    under the source's name); Part II holds the lemmas and theorems.

    Conventions of the embedding
    - A JS string is a [string] (its code units are modelled by [ascii]).
    - A JS number holding an integer is a [Z]; [NaN] is [None].  A plagiarism
      score is a rational ([Q]); every finite double is one.
    - An [async] function is a computation of the monad [M]: it runs against
      a [World] (session, array store, effect log, call counter) and ends
      [Returned], [Threw] or, when the recursion budget is used up, [Pending].
    - Third-party services (Telegram, Groq, Zotero, Eden AI, the file system,
      Drive, Joi) are oracles: total functions of the call counter and of the
      arguments of the call, collected in the record [Services].
    - Telegraf runs the middlewares in the order of their registration, and
      a handler that matches an update does not pass it on: [handler] sends
      an update to the first handler that matches it.  The session object
      is the one Telegraf's in-memory store keeps between updates, so
      arrays shared by two properties stay shared.
    - Source retrieval, the API monitor and the photo and voice handlers
      run against a state of their own ([Retrieval.Net],
      [Monitoring.ApiMonitor], [Media.Desk]).  Their asynchronous functions
      are computations of [Prog St], the monad [M] over the state [St];
      their services are oracles of the same kind, collected in
      [Retrieval.Library] and [Media.Studio]. *)

From stdpp Require Import base list strings gmap pretty.
From Stdlib Require Import Ascii ZArith QArith Lia.

#[local] Set Warnings "-abstract-large-number,-clear-no-such-hyp".

Local Open Scope string_scope.
Local Open Scope list_scope.
Local Open Scope nat_scope.

(* ===================================================================== *)
(** * Part I.  The embedding                                              *)
(* ===================================================================== *)

(* --------------------------------------------------------------------- *)
(** ** JavaScript values and string primitives                            *)
(* --------------------------------------------------------------------- *)

(** The primitive values that session flags and source keys take in this
    program: a missing property, [null], booleans and strings. *)
Inductive JsVal : Type :=
  | JUndefined
  | JNull
  | JBool (b : bool)
  | JStr (s : string).

#[global] Instance JsVal_eq_dec : EqDecision JsVal.
Proof. solve_decision. Defined.

Definition JsVal_encode (v : JsVal) : unit + (unit + (bool + string)) :=
  match v with
  | JUndefined => inl ()
  | JNull => inr (inl ())
  | JBool b => inr (inr (inl b))
  | JStr s => inr (inr (inr s))
  end.

Definition JsVal_decode (x : unit + (unit + (bool + string))) : JsVal :=
  match x with
  | inl _ => JUndefined
  | inr (inl _) => JNull
  | inr (inr (inl b)) => JBool b
  | inr (inr (inr s)) => JStr s
  end.

#[global] Instance JsVal_countable : Countable JsVal.
Proof.
  apply (inj_countable' JsVal_encode JsVal_decode).
  intros []; reflexivity.
Defined.

(** ToBoolean. *)
Definition truthy (v : JsVal) : bool :=
  match v with
  | JUndefined | JNull => false
  | JBool b => b
  | JStr s => negb (String.eqb s "")
  end.

(** [a || b]. *)
Definition js_or (a b : JsVal) : JsVal := if truthy a then a else b.

(** ToString, as used by template literals. *)
Definition js_to_string (v : JsVal) : string :=
  match v with
  | JUndefined => "undefined"
  | JNull => "null"
  | JBool true => "true"
  | JBool false => "false"
  | JStr s => s
  end.

(** [s.startsWith(p)]. *)
Fixpoint startsWith (s p : string) {struct p} : bool :=
  match p with
  | EmptyString => true
  | String a p' =>
      match s with
      | EmptyString => false
      | String b s' => Ascii.eqb a b && startsWith s' p'
      end
  end.

Fixpoint str_drop (n : nat) (s : string) : string :=
  match n, s with
  | O, _ => s
  | S n', EmptyString => EmptyString
  | S n', String _ s' => str_drop n' s'
  end.

(** [s.slice(b, e)] and [s.substring(b, e)] for integers [0 <= b]: the code
    units from [b] up to, not including, [e], clamped to the string. *)
Definition slice (s : string) (b e : nat) : string := String.substring b (e - b) s.

(** [s.replace(pat, '')] with a string pattern: the first occurrence of
    [pat] is removed, a string without occurrence is returned as it is. *)
Fixpoint remove_first (pat s : string) : string :=
  if startsWith s pat then str_drop (String.length pat) s
  else match s with
       | EmptyString => EmptyString
       | String c s' => String c (remove_first pat s')
       end.

(** [s.split(sep)] for a one-character separator. *)
Fixpoint str_split (sep : ascii) (s : string) : list string :=
  match s with
  | EmptyString => [EmptyString]
  | String c s' =>
      if Ascii.eqb c sep then EmptyString :: str_split sep s'
      else match str_split sep s' with
           | piece :: pieces => String c piece :: pieces
           | [] => [String c EmptyString]
           end
  end.

(** The white space [parseInt] skips, among the code units below 256: the
    space, the no-break space and the controls from tab to carriage
    return. *)
Definition is_space (c : ascii) : bool :=
  let n := N_of_ascii c in
  (n =? 32)%N || ((9 <=? n)%N && (n <=? 13)%N) || (n =? 160)%N.

Fixpoint skip_spaces (s : string) : string :=
  match s with
  | String c s' => if is_space c then skip_spaces s' else s
  | EmptyString => s
  end.

Definition digit_value (radix : N) (c : ascii) : option N :=
  let n := N_of_ascii c in
  let v := if (48 <=? n)%N && (n <=? 57)%N then Some (n - 48)%N
           else if (97 <=? n)%N && (n <=? 122)%N then Some (n - 87)%N
           else if (65 <=? n)%N && (n <=? 90)%N then Some (n - 55)%N
           else None in
  match v with
  | Some d => if (d <? radix)%N then Some d else None
  | None => None
  end.

Fixpoint parse_digits (radix : N) (acc : option N) (s : string) : option N :=
  match s with
  | EmptyString => acc
  | String c s' =>
      match digit_value radix c with
      | Some d => parse_digits radix (Some (radix * default 0%N acc + d)%N) s'
      | None => acc
      end
  end.

(** [parseInt(s)] without a radix argument, as the integer it reads:
    leading white space, an optional sign, an optional [0x] prefix, then
    the longest run of digits of the radix; no digit at all gives [NaN]
    ([None]).  The Number JavaScript makes of the integer is [to_number] of
    it, below. *)
Definition parseInt (s : string) : option Z :=
  let s1 := skip_spaces s in
  let '(sign, s2) :=
    match s1 with
    | String "-" r => ((-1)%Z, r)
    | String "+" r => (1%Z, r)
    | _ => (1%Z, s1)
    end in
  let '(radix, s3) :=
    match s2 with
    | String "0" (String "x" r) => (16%N, r)
    | String "0" (String "X" r) => (16%N, r)
    | _ => (10%N, s2)
    end in
  match parse_digits radix None s3 with
  | Some n => Some (sign * Z.of_N n)%Z
  | None => None
  end.

(** The Number that holds the integer [z].  A double has 53 bits of
    mantissa: an integer of more bits is rounded to the nearest integer of
    53 leading bits (a tie goes to the even one), and what rounds to
    [2 ^ 1024] or beyond is [Infinity], for which [2 ^ 1024] stands here
    (no double has that value). *)
Definition to_number (z : Z) : Z :=
  let a := Z.abs z in
  let bits := (Z.log2 a + 1)%Z in
  if (bits <=? 53)%Z then z
  else
    let shift := (bits - 53)%Z in
    let q := Z.shiftr a shift in
    let r := Z.land a (Z.ones shift) in
    let half := Z.shiftl 1 (shift - 1) in
    let q' := if (half <? r)%Z || ((r =? half)%Z && Z.odd q)
              then (q + 1)%Z else q in
    let v := Z.shiftl q' shift in
    (Z.sgn z * (if (2 ^ 1024 <=? v)%Z then 2 ^ 1024 else v))%Z.

(** [parseInt(x)] where [x] may be [undefined] (ToString gives
    ["undefined"], which has no digit). *)
Definition parseInt_opt (x : option string) : option Z :=
  match x with
  | Some s => parseInt s
  | None => None
  end.

(* --------------------------------------------------------------------- *)
(** ** Source records and [deduplicateSources]  (source-retrieval)        *)
(* --------------------------------------------------------------------- *)

Record Source : Type := mkSource {
  title : JsVal;
  authors : list string;
  year : option Z;
  doi : JsVal;
  abstract : JsVal;
  url : JsVal;
  zoteroKey : JsVal
}.

(** [const key = source.doi || source.title]. *)
Definition source_key (source : Source) : JsVal := js_or (doi source) (title source).

(** The callback of [sources.filter], with the [Set] it closes over passed
    along: [seen.has(key)] drops the record, otherwise [seen.add(key)] and
    the record is kept. *)
Fixpoint dedup_filter (seen : gset JsVal) (sources : list Source) : list Source :=
  match sources with
  | [] => []
  | source :: rest =>
      let key := source_key source in
      if decide (key ∈ seen) then dedup_filter seen rest
      else source :: dedup_filter ({[ key ]} ∪ seen) rest
  end.

Definition deduplicateSources (sources : list Source) : list Source :=
  dedup_filter ∅ sources.

(** The specification's wording, kept apart from the code: records are
    grouped by [doi] when present, else by [title]; of each group the first
    occurrence stays, in the original order.  [earlier] is the part of the
    list already passed. *)
Definition group_key (source : Source) : JsVal :=
  if truthy (doi source) then doi source else title source.

Fixpoint keep_first_occurrences (earlier later : list Source) : list Source :=
  match later with
  | [] => []
  | source :: rest =>
      if decide (group_key source ∈ group_key <$> earlier)
      then keep_first_occurrences (earlier ++ [source]) rest
      else source :: keep_first_occurrences (earlier ++ [source]) rest
  end.

(* --------------------------------------------------------------------- *)
(** ** [chunkContent]  (draft-generation)                                 *)
(* --------------------------------------------------------------------- *)

(** The [for] loop of [chunkContent]: [i] is the loop variable, [chunks]
    the array being filled.  The loop is not structurally decreasing (with
    [maxLength = 0] it never ends), so it runs on a budget of iterations;
    [None] is a run that used the budget up. *)
Fixpoint chunk_loop (budget : nat) (content : string) (maxLength i : nat)
    (chunks : list string) : option (list string) :=
  if i <? String.length content then
    match budget with
    | O => None
    | S budget' =>
        chunk_loop budget' content maxLength (i + maxLength)
          (chunks ++ [slice content i (i + maxLength)])
    end
  else Some chunks.

(** One iteration per code unit is enough whenever the loop ends at all. *)
Definition chunkContent (content : string) (maxLength : nat) : option (list string) :=
  chunk_loop (String.length content) content maxLength 0 [].

(** [maxLength = 4000] is the default of the parameter. *)
Definition chunkContent_default (content : string) : option (list string) :=
  chunkContent content 4000.

(** [chunks.join('')]. *)
Definition join_chunks (chunks : list string) : string := String.concat "" chunks.

(* --------------------------------------------------------------------- *)
(** ** [validateData]  (validation-commands)                              *)
(* --------------------------------------------------------------------- *)

(** How a synchronous piece of code ends. *)
Inductive Completion (A : Type) : Type :=
  | Normal (a : A)
  | Abrupt (message : string).
Arguments Normal {A} a.
Arguments Abrupt {A} message.

Definition try_pure {A : Type} (body : Completion A)
    (handler : string → Completion A) : Completion A :=
  match body with
  | Normal a => Normal a
  | Abrupt message => handler message
  end.

(** The three Joi schemas the table [schemas] holds. *)
Inductive Schema : Type := intakeSchema | sourceSchema | draftSchema.

(** What [schemas[type]] evaluates to: one of the own properties, a member
    inherited from [Object.prototype] (truthy, and without a [validate]
    method), or [undefined]. *)
Inductive Property : Type :=
  | OwnSchema (schema : Schema)
  | Inherited
  | Missing.

Definition object_prototype_names : list string :=
  ["constructor"; "__proto__"; "hasOwnProperty"; "isPrototypeOf";
   "propertyIsEnumerable"; "toLocaleString"; "toString"; "valueOf";
   "__defineGetter__"; "__defineSetter__"; "__lookupGetter__";
   "__lookupSetter__"].

Definition schemas (type : string) : Property :=
  if String.eqb type "intake" then OwnSchema intakeSchema
  else if String.eqb type "source" then OwnSchema sourceSchema
  else if String.eqb type "draft" then OwnSchema draftSchema
  else if bool_decide (type ∈ object_prototype_names) then Inherited
  else Missing.

(** One entry of [error.details]. *)
Record Detail : Type := mkDetail {
  message : string;
  path : list string
}.

Section Validation.
(** [Data] is what callers pass in, [Value] what Joi hands back. *)
Context {Data Value : Type}.

(** A Joi [ValidationError]; [details] is [None] for an error object
    that lacks the array. *)
Record JoiError : Type := mkJoiError {
  details : option (list Detail)
}.

(** [schema.validate(data, { abortEarly: false })]: Joi returns
    [{ error, value }] or throws. *)
Inductive JoiResult : Type :=
  | JoiThrows (msg : string)
  | JoiReturns (error : option JoiError) (value : Value).

Variable joi_validate : Schema → Data → JoiResult.

(** The [validatedData] property of the result: not set, [null], or the
    value Joi returned. *)
Inductive Validated : Type :=
  | VAbsent
  | VNull
  | VValue (value : Value).

Record ValidationResult : Type := mkValidationResult {
  isValid : bool;
  errors : list string;
  validatedData : Validated
}.

Definition validateData (type : string) (data : Data)
    : Completion ValidationResult :=
  match schemas type with
  | Missing =>
      Normal (mkValidationResult false
                ["Unknown validation type: " +:+ type] VAbsent)
  | property =>
      try_pure
        (match property with
         | OwnSchema schema =>
             match joi_validate schema data with
             | JoiThrows msg => Abrupt msg
             | JoiReturns (Some error) _ =>
                 match details error with
                 | Some ds =>
                     Normal (mkValidationResult false (message <$> ds) VNull)
                 | None =>
                     Abrupt "Cannot read properties of undefined (reading 'map')"
                 end
             | JoiReturns None value =>
                 Normal (mkValidationResult true [] (VValue value))
             end
         | _ => Abrupt "schema.validate is not a function"
         end)
        (λ validationError,
           Normal (mkValidationResult false
                     ["Validation failed: " +:+ validationError] VNull))
  end.
End Validation.

Arguments JoiError : clear implicits.
Arguments JoiResult : clear implicits.
Arguments Validated : clear implicits.
Arguments ValidationResult : clear implicits.

(* --------------------------------------------------------------------- *)
(** ** Session, world and the monad of asynchronous code                  *)
(* --------------------------------------------------------------------- *)

(** The message of a JS [Error]. *)
Definition Error : Type := string.

(** [ctx.session.lastDraft]. *)
Record LastDraft : Type := mkLastDraft {
  ld_topic : string;
  ld_content : string;
  ld_bibliography : string;
  ld_format : string;
  ld_length : N;
  ld_plagiarismScore : Q;
  ld_driveLink : option string;
  ld_filename : string
}.

(** The object [processDraft] returns. *)
Record DraftResult : Type := mkDraftResult {
  r_content : string;
  r_bibliography : string;
  r_plagiarismScore : Q;
  r_driveLink : option string;
  r_filename : string
}.

(** [ctx.session].  A property that is not set is [None] or [JUndefined];
    the two array-valued properties that the handlers alias
    ([approvedSources], [pendingSources]) hold the address of an array in
    the store of the [World]. *)
Record Session : Type := mkSession {
  messages : option (list string);
  isAggregating : option bool;
  userType : option string;
  approvedSources : option nat;
  pendingSources : option nat;
  chatId : option string;
  studentId : option string;
  waitingForRevision : JsVal;
  waitingForComment : JsVal;
  currentTopic : option string;
  lastDraft : option LastDraft
}.

(** [{}]. *)
Definition empty_session : Session :=
  mkSession None None None None None None None JUndefined JUndefined None None.

Definition set_messages (v : option (list string)) (s : Session) : Session :=
  mkSession v (isAggregating s) (userType s) (approvedSources s)
    (pendingSources s) (chatId s) (studentId s) (waitingForRevision s)
    (waitingForComment s) (currentTopic s) (lastDraft s).
Definition set_isAggregating (v : option bool) (s : Session) : Session :=
  mkSession (messages s) v (userType s) (approvedSources s)
    (pendingSources s) (chatId s) (studentId s) (waitingForRevision s)
    (waitingForComment s) (currentTopic s) (lastDraft s).
Definition set_userType (v : option string) (s : Session) : Session :=
  mkSession (messages s) (isAggregating s) v (approvedSources s)
    (pendingSources s) (chatId s) (studentId s) (waitingForRevision s)
    (waitingForComment s) (currentTopic s) (lastDraft s).
Definition set_approvedSources (v : option nat) (s : Session) : Session :=
  mkSession (messages s) (isAggregating s) (userType s) v
    (pendingSources s) (chatId s) (studentId s) (waitingForRevision s)
    (waitingForComment s) (currentTopic s) (lastDraft s).
Definition set_pendingSources (v : option nat) (s : Session) : Session :=
  mkSession (messages s) (isAggregating s) (userType s) (approvedSources s)
    v (chatId s) (studentId s) (waitingForRevision s)
    (waitingForComment s) (currentTopic s) (lastDraft s).
Definition set_chatId (v : option string) (s : Session) : Session :=
  mkSession (messages s) (isAggregating s) (userType s) (approvedSources s)
    (pendingSources s) v (studentId s) (waitingForRevision s)
    (waitingForComment s) (currentTopic s) (lastDraft s).
Definition set_studentId (v : option string) (s : Session) : Session :=
  mkSession (messages s) (isAggregating s) (userType s) (approvedSources s)
    (pendingSources s) (chatId s) v (waitingForRevision s)
    (waitingForComment s) (currentTopic s) (lastDraft s).
Definition set_waitingForRevision (v : JsVal) (s : Session) : Session :=
  mkSession (messages s) (isAggregating s) (userType s) (approvedSources s)
    (pendingSources s) (chatId s) (studentId s) v
    (waitingForComment s) (currentTopic s) (lastDraft s).
Definition set_waitingForComment (v : JsVal) (s : Session) : Session :=
  mkSession (messages s) (isAggregating s) (userType s) (approvedSources s)
    (pendingSources s) (chatId s) (studentId s) (waitingForRevision s)
    v (currentTopic s) (lastDraft s).
Definition set_currentTopic (v : option string) (s : Session) : Session :=
  mkSession (messages s) (isAggregating s) (userType s) (approvedSources s)
    (pendingSources s) (chatId s) (studentId s) (waitingForRevision s)
    (waitingForComment s) v (lastDraft s).
Definition set_lastDraft (v : option LastDraft) (s : Session) : Session :=
  mkSession (messages s) (isAggregating s) (userType s) (approvedSources s)
    (pendingSources s) (chatId s) (studentId s) (waitingForRevision s)
    (waitingForComment s) (currentTopic s) v.

(** The texts the bot sends, one constructor per [ctx.reply] call site; the
    interpolated values are the arguments. *)
Inductive Msg : Type :=
  (* processDraft *)
  | MsgGenerating
  | MsgDraftGenerated
  | MsgCitationsFormatted
  | MsgRewriting (score : Q)
  | MsgPlagiarismPassed
  | MsgDocumentsCreated
  | MsgDraftComplete (topic format : string) (pages : N) (score : Q)
      (sources : nat) (driveLink : option string)
  | MsgPreview (number : nat) (chunk : string)
  | MsgDraftFailed (error : Error)
  (* callback_query *)
  | MsgModeSet (userType : string)
  | MsgThanksForRating (rating : option string)
  | MsgWhatCanWeImprove
  | MsgShareFeedback
  | MsgDraftApproved
  | MsgNoFiles
  | MsgSourceApproved (title : JsVal)
  | MsgAllSourcesApproved (count : nat)
  | MsgSourceSelectionCancelled
  | MsgApplyingRevision
  | MsgRevisionCancelled
  | MsgWorkflowStarting
  | MsgFoundSources (count : nat)
  | MsgNoSuitableSources
  | MsgWorkflowFailed (error : Error)
  | MsgAddMoreDetails
  | MsgSessionCancelled
  | MsgCallbackError
  (* start *)
  | MsgWelcome
  (* text *)
  | MsgProcessingRevision
  | MsgRevisionSuggestions (suggestion : string)
  | MsgRevisionError
  | MsgThanksForFeedback
  | MsgFeedbackSaveError
  | MsgAdded
  | MsgRequestReceived
  (* commands *)
  | MsgFetchingSources
  | MsgNoSourcesFound
  | MsgSelectSources (count : nat)
  | MsgRevisionMode
  | MsgOperationCancelled
  (* bot.catch *)
  | MsgErrorOccurred.

(** The second argument of [updateHistory]. *)
Inductive HistoryEntry : Type :=
  | UserTypeSelected (userType : string)
  | WorkflowCompleted (topic : string) (sources : nat) (draft : string).

(** Everything the program does to the outside, in order. *)
Inductive Event : Type :=
  | Replied (m : Msg)                      (* ctx.reply, delivered *)
  | ReplyFailed (m : Msg)                  (* ctx.reply, rejected *)
  | AnsweredCbQuery                        (* ctx.answerCbQuery() *)
  | ConsoleError (label : string) (error : Error)
  | FeedbackSaved (chat : N) (rating : option Z) (comment : string)
  | HistoryUpdated (chat : option string) (entry : HistoryEntry) (tags : list string)
  | FilesDelivered (chat : N) (count : nat)
  | MonitorError (api : string) (error : Error)
  | DraftRequested (topic : string)        (* POST to Groq from generateDraft *)
  | RevisionRequested (revision : string)  (* POST to Groq from the text handler *)
  | BibliographyRequested (key : JsVal)    (* GET from Zotero *)
  | PlagiarismRequested (text : string)    (* POST to Eden AI *)
  | FileWritten (path content : string)    (* fs.writeFile, fulfilled *)
  | DriveUploadRequested (name : string)   (* drive.files.create *)
  | SourcesRequested (topic : string)      (* processSources *)
  | AdminAlerted (text : string).          (* POST to the operator chat *)

(** The answer of a remote service. *)
Inductive Http (A : Type) : Type :=
  | HttpOk (a : A)
  | HttpFail (error : Error).
Arguments HttpOk {A} a.
Arguments HttpFail {A} error.

(** The services the program calls and the environment it reads.  The
    first argument of an oracle is the call counter at the time of the
    call, so that a service may answer differently each time. *)
Record Services : Type := mkServices {
  ADMIN_CHAT_ID : option string;
  telegram_send : nat → Msg → option Error;     (* [None]: delivered *)
  groq_draft : nat → string → list Source → string → N → Http string;
  groq_revision : nat → string → Http string;
  zotero_bib : nat → JsVal → string → Http string;
  eden_plagiarism : nat → string → Http (option Q);
                      (* [HttpOk None]: a response without a score *)
  fs_writeFile : nat → string → string → option Error;
  drive_upload : nat → string → Http string;
  admin_post : nat → string → option Error;
  source_pipeline : nat → string → Http (list Source);
  date_now : nat → N;
  bot_username : string                         (* [ctx.me] *)
}.

Record World : Type := mkWorld {
  session : Session;
  heap : list (list Source);   (* the arrays of source records, by address *)
  log : list Event;
  clock : nat
}.

(** How an asynchronous computation stands when the budget of recursive
    calls given to it is spent: settled ([Returned], [Threw]) or not. *)
Inductive Outcome (A : Type) : Type :=
  | Returned (a : A)
  | Threw (e : Error)
  | Pending.
Arguments Returned {A} a.
Arguments Threw {A} e.
Arguments Pending {A}.

Definition M (A : Type) : Type := World → Outcome A * World.

Definition ret {A : Type} (a : A) : M A := λ w, (Returned a, w).

Definition bind {A B : Type} (m : M A) (k : A → M B) : M B :=
  λ w, match m w with
       | (Returned a, w') => k a w'
       | (Threw e, w') => (Threw e, w')
       | (Pending, w') => (Pending, w')
       end.

Definition throw {A : Type} (e : Error) : M A := λ w, (Threw e, w).

Definition pending {A : Type} : M A := λ w, (Pending, w).

(** [try { body } catch (error) { handler error }]. *)
Definition try_catch {A : Type} (body : M A) (handler : Error → M A) : M A :=
  λ w, match body w with
       | (Threw e, w') => handler e w'
       | settled => settled
       end.

Declare Scope js_scope.
Delimit Scope js_scope with js.
Notation "x <- c1 ;; c2" := (bind c1 (λ x, c2))
  (at level 100, c1 at next level, right associativity) : js_scope.
Notation "c1 ;; c2" := (bind c1 (λ _, c2))
  (at level 100, right associativity) : js_scope.
Local Open Scope js_scope.

Definition emit (ev : Event) : M unit :=
  λ w, (Returned (), mkWorld (session w) (heap w) (log w ++ [ev]) (clock w)).

(** Reads the call counter and advances it. *)
Definition tick : M nat :=
  λ w, (Returned (clock w), mkWorld (session w) (heap w) (log w) (S (clock w))).

Definition get_session : M Session := λ w, (Returned (session w), w).

Definition modify_session (f : Session → Session) : M unit :=
  λ w, (Returned (), mkWorld (f (session w)) (heap w) (log w) (clock w)).

(** A new array. *)
Definition alloc (arr : list Source) : M nat :=
  λ w, (Returned (length (heap w)),
        mkWorld (session w) (heap w ++ [arr]) (log w) (clock w)).

(** The elements of the array at an address. *)
Definition deref (h : list (list Source)) (address : nat) : list Source :=
  default [] (h !! address).

Definition read_array (address : nat) : M (list Source) :=
  λ w, (Returned (deref (heap w) address), w).

(** [array.push(x)]: the array at the address grows in place, for every
    property that holds the address. *)
Definition push (address : nat) (x : Source) : M unit :=
  λ w, (Returned (),
        mkWorld (session w) (alter (λ arr, arr ++ [x]) address (heap w))
          (log w) (clock w)).

(* --------------------------------------------------------------------- *)
(** ** The draft pipeline  (draft-generation)                             *)
(* --------------------------------------------------------------------- *)

(** The line feed of the template literals. *)
Definition nl : string := String (ascii_of_nat 10) EmptyString.

(** The literal [0.1] denotes the double nearest to one tenth, which is
    [3602879701896397 / 2^55]. *)
Definition PLAGIARISM_THRESHOLD : Q := 3602879701896397 # 36028797018963968.

(** [a > b] on numbers. *)
Definition Qgt_bool (a b : Q) : bool := negb (Qle_bool a b).

(** [response.data.originalityai?.score || 0]. *)
Definition score_or_zero (score : option Q) : Q :=
  match score with
  | Some q => if Qeq_bool q 0 then 0%Q else q
  | None => 0%Q
  end.

(** [topic.replace(/[^a-zA-Z0-9]/g, '_')]. *)
Definition is_alnum (c : ascii) : bool :=
  let n := N_of_ascii c in
  ((48 <=? n)%N && (n <=? 57)%N) || ((65 <=? n)%N && (n <=? 90)%N)
  || ((97 <=? n)%N && (n <=? 122)%N).

Fixpoint sanitize (s : string) : string :=
  match s with
  | EmptyString => EmptyString
  | String c s' => String (if is_alnum c then c else "_"%char) (sanitize s')
  end.

(** An environment variable read with [if (X)]: set, and not empty. *)
Definition env_set (v : option string) : bool :=
  truthy (from_option JStr JUndefined v).

(** What the [try] block of one activation of [processDraft] decides:
    [Retry] stands for [return processDraft(...)], whose promise is handed
    back without being awaited, so that the recursive activation runs
    outside this activation's [try]. *)
Inductive Attempt : Type :=
  | Retry
  | Done (r : DraftResult).

(** An entity of a message: what Telegram has marked in the text, from
    which code unit on and how far. *)
Record Entity : Type := mkEntity {
  entity_type : string;
  entity_offset : nat;
  entity_length : nat
}.

(** [s.toLowerCase()], on the code units below 256. *)
Definition lower_char (c : ascii) : ascii :=
  let n := N_of_ascii c in
  if ((65 <=? n)%N && (n <=? 90)%N)
     || ((192 <=? n)%N && (n <=? 214)%N)
     || ((216 <=? n)%N && (n <=? 222)%N)
  then ascii_of_N (n + 32) else c.

Fixpoint toLowerCase (s : string) : string :=
  match s with
  | EmptyString => EmptyString
  | String c s' => String (lower_char c) (toLowerCase s')
  end.

(** Whether [bot.start], that is Telegraf's [command('start')], takes a
    text message: the first entity is a bot command at offset 0; the text
    it covers, cut at [@], names this bot or no bot; and the command after
    the slash is [start].  [me] is the user name of the bot. *)
Definition start_matches (me text : string) (entities : list Entity) : bool :=
  match entities with
  | cmdEntity :: _ =>
      String.eqb (entity_type cmdEntity) "bot_command"
      && (entity_offset cmdEntity =? 0)
      && match str_split "@" (slice text 0 (entity_length cmdEntity)) with
         | cmdPart :: rest =>
             negb (String.eqb cmdPart "")
             && match rest with
                | to :: _ =>
                    String.eqb to ""
                    || String.eqb (toLowerCase to) (toLowerCase me)
                | [] => true
                end
             && String.eqb (str_drop 1 cmdPart) "start"
         | [] => false
         end
  | [] => false
  end.

Section Pipeline.
Variable svc : Services.

(** [await ctx.reply(m)]. *)
Definition reply (m : Msg) : M unit :=
  t <- tick ;;
  match telegram_send svc t m with
  | None => emit (Replied m)
  | Some e => (emit (ReplyFailed m) ;; throw e)
  end.

(** [ctx.reply(m)] without [await]: a rejection does not reach the
    caller. *)
Definition reply_nowait (m : Msg) : M unit :=
  t <- tick ;;
  match telegram_send svc t m with
  | None => emit (Replied m)
  | Some e => emit (ReplyFailed m)
  end.

(** [Date.now()]. *)
Definition now : M N := λ w, (Returned (date_now svc (clock w)), w).

(** [await fs.writeFile(path, content)]. *)
Definition writeFile (path content : string) : M unit :=
  t <- tick ;;
  match fs_writeFile svc t path content with
  | None => emit (FileWritten path content)
  | Some e => throw e
  end.

Definition generateDraft (topic : string) (sources : list Source)
    (format : string) (length : N) : M string :=
  try_catch
    (t <- tick ;;
     emit (DraftRequested topic) ;;
     match groq_draft svc t topic sources format length with
     | HttpOk content => ret content
     | HttpFail e => throw e
     end)
    (λ error,
       emit (ConsoleError "Groq draft error:" error) ;;
       throw ("Draft generation failed: " +:+ error)).

(** The [for ... of] loop of [formatCitations]. *)
Fixpoint formatCitations_loop (sources : list Source) (format : string)
    (bibliography : string) : M string :=
  match sources with
  | [] => ret bibliography
  | source :: rest =>
      if truthy (zoteroKey source) then
        bibliography' <-
          try_catch
            (t <- tick ;;
             emit (BibliographyRequested (zoteroKey source)) ;;
             match zotero_bib svc t (zoteroKey source) format with
             | HttpOk data => ret (bibliography +:+ data +:+ nl)
             | HttpFail e => throw e
             end)
            (λ error,
               emit (ConsoleError "Zotero format error" error) ;;
               ret (bibliography +:+ js_to_string (title source)
                      +:+ ". DOI: " +:+ js_to_string (doi source) +:+ nl)) ;;
        formatCitations_loop rest format bibliography'
      else formatCitations_loop rest format bibliography
  end.

Definition formatCitations (sources : list Source) (format : string)
    : M string :=
  formatCitations_loop sources format "".

Definition checkPlagiarism (content : string) : M Q :=
  try_catch
    (t <- tick ;;
     emit (PlagiarismRequested (slice content 0 5000)) ;;
     match eden_plagiarism svc t (slice content 0 5000) with
     | HttpOk score => ret (score_or_zero score)
     | HttpFail e => throw e
     end)
    (λ error,
       emit (ConsoleError "Plagiarism check error:" error) ;;
       ret 0%Q).

(** Returns [(filename, filepath)].  Both the [try] block and the
    fallback write the same text file. *)
Definition createWordDocument (content bibliography topic : string)
    : M (string * string) :=
  let docContent :=
    topic +:+ nl +:+ nl +:+ content +:+ nl +:+ nl +:+ "References:" +:+ nl
      +:+ bibliography in
  try_catch
    (stamp <- now ;;
     let textFilename := sanitize topic +:+ "_" +:+ pretty stamp +:+ ".txt" in
     let textFilepath := "/tmp/" +:+ textFilename in
     writeFile textFilepath docContent ;;
     ret (textFilename, textFilepath))
    (λ error,
       emit (ConsoleError "Word document error:" error) ;;
       stamp <- now ;;
       let filename := sanitize topic +:+ "_" +:+ pretty stamp +:+ ".txt" in
       let filepath := "/tmp/" +:+ filename in
       writeFile filepath docContent ;;
       ret (filename, filepath)).

(** [studentId = 'guest'] is the default of the parameter; the answer is
    the share link or [null].  The oracle stands for [files.create]
    followed by [permissions.create]. *)
Definition uploadToGoogleDrive (filepath filename : string)
    (studentId : option string) : M (option string) :=
  try_catch
    (t <- tick ;;
     let name := default "guest" studentId +:+ "_" +:+ filename in
     emit (DriveUploadRequested name) ;;
     match drive_upload svc t name with
     | HttpOk webViewLink => ret (Some webViewLink)
     | HttpFail e => throw e
     end)
    (λ error,
       emit (ConsoleError "Google Drive upload error:" error) ;;
       ret None).

(** [for (let i = 0; i < Math.min(chunks.length, 2); i++)], run over the
    first two chunks. *)
Fixpoint send_previews (i : nat) (chunks : list string) : M unit :=
  match chunks with
  | [] => ret ()
  | chunk :: rest =>
      reply (MsgPreview (i + 1) chunk) ;;
      send_previews (S i) rest
  end.

(** The [try] block of [processDraft]. *)
Definition processDraft_try (topic : string) (sources : list Source)
    (format : string) (length : N) : M Attempt :=
  reply MsgGenerating ;;
  content <- generateDraft topic sources format length ;;
  reply MsgDraftGenerated ;;
  bibliography <- formatCitations sources format ;;
  reply MsgCitationsFormatted ;;
  plagiarismScore <- checkPlagiarism content ;;
  if Qgt_bool plagiarismScore PLAGIARISM_THRESHOLD then
    reply (MsgRewriting plagiarismScore) ;;
    ret Retry
  else
    reply MsgPlagiarismPassed ;;
    document <- createWordDocument content bibliography topic ;;
    let '(filename, filepath) := document in
    s <- get_session ;;
    driveLink <- uploadToGoogleDrive filepath filename (studentId s) ;;
    reply MsgDocumentsCreated ;;
    reply (MsgDraftComplete topic format length plagiarismScore
             (List.length sources) driveLink) ;;
    match chunkContent_default (slice content 0 8000) with
    | None => pending
    | Some chunks =>
        send_previews 0 (take 2 chunks) ;;
        modify_session
          (set_lastDraft
             (Some (mkLastDraft topic content bibliography format length
                      plagiarismScore driveLink filename))) ;;
        ret (Done (mkDraftResult content bibliography plagiarismScore
                     driveLink filename))
    end.

(** The [catch] block of [processDraft]. *)
Definition processDraft_catch {A : Type} (topic : string) (error : Error)
    : M A :=
  emit (ConsoleError "Draft processing error:" error) ;;
  reply (MsgDraftFailed error) ;;
  (if env_set (ADMIN_CHAT_ID svc) then
     t <- tick ;;
     let text := "Draft generation failed for " +:+ topic +:+ ": " +:+ error in
     match admin_post svc t text with
     | None => emit (AdminAlerted text)
     | Some e => throw e
     end
   else ret ()) ;;
  throw error.

(** [processDraft(ctx, topic, sources, format, length)].  [budget] bounds
    the number of activations; an activation that would exceed it leaves
    the promise [Pending]. *)
Fixpoint processDraft (budget : nat) (topic : string) (sources : list Source)
    (format : string) (length : N) : M DraftResult :=
  match budget with
  | O => pending
  | S budget' =>
      attempt <- try_catch (processDraft_try topic sources format length)
                   (processDraft_catch topic) ;;
      match attempt with
      | Retry =>
          processDraft budget' (topic +:+ " (rewrite to be more original)")
            sources format length
      | Done r => ret r
      end
  end.

(* --------------------------------------------------------------------- *)
(** ** The bot: collaborators of the handlers                             *)
(* --------------------------------------------------------------------- *)

(** [saveFeedback(chatId, rating, comment = '')]  (delivery-monitoring):
    the record is written to the console; the answer is [true]. *)
Definition saveFeedback (chat : N) (rating : option Z) (comment : string)
    : M bool :=
  emit (FeedbackSaved chat rating comment) ;;
  ret true.

(** [updateHistory(chatId, newHistory, tags)]  (validation-commands). *)
Definition updateHistory (chat : option string) (entry : HistoryEntry)
    (tags : list string) : M bool :=
  emit (HistoryUpdated chat entry tags) ;;
  ret true.

(** [deliverFiles(chatId, files)]  (delivery-monitoring): it logs and
    hands back a message that the caller drops. *)
Definition deliverFiles (chat : N) (count : nat) : M unit :=
  emit (FilesDelivered chat count).

(** [processSources(topic, chatId)]  (source-retrieval), taken as a
    service: the list it resolves to, or the error it rejects with. *)
Definition processSources (topic : string) : M (list Source) :=
  t <- tick ;;
  emit (SourcesRequested topic) ;;
  match source_pipeline svc t topic with
  | HttpOk sources => ret sources
  | HttpFail e => throw e
  end.

(** [x.join(sep)] on an array of strings. *)
Definition join (sep : string) (parts : list string) : string :=
  String.concat sep parts.

(* --------------------------------------------------------------------- *)
(** ** The bot: middleware and handlers  (intake)                         *)
(* --------------------------------------------------------------------- *)

(** The session middleware: defaults, then the chat identifier. *)
Definition middleware (chat : N) : M unit :=
  modify_session (λ s, set_messages (Some (default [] (messages s))) s) ;;
  modify_session (λ s, set_isAggregating (Some (default false (isAggregating s))) s) ;;
  modify_session
    (λ s, set_userType
            (Some (match userType s with
                   | Some u => if String.eqb u "" then "guest" else u
                   | None => "guest"
                   end)) s) ;;
  s <- get_session ;;
  match approvedSources s with
  | Some _ => ret ()
  | None =>
      fresh <- alloc [] ;;
      modify_session (set_approvedSources (Some fresh))
  end ;;
  modify_session (set_chatId (Some (pretty chat))).

(** [ctx.session.pendingSources?.[index]], for the integer [parseInt]
    reads.  An array holds fewer than [2 ^ 32] elements: up to there the
    Number is the integer itself, and from [2 ^ 53] on both are past the
    end. *)
Definition pending_at (w : World) (index : option Z) : option Source :=
  match pendingSources (session w), index with
  | Some address, Some i =>
      if (0 <=? i)%Z then deref (heap w) address !! Z.to_nat i else None
  | _, _ => None
  end.

(** [bot.on('callback_query')].  [budget] is handed to [processDraft]. *)
Definition on_callback_query (budget : nat) (chat : N) (data : string)
    : M unit :=
  try_catch
    (if startsWith data "type_" then
       let userType := remove_first "type_" data in
       modify_session (set_userType (Some userType)) ;;
       s <- get_session ;;
       modify_session
         (set_studentId
            (Some (userType +:+ "_" +:+ default "undefined" (chatId s)))) ;;
       updateHistory (chatId s) (UserTypeSelected userType) ["setup"] ;;
       reply (MsgModeSet userType)
     else if startsWith data "rate_" then
       let parts := str_split "_" data in
       let draftId := parts !! 1 in
       let rating := parts !! 2 in
       saveFeedback chat (to_number <$> parseInt_opt rating) "" ;;
       reply (MsgThanksForRating rating) ;;
       match to_number <$> parseInt_opt rating with
       | Some n =>
           if (n <=? 3)%Z then
             modify_session
               (set_waitingForComment (from_option JStr JUndefined draftId)) ;;
             reply MsgWhatCanWeImprove
           else ret ()
       | None => ret ()
       end
     else if startsWith data "comment_" then
       let draftId := remove_first "comment_" data in
       modify_session (set_waitingForComment (JStr draftId)) ;;
       reply MsgShareFeedback
     else if String.eqb data "approve_draft" then
       (* [collectFeedback] only builds a keyboard that is dropped *)
       reply MsgDraftApproved
     else if String.eqb data "download_files" then
       s <- get_session ;;
       match lastDraft s with
       | Some _ => deliverFiles chat 1
       | None => reply MsgNoFiles
       end
     else if startsWith data "approve_source_" then
       (* an array index: the integer read, see [pending_at] *)
       let index := parseInt (remove_first "approve_source_" data) in
       source <- (λ w, (Returned (pending_at w index), w)) ;;
       match source with
       | Some source =>
           s <- get_session ;;
           address <-
             match approvedSources s with
             | Some address => ret address
             | None =>
                 fresh <- alloc [] ;;
                 modify_session (set_approvedSources (Some fresh)) ;;
                 ret fresh
             end ;;
           push address source ;;
           reply (MsgSourceApproved (title source))
       | None => ret ()
       end
     else if String.eqb data "approve_all_sources" then
       s <- get_session ;;
       address <-
         match pendingSources s with
         | Some address => ret address
         | None => alloc []
         end ;;
       modify_session (set_approvedSources (Some address)) ;;
       approved <- read_array address ;;
       reply (MsgAllSourcesApproved (length approved))
     else if String.eqb data "cancel_sources" then
       fresh <- alloc [] ;;
       modify_session (set_pendingSources (Some fresh)) ;;
       reply MsgSourceSelectionCancelled
     else if String.eqb data "apply_revision" then
       reply MsgApplyingRevision
     else if String.eqb data "cancel_revision" then
       reply MsgRevisionCancelled
     else if String.eqb data "confirm_and_process" then
       s <- get_session ;;
       match messages s with
       | None => throw "Cannot read properties of undefined (reading 'join')"
       | Some fragments =>
           let topic := join " " fragments in
           reply MsgWorkflowStarting ;;
           try_catch
             (sources <- processSources topic ;;
              address <- alloc sources ;;
              modify_session (set_approvedSources (Some address)) ;;
              if 0 <? length sources then
                reply (MsgFoundSources (length sources)) ;;
                processDraft budget topic sources "APA" 5%N ;;
                s' <- get_session ;;
                updateHistory (chatId s')
                  (WorkflowCompleted topic (length sources) "generated")
                  ["workflow"; "academic"] ;;
                ret ()
              else reply MsgNoSuitableSources)
             (λ error,
                emit (ConsoleError "Workflow error:" error) ;;
                reply (MsgWorkflowFailed error) ;;
                emit (MonitorError "workflow" error)) ;;
           modify_session (set_messages (Some [])) ;;
           modify_session (set_isAggregating (Some false))
       end
     else if String.eqb data "add_more" then
       reply MsgAddMoreDetails
     else if String.eqb data "cancel" then
       modify_session (λ _, empty_session) ;;
       reply MsgSessionCancelled
     else ret ())
    (λ error,
       emit (ConsoleError "Callback query error:" error) ;;
       reply MsgCallbackError) ;;
  emit AnsweredCbQuery.

(** [bot.on('text')]. *)
Definition on_text (chat : N) (text : string) : M unit :=
  s <- get_session ;;
  if truthy (waitingForRevision s) then
    let revision := text in
    reply MsgProcessingRevision ;;
    try_catch
      (t <- tick ;;
       emit (RevisionRequested revision) ;;
       suggestion <-
         match groq_revision svc t revision with
         | HttpOk suggestion => ret suggestion
         | HttpFail e => throw e
         end ;;
       reply (MsgRevisionSuggestions suggestion) ;;
       modify_session (set_waitingForRevision (JBool false)))
      (λ error,
         reply MsgRevisionError ;;
         modify_session (set_waitingForRevision (JBool false)))
  else if truthy (waitingForComment s) then
    let comment := text in
    success <- saveFeedback chat (Some 0%Z) comment ;;
    (if success : bool then reply MsgThanksForFeedback
     else reply MsgFeedbackSaveError) ;;
    modify_session (set_waitingForComment JUndefined)
  else if default false (isAggregating s) then
    match messages s with
    | Some fragments =>
        modify_session (set_messages (Some (fragments ++ [text]))) ;;
        reply_nowait MsgAdded
    | None => throw "Cannot read properties of undefined (reading 'push')"
    end
  else
    modify_session (set_isAggregating (Some true)) ;;
    modify_session (set_messages (Some [text])) ;;
    modify_session (set_currentTopic (Some text)) ;;
    reply_nowait MsgRequestReceived.

Definition has_string_title (source : Source) : bool :=
  match title source with
  | JStr _ => true
  | _ => false
  end.

(** [bot.command('sources')].  Like every [bot.command] handler it is
    registered after [bot.on('text')]: see [handler]. *)
Definition command_sources : M unit :=
  s <- get_session ;;
  let topic :=
    match currentTopic s with
    | Some t => if String.eqb t "" then None else Some t
    | None => None
    end in
  let topic :=
    match topic with
    | Some t => t
    | None =>
        match messages s with
        | Some fragments =>
            if String.eqb (join " " fragments) "" then "general research"
            else join " " fragments
        | None => "general research"
        end
    end in
  reply MsgFetchingSources ;;
  sources <- processSources topic ;;
  if length sources =? 0 then reply MsgNoSourcesFound
  else if negb (forallb has_string_title (take 5 sources)) then
    (* building the keyboard calls [source.title.substring] *)
    throw "Cannot read properties of undefined (reading 'substring')"
  else
    address <- alloc sources ;;
    modify_session (set_pendingSources (Some address)) ;;
    modify_session (set_currentTopic (Some topic)) ;;
    reply (MsgSelectSources (length sources)).

(** [bot.command('revise')]: the only assignment of [true] to
    [waitingForRevision]. *)
Definition command_revise : M unit :=
  modify_session (set_waitingForRevision (JBool true)) ;;
  reply MsgRevisionMode.

(** [bot.command('cancel')]. *)
Definition command_cancel : M unit :=
  modify_session (set_isAggregating (Some false)) ;;
  modify_session (set_messages (Some [])) ;;
  modify_session (set_waitingForRevision (JBool false)) ;;
  modify_session (set_waitingForComment (JBool false)) ;;
  fresh <- alloc [] ;;
  modify_session (set_pendingSources (Some fresh)) ;;
  reply MsgOperationCancelled.

(** [bot.start]: the menu, sent without [await]. *)
Definition on_start : M unit := reply_nowait MsgWelcome.

(** An inbound update: a callback query, or a text message with the
    entities Telegram has marked in it (a command that a text opens with is
    its first entity). *)
Inductive Update : Type :=
  | CallbackQuery (data : string)
  | Text (text : string) (entities : list Entity).

(** The handler an update reaches.  The middlewares run in the order of
    their registration and a handler that matches does not call [next]:
    a callback query reaches [bot.on('callback_query')]; a text message
    reaches [bot.start] when that matches and [bot.on('text')] otherwise.
    The [bot.command] handlers ([history], [help], [status], [sources],
    [revise], [report], [files], [cancel]) are registered after
    [bot.on('text')]: no update reaches them. *)
Definition handler (budget : nat) (chat : N) (u : Update) : M unit :=
  match u with
  | CallbackQuery data => on_callback_query budget chat data
  | Text text entities =>
      if start_matches (bot_username svc) text entities then on_start
      else on_text chat text
  end.

(** One update: the middleware, then the handler of the update; what the
    handler throws reaches [bot.catch]. *)
Definition handle_update (budget : nat) (chat : N) (u : Update) : M unit :=
  try_catch
    (middleware chat ;; handler budget chat u)
    (λ err,
       emit (ConsoleError "Bot error:" err) ;;
       reply_nowait MsgErrorOccurred).

(** The world after one update. *)
Definition step (budget : nat) (chat : N) (w : World) (u : Update) : World :=
  snd (handle_update budget chat u w).

(** The world after a sequence of updates of one chat. *)
Definition run_updates (budget : nat) (chat : N) (us : list Update)
    (w : World) : World :=
  foldl (step budget chat) w us.

End Pipeline.

(* --------------------------------------------------------------------- *)
(** ** Sample records, services and worlds                                *)
(* --------------------------------------------------------------------- *)

Definition paper (t d : string) : Source :=
  mkSource (JStr t) [] (Some 2021%Z) (JStr d) JUndefined JUndefined JUndefined.

Definition paper_a : Source := paper "Crop yields under drought" "10.1/x".
Definition paper_b : Source := paper "Soil carbon" "10.1/y".
Definition paper_c : Source := paper "Crop yields, revisited" "10.1/x".

(** Services that never fail, around a given plagiarism checker. *)
Definition dependable (checker : nat → string → Http (option Q)) : Services :=
  mkServices (Some "operators")
    (λ _ _, None)
    (λ _ _ _ _ _, HttpOk "An original essay.")
    (λ _ _, HttpOk "Tighten the introduction.")
    (λ _ _ _, HttpOk "Doe, J. (2021).")
    checker
    (λ _ _ _, None)
    (λ _ _, HttpOk "https://drive.example/doc")
    (λ _ _, None)
    (λ _ _, HttpOk [paper_a; paper_b])
    (λ _, 1700000000000%N)
    "academic_bot".

(** A checker that reports one half for every text. *)
Definition always_half : nat → string → Http (option Q) :=
  λ _ _, HttpOk (Some (1 # 2)).

(** A checker whose every call times out. *)
Definition always_timeout : nat → string → Http (option Q) :=
  λ _ _, HttpFail "timeout of 30000ms exceeded".

(** A checker that answers without a score. *)
Definition no_score : nat → string → Http (option Q) :=
  λ _ _, HttpOk None.

(** A fresh chat: [{}] as session, no array, nothing logged. *)
Definition fresh_world : World := mkWorld empty_session [] [] 0.

(** A chat that has a batch of three pending sources (array 0) and an
    empty array of approved ones (array 1). *)
Definition world_with_batch : World :=
  mkWorld
    (mkSession (Some []) (Some false) (Some "student") (Some 1) (Some 0)
       (Some "42") (Some "student_42") JUndefined JUndefined None None)
    [[paper_a; paper_b; paper_c]; []] [] 0.

(** A chat that went through a whole workflow: approved sources and a last
    draft are there. *)
Definition world_after_draft : World :=
  mkWorld
    (mkSession (Some []) (Some false) (Some "student") (Some 0) None
       (Some "42") (Some "student_42") JUndefined JUndefined
       (Some "Drought and crops")
       (Some (mkLastDraft "Drought and crops" "An original essay." ""
                "APA" 5 0 (Some "https://drive.example/doc")
                "Drought_and_crops_1700000000000.txt")))
    [[paper_a; paper_b]] [] 0.

(* --------------------------------------------------------------------- *)
(** ** Notions used in the statements                                     *)
(* --------------------------------------------------------------------- *)

(** The records in [ctx.session.approvedSources] and in
    [ctx.session.pendingSources]; a property that is not set has none. *)
Definition approved_list (w : World) : list Source :=
  match approvedSources (session w) with
  | Some address => deref (heap w) address
  | None => []
  end.

Definition pending_list (w : World) : list Source :=
  match pendingSources (session w) with
  | Some address => deref (heap w) address
  | None => []
  end.

(** Every address the session holds is the address of an array. *)
Definition well_formed (w : World) : Prop :=
  (∀ address, approvedSources (session w) = Some address →
              address < length (heap w))
  ∧ (∀ address, pendingSources (session w) = Some address →
                address < length (heap w)).

(** The default state the specification gives a session after a reset:
    not aggregating, no input fragment, no waiting marker, no pending and
    no approved source, no last draft. *)
Definition cleared (w : World) : Prop :=
  default false (isAggregating (session w)) = false
  ∧ default [] (messages (session w)) = []
  ∧ truthy (waitingForRevision (session w)) = false
  ∧ truthy (waitingForComment (session w)) = false
  ∧ pending_list w = []
  ∧ approved_list w = []
  ∧ lastDraft (session w) = None.


(** The transport delivers every message. *)
Definition transport_delivers (svc : Services) : Prop :=
  ∀ t m, telegram_send svc t m = None.

(** [s] has no occurrence of the character [c]. *)
Fixpoint lacks (c : ascii) (s : string) : bool :=
  match s with
  | EmptyString => true
  | String x s' => negb (Ascii.eqb x c) && lacks c s'
  end.



(** The three source-approval events and the callback tags that carry
    them. *)
Inductive ApprovalEvent : Type :=
  | ApproveOne (index : string)
  | ApproveAll
  | CancelSelection.

Definition approval_tag (e : ApprovalEvent) : string :=
  match e with
  | ApproveOne index => "approve_source_" +:+ index
  | ApproveAll => "approve_all_sources"
  | CancelSelection => "cancel_sources"
  end.

Definition approval_update (e : ApprovalEvent) : Update :=
  CallbackQuery (approval_tag e).

Definition is_cancel (e : ApprovalEvent) : bool :=
  match e with
  | CancelSelection => true
  | _ => false
  end.

(** The approved and the pending records all come from [batch]. *)
Definition within (batch : list Source) (w : World) : Prop :=
  well_formed w ∧ approved_list w ⊆ batch ∧ pending_list w ⊆ batch.

(** The approved records are among the pending ones. *)
Definition approved_in_pending (w : World) : Prop :=
  well_formed w ∧ approved_list w ⊆ pending_list w.

(** The services with another plagiarism checker. *)
Definition with_checker (svc : Services)
    (checker : nat → string → Http (option Q)) : Services :=
  mkServices (ADMIN_CHAT_ID svc) (telegram_send svc) (groq_draft svc)
    (groq_revision svc) (zotero_bib svc) checker (fs_writeFile svc)
    (drive_upload svc) (admin_post svc) (source_pipeline svc) (date_now svc)
    (bot_username svc).

(** The checker answers every call with a score above the threshold. *)
Definition checker_always_above (svc : Services) : Prop :=
  ∀ t text, ∃ q, eden_plagiarism svc t text = HttpOk (Some q)
                 ∧ Qgt_bool q PLAGIARISM_THRESHOLD = true.

(** Every call of the checker fails: the request is rejected (network
    error, timeout) or the response carries no score. *)
Definition check_fails (checker : nat → string → Http (option Q)) : Prop :=
  ∀ t text, (∃ e, checker t text = HttpFail e) ∨ checker t text = HttpOk None.

(** The checker reports a perfect originality score on every call. *)
Definition check_perfect (checker : nat → string → Http (option Q)) : Prop :=
  ∀ t text, checker t text = HttpOk (Some 0%Q).

(** The services the draft pipeline cannot do without all succeed: the
    transport, the language model and the file system. *)
Definition drafting_succeeds (svc : Services) : Prop :=
  transport_delivers svc
  ∧ (∀ t topic sources format length,
       ∃ content, groq_draft svc t topic sources format length = HttpOk content)
  ∧ (∀ t path content, fs_writeFile svc t path content = None).

(** The regeneration notices sent so far: one per retry of the pipeline. *)
Definition is_rewriting (ev : Event) : bool :=
  match ev with
  | Replied (MsgRewriting _) => true
  | _ => false
  end.

Definition regenerations (l : list Event) : nat :=
  length (List.filter is_rewriting l).

(** A retry notice, an error shown to the user, or an alert to the
    operator. *)
Definition is_alarm (ev : Event) : bool :=
  match ev with
  | Replied (MsgRewriting _) => true
  | Replied (MsgDraftFailed _) => true
  | AdminAlerted _ => true
  | _ => false
  end.

Definition is_file_written (ev : Event) : bool :=
  match ev with
  | FileWritten _ _ => true
  | _ => false
  end.

(** The log without the lines written to the console. *)
Definition is_console (ev : Event) : bool :=
  match ev with
  | ConsoleError _ _ => true
  | _ => false
  end.

Definition off_console (l : list Event) : list Event :=
  List.filter (λ ev, negb (is_console ev)) l.

(** Two worlds that differ in console lines only. *)
Definition same_but_console (w1 w2 : World) : Prop :=
  session w1 = session w2
  ∧ heap w1 = heap w2
  ∧ clock w1 = clock w2
  ∧ off_console (log w1) = off_console (log w2).

(** Two computations that, from worlds differing in console lines only,
    end alike in worlds differing in console lines only. *)
Definition sim {A : Type} (m1 m2 : M A) : Prop :=
  ∀ w1 w2, same_but_console w1 w2 →
           (m1 w1).1 = (m2 w2).1 ∧ same_but_console (m1 w1).2 (m2 w2).2.

(** From [w] to [w'] the session and the arrays stay, and the log grows by
    events none of which is an alarm. *)
Definition quiet_step (w w' : World) : Prop :=
  session w' = session w
  ∧ heap w' = heap w
  ∧ ∃ evs, log w' = log w ++ evs ∧ forallb (λ ev, negb (is_alarm ev)) evs = true.

(** A checker that reports a quarter at first and a twentieth from the
    sixth call of a service on (Scenario C). *)
Definition quarter_then_low : nat → string → Http (option Q) :=
  λ t _, if t <? 6 then HttpOk (Some (1 # 4)) else HttpOk (Some (1 # 20)).

(** A stand-in for Joi on records given as lists of fields: the only rule
    is that a field [topic] is there. *)
Definition toy_joi (schema : Schema) (data : list (string * JsVal))
    : JoiResult (list (string * JsVal)) :=
  if bool_decide ("topic" ∈ data.*1) then JoiReturns None data
  else JoiReturns
         (Some (mkJoiError (Some [mkDetail "topic is required" ["topic"]])))
         data.

(** What surrounds every branch of [on_callback_query]: the [try]/[catch]
    and the closing [ctx.answerCbQuery()]. *)
Definition callback_frame (svc : Services) (branch : M unit) : M unit :=
  (try_catch branch
     (λ error,
        emit (ConsoleError "Callback query error:" error) ;;
        reply svc MsgCallbackError) ;;
   emit AnsweredCbQuery)%js.

(* --------------------------------------------------------------------- *)
(** ** Further notions: what a run of the pipeline leaves behind          *)
(* --------------------------------------------------------------------- *)

(** [" (rewrite to be more original)"] appended [k] times, as [k] nested
    retries of [processDraft] do. *)
Definition rewritten (k : nat) (topic : string) : string :=
  Nat.iter k (λ t, t +:+ " (rewrite to be more original)") topic.

(** A source that [formatCitations] looks up: its [zoteroKey] is truthy. *)
Definition has_key (source : Source) : bool := truthy (zoteroKey source).

(** The citation [formatCitations] writes by hand when Zotero fails. *)
Definition manual_citation (source : Source) : string :=
  js_to_string (title source) +:+ ". DOI: " +:+ js_to_string (doi source) +:+ nl.

(** The keys Zotero was asked to format, in order. *)
Definition bibliography_requests (l : list Event) : list JsVal :=
  omap (λ ev, match ev with
              | BibliographyRequested key => Some key
              | _ => None
              end) l.

(** The files written, in order: path and content. *)
Definition files_written (l : list Event) : list (string * string) :=
  omap (λ ev, match ev with
              | FileWritten path content => Some (path, content)
              | _ => None
              end) l.

(** The previews delivered, in order: number and text. *)
Definition previews (l : list Event) : list (nat * string) :=
  omap (λ ev, match ev with
              | Replied (MsgPreview number chunk) => Some (number, chunk)
              | _ => None
              end) l.

(** The texts submitted to the plagiarism check, in order. *)
Definition plagiarism_requests (l : list Event) : list string :=
  omap (λ ev, match ev with
              | PlagiarismRequested text => Some text
              | _ => None
              end) l.

(** The topics for which sources were retrieved, in order. *)
Definition source_requests (l : list Event) : list string :=
  omap (λ ev, match ev with
              | SourcesRequested topic => Some topic
              | _ => None
              end) l.

(** The messages delivered to the chat, in order. *)
Definition delivered (l : list Event) : list Msg :=
  omap (λ ev, match ev with
              | Replied m => Some m
              | _ => None
              end) l.

(** An event that is neither a regeneration notice nor a preview nor a
    written file. *)
Definition plain (ev : Event) : Prop :=
  is_rewriting ev = false
  ∧ match ev with
    | Replied (MsgPreview _ _) => False
    | FileWritten _ _ => False
    | _ => True
    end.

(** A message other than the regeneration notice and the previews. *)
Definition routine (m : Msg) : Prop :=
  match m with
  | MsgRewriting _ | MsgPreview _ _ => False
  | _ => True
  end.

(** From [w] to [w'] the session and the arrays stay as they are and the
    log grows by events that satisfy [P]. *)
Definition extends_by (P : Event → Prop) (w w' : World) : Prop :=
  session w' = session w
  ∧ heap w' = heap w
  ∧ ∃ evs, log w' = log w ++ evs ∧ Forall P evs.

(** A computation that does so from every world, however it ends. *)
Definition keeps {A : Type} (P : Event → Prop) (m : M A) : Prop :=
  ∀ w, extends_by P w (m w).2.

(** The session defaults the middleware fills in; [fresh] is the address
    of the array made when [approvedSources] is not set. *)
Definition with_defaults (chat : N) (fresh : nat) (s : Session) : Session :=
  mkSession
    (Some (default [] (messages s)))
    (Some (default false (isAggregating s)))
    (Some (match userType s with
           | Some u => if String.eqb u "" then "guest" else u
           | None => "guest"
           end))
    (Some (default fresh (approvedSources s)))
    (pendingSources s)
    (Some (pretty chat))
    (studentId s)
    (waitingForRevision s)
    (waitingForComment s)
    (currentTopic s)
    (lastDraft s).

(** A language model that is down, around services that work. *)
Definition groq_down : Services :=
  mkServices (Some "operators")
    (λ _ _, None)
    (λ _ _ _ _ _, HttpFail "Request failed with status code 503")
    (λ _ _, HttpFail "Request failed with status code 503")
    (λ _ _ _, HttpOk "Doe, J. (2021).")
    no_score
    (λ _ _ _, None)
    (λ _ _, HttpOk "https://drive.example/doc")
    (λ _ _, None)
    (λ _ _, HttpOk [paper_a; paper_b])
    (λ _, 1700000000000%N)
    "academic_bot".

(** A chat that has typed two fragments of a request. *)
Definition world_with_fragments : World :=
  mkWorld
    (mkSession (Some ["Drought"; "and crops"]) (Some true) (Some "student")
       (Some 0) None (Some "42") (Some "student_42") JUndefined JUndefined
       (Some "Drought") None)
    [[paper_c]] [] 0.

(** Every code unit of [s] satisfies [f]. *)
Fixpoint every (f : ascii → bool) (s : string) : bool :=
  match s with
  | EmptyString => true
  | String c s' => f c && every f s'
  end.

(** A decimal digit. *)
Definition is_digit (c : ascii) : bool :=
  let n := N_of_ascii c in (48 <=? n)%N && (n <=? 57)%N.

(** A chunk that holds at least one code unit. *)
Definition nonempty (chunk : string) : Prop := 0 < String.length chunk.

(** The events by which [send_previews i chunks] delivers its chunks. *)
Definition preview_events (i : nat) (chunks : list string) : list Event :=
  imap (λ k chunk, Replied (MsgPreview (i + k + 1) chunk)) chunks.

(** The text [createWordDocument] writes to the file. *)
Definition document_text (content bibliography topic : string) : string :=
  topic +:+ nl +:+ nl +:+ content +:+ nl +:+ nl +:+ "References:" +:+ nl
    +:+ bibliography.

(** A computation that only ever appends to the log. *)
Definition appends {A : Type} (m : M A) : Prop :=
  ∀ w, ∃ evs, log (m w).2 = log w ++ evs.

(** A draft whose first 5000 code units are the letter x; [tail] follows
    them. *)
Definition long_essay (tail : string) : string :=
  Nat.iter 5000 (String "x") tail.

(* --------------------------------------------------------------------- *)
(** ** Inline keyboards                                                   *)
(* --------------------------------------------------------------------- *)

(** What a button shows. *)
Inductive Caption : Type :=
  | CaptionSource (excerpt : string)   (* the first 40 code units of a title *)
  | CaptionApproveAll
  | CaptionCancel
  | CaptionStars (count : nat)
  | CaptionAddComment.

(** A button of an inline keyboard. *)
Record Button : Type := mkButton {
  caption : Caption;
  callback_data : string
}.

(** The rows [sources.slice(0, 5).map((source, i) => [...])] of the
    keyboard of [/sources], from index [i] on; [source.title.substring]
    throws when a title is not a string ([None]). *)
Fixpoint source_rows (i : nat) (sources : list Source)
    : option (list (list Button)) :=
  match sources with
  | [] => Some []
  | source :: rest =>
      match title source with
      | JStr t =>
          match source_rows (S i) rest with
          | Some rows =>
              Some ([mkButton (CaptionSource (slice t 0 40))
                       ("approve_source_" +:+ pretty i)] :: rows)
          | None => None
          end
      | _ => None
      end
  end.

(** The [keyboard] of [/sources]. *)
Definition sources_keyboard (sources : list Source)
    : option (list (list Button)) :=
  match source_rows 0 (take 5 sources) with
  | Some rows =>
      Some (rows ++ [[mkButton CaptionApproveAll "approve_all_sources";
                      mkButton CaptionCancel "cancel_sources"]])
  | None => None
  end.

(** A chat that is collecting the fragments of a request: [first] opened
    it, [more] came after, and no waiting marker is set. *)
Definition collecting (first : string) (more : list string) (w : World) : Prop :=
  messages (session w) = Some (first :: more)
  ∧ isAggregating (session w) = Some true
  ∧ currentTopic (session w) = Some first
  ∧ truthy (waitingForRevision (session w)) = false
  ∧ truthy (waitingForComment (session w)) = false.

(* --------------------------------------------------------------------- *)
(** ** Asynchronous code over another state                               *)
(* --------------------------------------------------------------------- *)

(** The modules that are not handed [ctx] run against a state of their
    own.  [Prog St] is the monad [M] over the state [St]: a computation
    ends [Returned] or [Threw]. *)
Definition Prog (St A : Type) : Type := St → Outcome A * St.

Definition pret {St A : Type} (a : A) : Prog St A := λ s, (Returned a, s).

Definition pbind {St A B : Type} (m : Prog St A) (k : A → Prog St B)
    : Prog St B :=
  λ s, match m s with
       | (Returned a, s') => k a s'
       | (Threw e, s') => (Threw e, s')
       | (Pending, s') => (Pending, s')
       end.

Definition pthrow {St A : Type} (e : Error) : Prog St A := λ s, (Threw e, s).

(** [try { body } catch (error) { handler error }]. *)
Definition pcatch {St A : Type} (body : Prog St A)
    (handler : Error → Prog St A) : Prog St A :=
  λ s, match body s with
       | (Threw e, s') => handler e s'
       | settled => settled
       end.

Declare Scope prog_scope.
Delimit Scope prog_scope with prog.
Notation "x <- c1 ;; c2" := (pbind c1 (λ x, c2))
  (at level 100, c1 at next level, right associativity) : prog_scope.
Notation "c1 ;; c2" := (pbind c1 (λ _, c2))
  (at level 100, right associativity) : prog_scope.

(** The double quote of the template literals. *)
Definition dq : string := String (ascii_of_nat 34) EmptyString.

(** White space and line terminators among the code units below 256, as
    [String.prototype.trim] sees them. *)
Definition is_blank (c : ascii) : bool :=
  let n := N_of_ascii c in
  (n =? 32)%N || ((9 <=? n)%N && (n <=? 13)%N) || (n =? 160)%N.

(** [line.trim()] is truthy: the line holds a code unit that is not
    white space. *)
Definition has_ink (line : string) : bool := negb (every is_blank line).

(** How [Array.prototype.join] renders an element. *)
Definition join_item (v : JsVal) : string :=
  match v with
  | JUndefined | JNull => ""
  | _ => js_to_string v
  end.

(* --------------------------------------------------------------------- *)
(** ** Source retrieval  (source-retrieval)                               *)
(* --------------------------------------------------------------------- *)

Module Retrieval.

(** What [generateKeywords] returns: an array (its elements as [join]
    renders them) or, when the model's JSON is something else, a value
    without a [join] method. *)
Inductive Keywords : Type :=
  | KwArray (items : list string)
  | KwOther.

(** An entry of the [history] parameter. *)
Record Past : Type := mkPast {
  past_topic : JsVal;
  past_text : JsVal
}.

(** A record of [response.data.data] of Semantic Scholar: an object, any
    member of which may be missing. *)
Record Paper : Type := mkPaper {
  paper_title : JsVal;
  paper_authors : option (list string);   (* [None]: null or missing *)
  paper_year : option Z;
  paper_abstract : JsVal;
  paper_doi : JsVal;
  paper_pdf : JsVal                        (* [openAccessPdf?.url] *)
}.

(** The lines [processSources] writes with [console.log]. *)
Inductive Progress : Type :=
  | Processing (topic : string)
  | Generated (keywords : Keywords)
  | Fetched (count : nat)
  | Unique (count : nat).

(** What the module does to the outside, in order. *)
Inductive Call : Type :=
  | KeywordsAsked (prompt : string)        (* POST to Groq *)
  | SearchAsked (query : string) (limit : nat)   (* GET Semantic Scholar *)
  | DoiAsked (doi : JsVal)                 (* GET CrossRef *)
  | ZoteroAsked (source : Source)          (* POST to Zotero *)
  | Printed (line : Progress)              (* console.log *)
  | Complained (label : string) (error : Error)  (* console.error *)
  | AdminPosted (text : string).           (* POST to the operator chat *)

(** The services of the module, each a function of the call counter and
    of the arguments of the call.  A response that lacks the members the
    code reads counts as a failed call. *)
Record Library : Type := mkLibrary {
  ADMIN_CHAT_ID : option string;
  groq_keywords : nat → string → Http string;
                    (* [response.data.choices[0].message.content] *)
  JSON_parse : string → option Keywords;   (* [None]: a SyntaxError *)
  semantic_scholar : nat → string → nat → Http (option (list Paper));
                    (* [response.data.data], [None] when it is missing *)
  crossref : nat → JsVal → Http bool;
                    (* whether [response.data.message] is truthy *)
  zotero_items : nat → Source → Http (option (list string));
                    (* [Object.keys(response.data.success)] *)
  admin_post : nat → string → option Error
}.

(** The state: the calls made so far and the call counter. *)
Record Net : Type := mkNet {
  calls : list Call;
  ticks : nat
}.

Definition emit (c : Call) : Prog Net unit :=
  λ n, (Returned (), mkNet (calls n ++ [c]) (ticks n)).

Definition tick : Prog Net nat :=
  λ n, (Returned (ticks n), mkNet (calls n) (S (ticks n))).

(** [source.year >= 2020]. *)
Definition recent (year : option Z) : bool :=
  match year with
  | Some y => (2020 <=? y)%Z
  | None => false
  end.

(** The object literal pushed onto [validSources]. *)
Definition normalise (source : Paper) : Source :=
  mkSource (paper_title source) (default [] (paper_authors source))
    (paper_year source) (paper_doi source) (paper_abstract source)
    (js_or (paper_pdf source) (JStr "")) JUndefined.

(** [{ ...source, zoteroKey }]. *)
Definition with_key (key : JsVal) (source : Source) : Source :=
  mkSource (title source) (authors source) (year source) (doi source)
    (abstract source) (url source) key.

Section Functions.
Variable lib : Library.

(** The [prompt] of [generateKeywords]. *)
Definition keywords_prompt (topic : string) (history : list Past) : string :=
  let historyText :=
    match history with
    | [] => ""
    | _ =>
        "Previous searches: "
        +:+ join ", "
              ((λ h, join_item (js_or (past_topic h) (past_text h)))
                 <$> history)
    end in
  "Generate 10 academic search keywords for " +:+ dq +:+ topic +:+ dq
  +:+ ". " +:+ historyText +:+ ". Return as JSON array of strings.".

Definition generateKeywords (topic : string) (history : list Past)
    : Prog Net Keywords :=
  pcatch
    (let prompt := keywords_prompt topic history in
     t <- tick ;;
     emit (KeywordsAsked prompt) ;;
     match groq_keywords lib t prompt with
     | HttpOk content =>
         match JSON_parse lib content with
         | Some keywords => pret keywords
         | None =>
             pret (KwArray
                     (take 10
                        (List.filter has_ink
                           (str_split (ascii_of_nat 10) content))))
         end
     | HttpFail e => pthrow e
     end)%prog
    (λ error,
       emit (Complained "Groq keywords error:" error) ;;
       pret (KwArray [topic; topic +:+ " research"; topic +:+ " study";
                      topic +:+ " analysis"]))%prog.

(** [limit = 10] is the default of the parameter. *)
Definition fetchSemanticScholar (keywords : Keywords) (limit : nat)
    : Prog Net (list Paper) :=
  pcatch
    (match keywords with
     | KwArray items =>
         let query := join " " items in
         t <- tick ;;
         emit (SearchAsked query limit) ;;
         match semantic_scholar lib t query limit with
         | HttpOk data => pret (default [] data)
         | HttpFail e => pthrow e
         end
     | KwOther => pthrow "keywords.join is not a function"
     end)%prog
    (λ error,
       emit (Complained "Semantic Scholar error:" error) ;;
       pret [])%prog.

(** The answer is [response.data.message], of which the caller reads the
    truth value, or [null]. *)
Definition validateDOI (doi : JsVal) : Prog Net bool :=
  pcatch
    (t <- tick ;;
     emit (DoiAsked doi) ;;
     match crossref lib t doi with
     | HttpOk message => pret message
     | HttpFail e => pthrow e
     end)%prog
    (λ error,
       emit (Complained "CrossRef validation error:" error) ;;
       pret false)%prog.

(** The answer is the first key of [response.data.success], or [null]. *)
Definition importToZotero (source : Source) : Prog Net JsVal :=
  pcatch
    (t <- tick ;;
     emit (ZoteroAsked source) ;;
     match zotero_items lib t source with
     | HttpOk (Some (key :: _)) => pret (JStr key)
     | HttpOk _ => pret JNull
     | HttpFail e => pthrow e
     end)%prog
    (λ error,
       emit (Complained "Zotero import error:" error) ;;
       pret JNull)%prog.

(** The loop of step 3 over [rawSources.slice(0, 10)]. *)
Fixpoint validate_loop (papers : list Paper) (validSources : list Source)
    : Prog Net (list Source) :=
  match papers with
  | [] => pret validSources
  | source :: rest =>
      if truthy (paper_doi source) && recent (paper_year source) then
        (validated <- validateDOI (paper_doi source) ;;
         if validated : bool then
           validate_loop rest (validSources ++ [normalise source])
         else validate_loop rest validSources)%prog
      else validate_loop rest validSources
  end.

(** The loop of step 5 over the deduplicated sources. *)
Fixpoint import_loop (sources : list Source) (sourcesWithZotero : list Source)
    : Prog Net (list Source) :=
  match sources with
  | [] => pret sourcesWithZotero
  | source :: rest =>
      (zoteroKey <- importToZotero source ;;
       import_loop rest (sourcesWithZotero ++ [with_key zoteroKey source]))%prog
  end.

(** [processSources(topic, chatId, history = [])]. *)
Definition processSources (topic : string) (chatId : option string)
    (history : list Past) : Prog Net (list Source) :=
  pcatch
    (emit (Printed (Processing topic)) ;;
     keywords <- generateKeywords topic history ;;
     emit (Printed (Generated keywords)) ;;
     rawSources <- fetchSemanticScholar keywords 15 ;;
     emit (Printed (Fetched (length rawSources))) ;;
     validSources <- validate_loop (take 10 rawSources) [] ;;
     let dedupedSources := deduplicateSources validSources in
     emit (Printed (Unique (length dedupedSources))) ;;
     import_loop dedupedSources [])%prog
    (λ error,
       emit (Complained "Source processing error:" error) ;;
       (if env_set (ADMIN_CHAT_ID lib) then
          t <- tick ;;
          let text :=
            "Source processing failed for " +:+ topic +:+ ": " +:+ error in
          match admin_post lib t text with
          | None => emit (AdminPosted text)
          | Some e => pthrow e
          end
        else pret ()) ;;
       pret [])%prog.

End Functions.

(** The sources sent to Zotero and the alerts sent to the operator. *)
Definition zotero_asked (l : list Call) : list Source :=
  omap (λ c, match c with
             | ZoteroAsked source => Some source
             | _ => None
             end) l.

Definition admin_posts (l : list Call) : list string :=
  omap (λ c, match c with
             | AdminPosted text => Some text
             | _ => None
             end) l.

Definition searches (l : list Call) : list (string * nat) :=
  omap (λ c, match c with
             | SearchAsked query limit => Some (query, limit)
             | _ => None
             end) l.

(** The keywords [generateKeywords] settles on when the model is asked
    at tick [t], and the records [fetchSemanticScholar] settles on when
    the catalogue is asked at tick [t]. *)
Definition keywords_at (lib : Library) (t : nat) (topic : string)
    (history : list Past) : Keywords :=
  match groq_keywords lib t (keywords_prompt topic history) with
  | HttpOk content =>
      match JSON_parse lib content with
      | Some keywords => keywords
      | None =>
          KwArray
            (take 10 (List.filter has_ink (str_split (ascii_of_nat 10) content)))
      end
  | HttpFail _ =>
      KwArray [topic; topic +:+ " research"; topic +:+ " study";
               topic +:+ " analysis"]
  end.

Definition found_at (lib : Library) (t : nat) (keywords : Keywords)
    (limit : nat) : list Paper :=
  match keywords with
  | KwArray items =>
      match semantic_scholar lib t (join " " items) limit with
      | HttpOk (Some data) => data
      | _ => []
      end
  | KwOther => []
  end.

(** The searches a value of [keywords] leads to. *)
Definition searched (keywords : Keywords) (limit : nat)
    : list (string * nat) :=
  match keywords with
  | KwArray items => [(join " " items, limit)]
  | KwOther => []
  end.

(** A call that is neither an import, nor an alert, nor a search. *)
Definition checking (c : Call) : Prop :=
  match c with
  | DoiAsked _ | Complained _ _ | KeywordsAsked _ | Printed _ => True
  | _ => False
  end.

(** A call that is neither an import nor an alert. *)
Definition routine_call (c : Call) : Prop :=
  match c with
  | ZoteroAsked _ | AdminPosted _ => False
  | _ => True
  end.

(** From [n] to [n'] the calls grow by calls that satisfy [P]. *)
Definition grows (P : Call → Prop) (n n' : Net) : Prop :=
  ∃ cs, calls n' = calls n ++ cs ∧ Forall P cs.

(** A source as [processSources] may return it: it has a DOI that
    CrossRef has confirmed, it is of 2020 or later, and its Zotero key is
    a string or [null]. *)
Definition vetted (lib : Library) (source : Source) : Prop :=
  truthy (doi source) = true
  ∧ recent (year source) = true
  ∧ (∃ t, crossref lib t (doi source) = HttpOk true)
  ∧ (zoteroKey source = JNull ∨ ∃ key, zoteroKey source = JStr key).

(** A library whose model is down and whose catalogue holds three
    papers, the third of which shares the DOI of the first. *)
Definition sample_library : Library :=
  mkLibrary (Some "operators")
    (λ _ _, HttpFail "Request failed with status code 503")
    (λ _, None)
    (λ _ _ _,
       HttpOk (Some [mkPaper (JStr "Crop yields under drought") None
                       (Some 2021%Z) JUndefined (JStr "10.1/x") JUndefined;
                     mkPaper (JStr "Soil carbon") None (Some 2019%Z)
                       JUndefined (JStr "10.1/y") JUndefined;
                     mkPaper (JStr "Crop yields, revisited") None
                       (Some 2022%Z) JUndefined (JStr "10.1/x") JUndefined]))
    (λ _ _, HttpOk true)
    (λ _ _, HttpOk (Some ["0"]))
    (λ _ _, None).

(** A library whose model answers with JSON that is not an array. *)
Definition chatty_library : Library :=
  mkLibrary (Some "operators")
    (λ _ _, HttpOk "{}")
    (λ _, Some KwOther)
    (semantic_scholar sample_library)
    (λ _ _, HttpOk true)
    (λ _ _, HttpOk (Some ["0"]))
    (λ _ _, None).

Definition idle : Net := mkNet [] 0.

End Retrieval.

(* --------------------------------------------------------------------- *)
(** ** The rating form  (delivery-monitoring)                             *)
(* --------------------------------------------------------------------- *)

(** The two texts [collectFeedback] can return. *)
Inductive FormText : Type :=
  | RateYourExperience
  | DraftCompleted.

(** What [collectFeedback] returns; [parse_mode] is ['Markdown'] in both
    cases. *)
Record FeedbackForm : Type := mkFeedbackForm {
  form_text : FormText;
  reply_markup : option (list (list Button))
}.

(** [collectFeedback(draftId)], for a [draftId] that is a string: building
    the template literals cannot throw, so the [catch] is not entered. *)
Definition collectFeedback (draftId : string) : FeedbackForm :=
  mkFeedbackForm RateYourExperience
    (Some [[mkButton (CaptionStars 1) ("rate_" +:+ draftId +:+ "_1");
            mkButton (CaptionStars 2) ("rate_" +:+ draftId +:+ "_2");
            mkButton (CaptionStars 3) ("rate_" +:+ draftId +:+ "_3");
            mkButton (CaptionStars 4) ("rate_" +:+ draftId +:+ "_4");
            mkButton (CaptionStars 5) ("rate_" +:+ draftId +:+ "_5")];
           [mkButton CaptionAddComment ("comment_" +:+ draftId)]]).

(** The ratings saved, with their chats, in order. *)
Definition saved_ratings (l : list Event) : list (N * option Z) :=
  omap (λ e, match e with
             | FeedbackSaved chat rating _ => Some (chat, rating)
             | _ => None
             end) l.

(* --------------------------------------------------------------------- *)
(** ** The API monitor  (utils/monitoring)                                *)
(* --------------------------------------------------------------------- *)

Module Monitoring.

(** A value held in [this.calls]: a number or [NaN]. *)
Inductive Count : Type :=
  | Num (n : N)
  | NaN.

(** [x++] on a double: up to [2^53] the successor is exact, and
    [2^53 + 1] rounds back to [2^53]. *)
Definition increment (c : Count) : Count :=
  match c with
  | Num n => if (n <? 2 ^ 53)%N then Num (n + 1) else Num n
  | NaN => NaN
  end.

(** The [message] of an entry of [this.errors]: a string, or the error
    object itself when its message is empty. *)
Inductive Logged : Type :=
  | LoggedText (text : string)
  | LoggedError.

Record Entry : Type := mkEntry {
  entry_api : string;
  entry_timestamp : string;
  entry_message : Logged
}.

(** An instance of [ApiMonitor]; [calls] holds the own properties of
    [this.calls]. *)
Record ApiMonitor : Type := mkApiMonitor {
  calls : gmap string Count;
  errors : list Entry;
  startTime : Z
}.

(** [new ApiMonitor()] at the time [now] of [Date.now()]. *)
Definition constructor (now : Z) : ApiMonitor :=
  mkApiMonitor
    (<["groq" := Num 0]>
       (<["zotero" := Num 0]>
          (<["eden" := Num 0]> (<["telegram" := Num 0]> ∅))))
    [] now.

(** [logCall(api, success = true)]; [now] is [new Date().toISOString()].
    A name that [this.calls] inherits from [Object.prototype] is not
    [undefined] either: the increment of a function is [NaN], stored as an
    own property, except under [__proto__], whose setter drops a number. *)
Definition logCall (now api : string) (success : bool) (m : ApiMonitor)
    : ApiMonitor :=
  let calls' :=
    match calls m !! api with
    | Some c => <[api := increment c]> (calls m)
    | None =>
        if bool_decide (api ∈ object_prototype_names) then
          if String.eqb api "__proto__" then calls m
          else <[api := NaN]> (calls m)
        else calls m
    end in
  let errors' :=
    if success then errors m
    else errors m ++ [mkEntry api now (LoggedText "API call failed")] in
  mkApiMonitor calls' errors' (startTime m).

(** [logError(api, error)] for an error object with message [error]. *)
Definition logError (now api : string) (error : Error) (m : ApiMonitor)
    : ApiMonitor :=
  mkApiMonitor (calls m)
    (errors m
     ++ [mkEntry api now
           (if String.eqb error "" then LoggedError else LoggedText error)])
    (startTime m).

(** What [getStats] returns. *)
Record Stats : Type := mkStats {
  uptime : Z;
  stats_calls : gmap string Count;
  stats_errors : list Entry;
  errorCount : nat
}.

(** [getStats()] at the time [now] of [Date.now()]. *)
Definition getStats (now : Z) (m : ApiMonitor) : Stats :=
  mkStats ((now - startTime m) / 1000) (calls m)
    (drop (length (errors m) - 10) (errors m)) (length (errors m)).

(** A use of the monitor. *)
Inductive Op : Type :=
  | LogCall (now api : string) (success : bool)
  | LogError (now api : string) (error : Error).

Definition apply (m : ApiMonitor) (op : Op) : ApiMonitor :=
  match op with
  | LogCall now api success => logCall now api success m
  | LogError now api error => logError now api error m
  end.

(** The monitor after a sequence of uses. *)
Definition run (ops : list Op) (m : ApiMonitor) : ApiMonitor :=
  foldl apply m ops.

(** The names the constructor gives a counter. *)
Definition tracked : list string := ["groq"; "zotero"; "eden"; "telegram"].

(** [op] is a call of [logCall] for [api]. *)
Definition counts_for (api : string) (op : Op) : bool :=
  match op with
  | LogCall _ name _ => String.eqb name api
  | LogError _ _ _ => false
  end.

(** [op] adds an entry to [this.errors]. *)
Definition reports (op : Op) : bool :=
  match op with
  | LogCall _ _ success => negb success
  | LogError _ _ _ => true
  end.

(** The entry an [op] that reports adds to [this.errors]. *)
Definition report_of (op : Op) : Entry :=
  match op with
  | LogCall now api _ => mkEntry api now (LoggedText "API call failed")
  | LogError now api error =>
      mkEntry api now
        (if String.eqb error "" then LoggedError else LoggedText error)
  end.

(** A day of uses: three calls of the model, one of them failed, a call
    under a name of [Object.prototype], and a workflow error. *)
Definition sample_ops : list Op :=
  [LogCall "2024-05-01T10:00:00.000Z" "groq" true;
   LogCall "2024-05-01T10:00:01.000Z" "groq" false;
   LogCall "2024-05-01T10:00:02.000Z" "toString" true;
   LogError "2024-05-01T10:00:03.000Z" "workflow" "Draft generation failed";
   LogCall "2024-05-01T10:00:04.000Z" "groq" true].

End Monitoring.

(* --------------------------------------------------------------------- *)
(** ** Screenshots and voice notes  (intake)                              *)
(* --------------------------------------------------------------------- *)

Module Media.

(** The replies of the photo and voice handlers. *)
Inductive Notice : Type :=
  | ProcessingImage
  | ImageProcessed (excerpt : string)     (* [ocrText.substring(0, 100)] *)
  | TranscribingVoice
  | VoiceTranscribed (excerpt : string).

(** What the two handlers do besides writing the session, in order. *)
Inductive Signal : Type :=
  | Said (notice : Notice)                (* [ctx.reply], not awaited *)
  | FileAsked (fileId : string)           (* [ctx.telegram.getFile] *)
  | EdenOcrAsked (imageUrl : string)      (* POST to Eden AI *)
  | FallbackPrinted                       (* console.log *)
  | TesseractAsked (imageUrl : string)    (* [Tesseract.recognize] *)
  | PathAsked (voiceFileId : string)      (* GET [getFile] *)
  | EdenTranscriptionAsked (downloadUrl : string).   (* POST to Eden AI *)

(** The services of the two handlers, each a function of the call counter
    and of the arguments of the call.  A response that lacks the members
    the code reads counts as a failed call; [None] stands for a member the
    code reads with a default. *)
Record Studio : Type := mkStudio {
  TELEGRAM_TOKEN : string;
  EDEN_AI_KEY : option string;
  telegram_getFile : nat → string → Http (option string);
                       (* [fileResponse.file_path] *)
  eden_ocr : nat → string → Http (option string);
                       (* [response.data.google.predicted_text] *)
  tesseract : nat → string → Http string;       (* [data.text] *)
  telegram_file_path : nat → string → Http (option string);
                       (* [fileResponse.data.result.file_path] *)
  eden_transcription : nat → string → Http (option string)
                       (* [transResponse.data.openai.transcription] *)
}.

(** The state: the world of the other handlers, and the signals. *)
Record Desk : Type := mkDesk {
  world : World;
  signals : list Signal
}.

(** A computation of the other handlers, run on the world of the desk. *)
Definition lift {A : Type} (m : M A) : Prog Desk A :=
  λ d, ((m (world d)).1, mkDesk (m (world d)).2 (signals d)).

Definition signal (s : Signal) : Prog Desk unit :=
  λ d, (Returned (), mkDesk (world d) (signals d ++ [s])).

(** [value || fallback] for a string that may be missing. *)
Definition text_or (value : option string) (fallback : string) : string :=
  match value with
  | Some text => if String.eqb text "" then fallback else text
  | None => fallback
  end.

(** [https://api.telegram.org/file/bot${TELEGRAM_TOKEN}/${file_path}]. *)
Definition file_url (token : string) (file_path : option string) : string :=
  "https://api.telegram.org/file/bot" +:+ token +:+ "/"
  +:+ default "undefined" file_path.

(** [ctx.session.messages.push(fragment)]. *)
Definition push_message (fragment : string) : M unit :=
  (s <- get_session ;;
   match messages s with
   | Some fragments =>
       modify_session (set_messages (Some (fragments ++ [fragment])))
   | None => throw "Cannot read properties of undefined (reading 'push')"
   end)%js.

Section Handlers.
Variable svc : Services.
Variable studio : Studio.

Definition performOCR (imageUrl : string) : Prog Desk string :=
  pcatch
    (if env_set (EDEN_AI_KEY studio) then
       t <- lift tick ;;
       signal (EdenOcrAsked imageUrl) ;;
       match eden_ocr studio t imageUrl with
       | HttpOk predicted_text => pret (text_or predicted_text "OCR failed")
       | HttpFail e => pthrow e
       end
     else pthrow "Eden AI key not provided")%prog
    (λ error,
       signal FallbackPrinted ;;
       t <- lift tick ;;
       signal (TesseractAsked imageUrl) ;;
       match tesseract studio t imageUrl with
       | HttpOk text => pret text
       | HttpFail e => pthrow e
       end)%prog.

Definition transcribeVoice (voiceFileId : string) : Prog Desk string :=
  pcatch
    (t <- lift tick ;;
     signal (PathAsked voiceFileId) ;;
     filePath <-
       match telegram_file_path studio t voiceFileId with
       | HttpOk filePath => pret filePath
       | HttpFail e => pthrow e
       end ;;
     let downloadUrl := file_url (TELEGRAM_TOKEN studio) filePath in
     if env_set (EDEN_AI_KEY studio) then
       t' <- lift tick ;;
       signal (EdenTranscriptionAsked downloadUrl) ;;
       match eden_transcription studio t' downloadUrl with
       | HttpOk transcription =>
           pret (text_or transcription "Transcription failed")
       | HttpFail e => pthrow e
       end
     else
       pret "Voice transcription requires Eden AI key - please type your request.")%prog
    (λ error,
       pret "Voice transcription error - please type your request.").

(** [bot.on('photo')]; [photo] holds the [file_id] of each size of
    [ctx.message.photo]. *)
Definition on_photo (photo : list string) : Prog Desk unit :=
  match last photo with
  | None => pthrow "Cannot read properties of undefined (reading 'file_id')"
  | Some fileId =>
      (t <- lift tick ;;
       signal (FileAsked fileId) ;;
       file_path <-
         match telegram_getFile studio t fileId with
         | HttpOk file_path => pret file_path
         | HttpFail e => pthrow e
         end ;;
       let imageUrl := file_url (TELEGRAM_TOKEN studio) file_path in
       signal (Said ProcessingImage) ;;
       ocrText <- performOCR imageUrl ;;
       lift (modify_session
               (λ s, set_messages (Some (default [] (messages s))) s)) ;;
       lift (push_message ("[OCR from image]: " +:+ ocrText)) ;;
       signal (Said (ImageProcessed (slice ocrText 0 100))))%prog
  end.

(** [bot.on('voice')]. *)
Definition on_voice (voiceId : string) : Prog Desk unit :=
  (signal (Said TranscribingVoice) ;;
   transcription <- transcribeVoice voiceId ;;
   lift (modify_session
           (λ s, set_messages (Some (default [] (messages s))) s)) ;;
   lift (push_message ("[Voice transcription]: " +:+ transcription)) ;;
   signal (Said (VoiceTranscribed (slice transcription 0 100))))%prog.

(** An inbound update: one for the handlers of the pipeline, a photo or
    a voice note. *)
Inductive Inbound : Type :=
  | Plain (u : Update)
  | Photo (photo : list string)
  | Voice (voiceId : string).

(** One update: the middleware, then the handler; what the handler throws
    reaches [bot.catch]. *)
Definition handle_inbound (budget : nat) (chat : N) (u : Inbound)
    : Prog Desk unit :=
  match u with
  | Plain u => lift (handle_update svc budget chat u)
  | Photo photo =>
      pcatch
        (lift (middleware chat) ;; on_photo photo)%prog
        (λ err,
           lift (emit (ConsoleError "Bot error:" err)) ;;
           lift (reply_nowait svc MsgErrorOccurred))%prog
  | Voice voiceId =>
      pcatch
        (lift (middleware chat) ;; on_voice voiceId)%prog
        (λ err,
           lift (emit (ConsoleError "Bot error:" err)) ;;
           lift (reply_nowait svc MsgErrorOccurred))%prog
  end.

(** The desk after one update, and after a sequence of updates of one
    chat. *)
Definition deliver (budget : nat) (chat : N) (d : Desk) (u : Inbound) : Desk :=
  snd (handle_inbound budget chat u d).

Definition run_inbound (budget : nat) (chat : N) (us : list Inbound)
    (d : Desk) : Desk :=
  foldl (deliver budget chat) d us.

End Handlers.

(** The replies of the two handlers, and the image addresses handed to
    Eden AI and to Tesseract. *)
Definition said (l : list Signal) : list Notice :=
  omap (λ s, match s with
             | Said notice => Some notice
             | _ => None
             end) l.

Definition eden_ocr_requests (l : list Signal) : list string :=
  omap (λ s, match s with
             | EdenOcrAsked imageUrl => Some imageUrl
             | _ => None
             end) l.

Definition tesseract_requests (l : list Signal) : list string :=
  omap (λ s, match s with
             | TesseractAsked imageUrl => Some imageUrl
             | _ => None
             end) l.

(** What Eden AI reads in the image, when it is asked at tick [t] and
    answers. *)
Definition eden_reads (studio : Studio) (t : nat) (imageUrl : string)
    : option string :=
  if env_set (EDEN_AI_KEY studio) then
    match eden_ocr studio t imageUrl with
    | HttpOk predicted_text => Some (text_or predicted_text "OCR failed")
    | HttpFail _ => None
    end
  else None.

(** A studio without an Eden AI key, whose Telegram and Tesseract
    answer. *)
Definition offline_studio : Studio :=
  mkStudio "123:abc" None
    (λ _ _, HttpOk (Some "photos/file_7.jpg"))
    (λ _ _, HttpFail "Request failed with status code 401")
    (λ _ _, HttpOk "Essay on drought, 5 pages")
    (λ _ _, HttpOk (Some "voice/file_9.oga"))
    (λ _ _, HttpFail "Request failed with status code 401").

Definition empty_desk : Desk := mkDesk fresh_world [].

End Media.

(* --------------------------------------------------------------------- *)
(** ** The running bot                                                    *)
(* --------------------------------------------------------------------- *)

(** The text of an update that reaches [bot.on('text')]: a text message
    that [bot.start] does not take. *)
Definition free_text (svc : Services) (u : Update) : option string :=
  match u with
  | Text text entities =>
      if start_matches (bot_username svc) text entities then None
      else Some text
  | CallbackQuery _ => None
  end.






(** The entry [formatCitations] writes for a source that has a key, when
    Zotero is asked at tick [t]. *)
Definition citation_at (svc : Services) (format : string) (t : nat)
    (source : Source) : string :=
  match zotero_bib svc t (zoteroKey source) format with
  | HttpOk data => data +:+ nl
  | HttpFail _ => manual_citation source
  end.

(* ===================================================================== *)
(** * Part II.  Properties                                                *)
(* ===================================================================== *)

(* --------------------------------------------------------------------- *)
(** ** Strings                                                            *)
(* --------------------------------------------------------------------- *)

Lemma string_app_cons (x : ascii) (a b : string) :
  String x a +:+ b = String x (a +:+ b).
Proof. reflexivity. Qed.

Lemma string_app_nil_l (b : string) : "" +:+ b = b.
Proof. reflexivity. Qed.

Lemma string_app_nil_r (a : string) : a +:+ "" = a.
Proof.
  induction a as [|x a IH]; [reflexivity|].
  rewrite string_app_cons. by rewrite IH.
Qed.

Lemma str_drop_all (n : nat) (s : string) :
  String.length s ≤ n → str_drop n s = "".
Proof.
  revert s; induction n as [|n IH]; intros [|c s] Hlen; simpl in *;
    try reflexivity; try lia.
  apply IH; lia.
Qed.

Lemma str_drop_drop (n m : nat) (s : string) :
  str_drop m (str_drop n s) = str_drop (n + m) s.
Proof.
  revert s; induction n as [|n IH]; intros s; simpl; [reflexivity|].
  destruct s as [|c s]; [by destruct m | apply IH].
Qed.

Lemma str_drop_length (n : nat) (s : string) :
  String.length (str_drop n s) = String.length s - n.
Proof.
  revert s; induction n as [|n IH]; intros [|c s]; simpl; try lia.
  apply IH.
Qed.

(** A slice starting at [i] is the first [m] units of what is left. *)
Lemma substring_drop (i m : nat) (s : string) :
  String.substring i m s = String.substring 0 m (str_drop i s).
Proof.
  revert s; induction i as [|i IH]; intros s; [reflexivity|].
  destruct s as [|c s]; simpl; [by destruct m | apply IH].
Qed.

Lemma substring_0_split (m : nat) (s : string) :
  String.substring 0 m s +:+ str_drop m s = s.
Proof.
  revert s; induction m as [|m IH]; intros [|c s]; simpl; try reflexivity.
  rewrite string_app_cons. by rewrite IH.
Qed.

Lemma substring_0_length (m : nat) (s : string) :
  String.length (String.substring 0 m s) = m `min` String.length s.
Proof.
  revert s; induction m as [|m IH]; intros [|c s]; simpl; try reflexivity.
  by rewrite IH.
Qed.

Lemma slice_split (s : string) (i m : nat) :
  slice s i (i + m) +:+ str_drop (i + m) s = str_drop i s.
Proof.
  unfold slice. replace (i + m - i) with m by lia.
  rewrite substring_drop, <- str_drop_drop. apply substring_0_split.
Qed.

Lemma slice_length (s : string) (i m : nat) :
  String.length (slice s i (i + m)) = m `min` (String.length s - i).
Proof.
  unfold slice. replace (i + m - i) with m by lia.
  by rewrite substring_drop, substring_0_length, str_drop_length.
Qed.

(* --------------------------------------------------------------------- *)
(** ** [chunkContent]                                                     *)
(* --------------------------------------------------------------------- *)

Lemma join_chunks_cons (chunk : string) (chunks : list string) :
  join_chunks (chunk :: chunks) = chunk +:+ join_chunks chunks.
Proof.
  unfold join_chunks. destruct chunks as [|next chunks]; simpl.
  - by rewrite string_app_nil_r.
  - by rewrite string_app_nil_l.
Qed.

Lemma chunk_loop_unfold (budget : nat) (content : string) (maxLength i : nat)
    (chunks : list string) :
  chunk_loop budget content maxLength i chunks =
  if i <? String.length content then
    match budget with
    | O => None
    | S budget' =>
        chunk_loop budget' content maxLength (i + maxLength)
          (chunks ++ [slice content i (i + maxLength)])
    end
  else Some chunks.
Proof. destruct budget; reflexivity. Qed.

(** A run that ends keeps its answer under any larger budget. *)
Lemma chunk_loop_more_budget (content : string) (maxLength : nat) :
  ∀ budget budget' i chunks result,
    chunk_loop budget content maxLength i chunks = Some result →
    budget ≤ budget' →
    chunk_loop budget' content maxLength i chunks = Some result.
Proof.
  induction budget as [|budget IH]; intros budget' i chunks result.
  - rewrite !chunk_loop_unfold.
    destruct (i <? String.length content); [discriminate | by intros].
  - rewrite (chunk_loop_unfold (S budget)), (chunk_loop_unfold budget').
    destruct (i <? String.length content); [|by intros].
    intros Hrun Hle. destruct budget' as [|budget']; [lia|].
    apply IH; [exact Hrun | lia].
Qed.

(** With [maxLength = 0] the loop variable never moves: no budget lets the
    loop end on a non-empty string. *)
Lemma chunk_loop_zero_diverges (content : string) :
  ∀ budget i chunks,
    i < String.length content →
    chunk_loop budget content 0 i chunks = None.
Proof.
  induction budget as [|budget IH]; intros i chunks Hi;
    rewrite chunk_loop_unfold;
    (destruct (Nat.ltb_spec i (String.length content)); [|lia]).
  - reflexivity.
  - rewrite Nat.add_0_r. by apply IH.
Qed.

(** The loop invariant: from index [i] on, the loop appends chunks that
    spell out the rest of the content. *)
Lemma chunk_loop_spec (content : string) (maxLength : nat) :
  0 < maxLength →
  ∀ budget i chunks,
    String.length content - i ≤ budget →
    ∃ rest,
      chunk_loop budget content maxLength i chunks = Some (chunks ++ rest)
      ∧ join_chunks rest = str_drop i content
      ∧ Forall (λ chunk, String.length chunk ≤ maxLength) rest
      ∧ (∀ k chunk, rest !! k = Some chunk → S k < length rest →
           String.length chunk = maxLength)
      ∧ (rest ≠ [] → i < String.length content).
Proof.
  intros Hpos. induction budget as [|budget IH]; intros i chunks Hbudget;
    rewrite chunk_loop_unfold;
    destruct (Nat.ltb_spec i (String.length content)) as [Hi|Hi]; try lia.
  - exists []. rewrite app_nil_r. repeat split; try done.
    symmetry. apply str_drop_all. lia.
  - destruct (IH (i + maxLength) (chunks ++ [slice content i (i + maxLength)]))
      as (rest & Hrun & Hjoin & Hmax & Hfull & Hmore); [lia|].
    exists (slice content i (i + maxLength) :: rest).
    split; [by rewrite Hrun, <- app_assoc|].
    split; [by rewrite join_chunks_cons, Hjoin, slice_split|].
    split; [constructor; [rewrite slice_length; lia | exact Hmax]|].
    split; [|done].
    intros [|k] chunk Hk Hlast; simpl in *.
    + injection Hk as <-. rewrite slice_length.
      assert (i + maxLength < String.length content); [|lia].
      apply Hmore. intros ->. simpl in Hlast. lia.
    + apply (Hfull k); [done | lia].
  - exists []. rewrite app_nil_r. repeat split; try done.
    symmetry. apply str_drop_all. lia.
Qed.

(** With a positive [maxLength] the loop ends within the budget. *)
Lemma chunkContent_ends (content : string) (maxLength : nat) :
  0 < maxLength → ∃ chunks, chunkContent content maxLength = Some chunks.
Proof.
  intros Hpos.
  destruct (chunk_loop_spec content maxLength Hpos
              (String.length content) 0 []) as (rest & Hrun & _); [lia|].
  by exists rest.
Qed.

(** C10.  For every string [content] and every positive [maxLength],
    [chunkContent] ends and returns chunks that concatenate, in order, to
    exactly [content]; every chunk has at most [maxLength] code units, and
    every chunk but possibly the last has exactly [maxLength]. *)
Theorem chunkContent_partition (content : string) (maxLength : nat) :
  0 < maxLength →
  ∃ chunks,
    chunkContent content maxLength = Some chunks
    ∧ join_chunks chunks = content
    ∧ Forall (λ chunk, String.length chunk ≤ maxLength) chunks
    ∧ ∀ k chunk, chunks !! k = Some chunk → S k < length chunks →
        String.length chunk = maxLength.
Proof.
  intros Hpos.
  destruct (chunk_loop_spec content maxLength Hpos
              (String.length content) 0 [])
    as (rest & Hrun & Hjoin & Hmax & Hfull & _); [lia|].
  exists rest. unfold chunkContent. by rewrite Hrun.
Qed.

Lemma chunkContent_partition_witness :
  ∃ chunks,
    chunkContent "a draft of ten" 4 = Some chunks
    ∧ join_chunks chunks = "a draft of ten"
    ∧ Forall (λ chunk, String.length chunk ≤ 4) chunks
    ∧ ∀ k chunk, chunks !! k = Some chunk → S k < length chunks →
        String.length chunk = 4.
Proof. apply chunkContent_partition. lia. Defined.

Example chunkContent_example :
  chunkContent "a draft of ten" 4 = Some ["a dr"; "aft "; "of t"; "en"].
Proof. reflexivity. Qed.

(* --------------------------------------------------------------------- *)
(** ** [deduplicateSources]                                               *)
(* --------------------------------------------------------------------- *)

Lemma source_key_group_key (source : Source) :
  source_key source = group_key source.
Proof. reflexivity. Qed.

Lemma dedup_filter_new (seen : gset JsVal) (source : Source)
    (rest : list Source) :
  source_key source ∉ seen →
  dedup_filter seen (source :: rest)
  = source :: dedup_filter ({[ source_key source ]} ∪ seen) rest.
Proof. intros Hnew. simpl. by rewrite decide_False. Qed.

Lemma dedup_filter_seen (seen : gset JsVal) (source : Source)
    (rest : list Source) :
  source_key source ∈ seen →
  dedup_filter seen (source :: rest) = dedup_filter seen rest.
Proof. intros Hseen. simpl. by rewrite decide_True. Qed.

(** The code's [Set] of seen keys and the specification's "keys of the
    earlier records" describe the same filter. *)
Lemma dedup_filter_keep_first (later : list Source) :
  ∀ (earlier : list Source) (seen : gset JsVal),
    (∀ key, key ∈ seen ↔ key ∈ group_key <$> earlier) →
    dedup_filter seen later = keep_first_occurrences earlier later.
Proof.
  induction later as [|source rest IH]; intros earlier seen Hseen; simpl;
    [reflexivity|].
  rewrite source_key_group_key.
  destruct (decide (group_key source ∈ seen)) as [Hin|Hout];
    destruct (decide (group_key source ∈ group_key <$> earlier)) as [Hin'|Hout'].
  - apply IH. intros key. rewrite fmap_app, elem_of_app, <- Hseen.
    simpl. rewrite list_elem_of_singleton.
    split; [tauto | intros [?| ->]; done].
  - exfalso. apply Hout'. by apply Hseen.
  - exfalso. apply Hout. by apply Hseen.
  - f_equal. apply IH. intros key.
    rewrite fmap_app, elem_of_app, <- Hseen, elem_of_union, elem_of_singleton.
    simpl. rewrite list_elem_of_singleton. tauto.
Qed.

Lemma dedup_filter_elem (sources : list Source) :
  ∀ (seen : gset JsVal) (x : Source),
    x ∈ dedup_filter seen sources → x ∈ sources ∧ source_key x ∉ seen.
Proof.
  induction sources as [|source rest IH]; intros seen x; simpl.
  - by intros ?%elem_of_nil.
  - destruct (decide (source_key source ∈ seen)) as [Hin|Hout].
    + intros [? ?]%IH. split; [by apply list_elem_of_further | done].
    + intros [->|Hx]%elem_of_cons; [split; [apply list_elem_of_here | done]|].
      apply IH in Hx as [? Hnot]. split; [by apply list_elem_of_further|].
      intros Hseen. apply Hnot, elem_of_union. by right.
Qed.

Lemma dedup_filter_NoDup (sources : list Source) :
  ∀ seen : gset JsVal, NoDup (source_key <$> dedup_filter seen sources).
Proof.
  induction sources as [|source rest IH]; intros seen; simpl;
    [apply NoDup_nil_2|].
  destruct (decide (source_key source ∈ seen)); [apply IH|].
  rewrite fmap_cons. apply NoDup_cons_2; [|apply IH].
  intros (x & Hkey & Hx)%list_elem_of_fmap.
  apply dedup_filter_elem in Hx as [_ Hnot]. set_solver.
Qed.

Lemma dedup_filter_fixed (sources : list Source) :
  ∀ seen : gset JsVal,
    NoDup (source_key <$> sources) →
    (∀ x, x ∈ sources → source_key x ∉ seen) →
    dedup_filter seen sources = sources.
Proof.
  induction sources as [|source rest IH]; intros seen Hdup Hnew; simpl;
    [reflexivity|].
  rewrite fmap_cons in Hdup. apply NoDup_cons in Hdup as [Hfirst Hdup].
  destruct (decide (source_key source ∈ seen)) as [Hin|_].
  - exfalso. apply (Hnew source); [apply list_elem_of_here | done].
  - f_equal. apply IH; [done|]. intros x Hx.
    rewrite elem_of_union, elem_of_singleton. intros [Heq|Hin].
    + apply Hfirst. rewrite <- Heq. apply list_elem_of_fmap. eauto.
    + apply (Hnew x); [by apply list_elem_of_further | done].
Qed.

Lemma dedup_filter_sublist (sources : list Source) :
  ∀ seen : gset JsVal, dedup_filter seen sources `sublist_of` sources.
Proof.
  induction sources as [|source rest IH]; intros seen; simpl; [done|].
  destruct (decide (source_key source ∈ seen)).
  - apply sublist_cons, IH.
  - apply sublist_skip, IH.
Qed.

(** C4.  [deduplicateSources] is a function of its argument alone; it does
    what the specification words say (group by [doi] when present, else by
    [title]; keep the first record of each group); its result is the input
    with records left out, in the input's order; applying it twice is
    applying it once; a list without two equal keys comes back unchanged;
    and of three records of which two share a [doi], the two first
    occurrences remain. *)
Theorem deduplicateSources_first_occurrences :
  (∀ sources, deduplicateSources sources = keep_first_occurrences [] sources)
  ∧ (∀ sources, deduplicateSources sources `sublist_of` sources)
  ∧ (∀ sources,
       deduplicateSources (deduplicateSources sources)
       = deduplicateSources sources)
  ∧ (∀ sources,
       NoDup (group_key <$> sources) → deduplicateSources sources = sources)
  ∧ (∀ a b c,
       truthy (doi a) = true → doi b = doi a → group_key c ≠ group_key a →
       deduplicateSources [a; b; c] = [a; c]
       ∧ deduplicateSources [a; c; b] = [a; c]
       ∧ deduplicateSources [c; a; b] = [c; a]).
Proof.
  split; [|split; [|split; [|split]]].
  - intros sources. apply dedup_filter_keep_first.
    intros key. simpl. split; [set_solver | by intros ?%elem_of_nil].
  - intros sources. apply dedup_filter_sublist.
  - intros sources. apply dedup_filter_fixed.
    + apply dedup_filter_NoDup.
    + intros x _. set_solver.
  - intros sources Hdup. apply dedup_filter_fixed; [done|].
    intros x _. set_solver.
  - intros a b c Hdoi Hshare Hother.
    assert (source_key b = source_key a) as Hb.
    { unfold source_key, js_or. by rewrite Hshare, Hdoi. }
    change (source_key c ≠ source_key a) in Hother.
    unfold deduplicateSources. repeat split.
    + rewrite dedup_filter_new, dedup_filter_seen, dedup_filter_new;
        [done | set_solver..].
    + rewrite dedup_filter_new, dedup_filter_new, dedup_filter_seen;
        [done | set_solver..].
    + rewrite dedup_filter_new, dedup_filter_new, dedup_filter_seen;
        [done | set_solver..].
Qed.

Lemma deduplicateSources_first_occurrences_witness :
  deduplicateSources [paper_a; paper_c; paper_b] = [paper_a; paper_b]
  ∧ deduplicateSources [paper_a; paper_b] = [paper_a; paper_b].
Proof.
  split.
  - apply (proj2 (proj2 (proj2 (proj2 deduplicateSources_first_occurrences)))
             paper_a paper_c paper_b); [reflexivity | reflexivity |].
    vm_compute. discriminate.
  - apply (proj1 (proj2 (proj2 (proj2 deduplicateSources_first_occurrences)))).
    vm_compute. repeat constructor; set_solver.
Defined.

(** Scenario B, evaluated. *)
Example deduplicateSources_scenario_B :
  deduplicateSources [paper_a; paper_b; paper_c] = [paper_a; paper_b].
Proof. vm_compute. reflexivity. Qed.

(* --------------------------------------------------------------------- *)
(** ** [validateData]                                                     *)
(* --------------------------------------------------------------------- *)

Section ValidationFacts.
Context {Data Value : Type}.
Variable joi_validate : Schema → Data → JoiResult Value.

(** C8.  For every validation type and every input, whatever Joi does
    (return a value, return an error, throw), [validateData] ends
    normally with a result record; the record says valid exactly when
    Joi accepted the data under a schema of the table, and when Joi
    reports a validation error the record is invalid and carries the
    messages of the error's details, in order. *)
Theorem validateData_never_throws (type : string) (data : Data) :
  ∃ result,
    validateData joi_validate type data = Normal result
    ∧ (isValid result = true ↔
         ∃ schema value,
           schemas type = OwnSchema schema
           ∧ joi_validate schema data = JoiReturns None value
           ∧ result = mkValidationResult true [] (VValue value))
    ∧ (∀ schema ds value,
         schemas type = OwnSchema schema →
         joi_validate schema data
         = JoiReturns (Some (mkJoiError (Some ds))) value →
         result = mkValidationResult false (message <$> ds) VNull).
Proof.
  unfold validateData.
  destruct (schemas type) as [schema| |] eqn:Hschema; simpl.
  - destruct (joi_validate schema data) as [msg|[[[ds|]]|] value] eqn:Hjoi;
      simpl; eexists; (split; [reflexivity|]); simpl; split.
    all: try (split; [discriminate|]).
    all: try (intros (schema' & value' & Hs & Hj & _); congruence).
    all: try (intros schema' ds' value' Hs Hj; congruence).
    split; [intros _; by exists schema, value|done].
  - eexists. split; [reflexivity|]. simpl.
    split; [split; [discriminate | intros (? & ? & ? & _); congruence]|].
    congruence.
  - eexists. split; [reflexivity|]. simpl.
    split; [split; [discriminate | intros (? & ? & ? & _); congruence]|].
    congruence.
Qed.
End ValidationFacts.

Lemma validateData_never_throws_witness :
  validateData toy_joi "intake" [("userType", JStr "student")]
  = Normal (mkValidationResult false ["topic is required"] VNull)
  ∧ validateData toy_joi "toString" [("topic", JStr "Drought")]
    = Normal (mkValidationResult false
                ["Validation failed: schema.validate is not a function"] VNull).
Proof.
  split.
  - destruct (validateData_never_throws toy_joi "intake"
                [("userType", JStr "student")]) as (result & -> & _ & Hfail).
    f_equal.
    exact (Hfail intakeSchema [mkDetail "topic is required" ["topic"]]
             [("userType", JStr "student")] eq_refl eq_refl).
  - destruct (validateData_never_throws toy_joi "toString"
                [("topic", JStr "Drought")]) as (result & Hrun & _).
    rewrite Hrun. vm_compute in Hrun. by injection Hrun as <-.
Defined.

(* --------------------------------------------------------------------- *)
(** ** Running monadic code                                               *)
(* --------------------------------------------------------------------- *)

Lemma bind_eq {A B : Type} (m : M A) (k : A → M B) (w : World) :
  bind m k w =
  match m w with
  | (Returned a, w') => k a w'
  | (Threw e, w') => (Threw e, w')
  | (Pending, w') => (Pending, w')
  end.
Proof. reflexivity. Qed.

Lemma bind_Returned {A B : Type} (m : M A) (k : A → M B) (w w' : World) (a : A) :
  m w = (Returned a, w') → bind m k w = k a w'.
Proof. intros Hm. by rewrite bind_eq, Hm. Qed.

Lemma try_catch_eq {A : Type} (body : M A) (handler : Error → M A) (w : World) :
  try_catch body handler w =
  match body w with
  | (Threw e, w') => handler e w'
  | settled => settled
  end.
Proof. reflexivity. Qed.

Lemma try_catch_Returned {A : Type} (body : M A) (handler : Error → M A)
    (w w' : World) (a : A) :
  body w = (Returned a, w') → try_catch body handler w = (Returned a, w').
Proof. intros Hm. by rewrite try_catch_eq, Hm. Qed.

(** Symbolic execution: unfold the combinators and the primitives that
    act on the world, then read the fields of the worlds built. *)
Ltac run :=
  cbv beta iota zeta delta
    [bind try_catch ret throw pending emit tick get_session modify_session
     alloc read_array push saveFeedback updateHistory deliverFiles];
  cbn [fst snd session heap log clock].

(** Reads the properties of sessions built by the setters. *)
Ltac fields :=
  cbn [messages isAggregating userType approvedSources pendingSources chatId
       studentId waitingForRevision waitingForComment currentTopic lastDraft
       set_messages set_isAggregating set_userType set_approvedSources
       set_pendingSources set_chatId set_studentId set_waitingForRevision
       set_waitingForComment set_currentTopic set_lastDraft].

Section TransportFacts.
Variable svc : Services.

(** A delivered reply: one more event, one more call. *)
Lemma reply_delivered (m : Msg) (w : World) :
  telegram_send svc (clock w) m = None →
  reply svc m w
  = (Returned (),
     mkWorld (session w) (heap w) (log w ++ [Replied m]) (S (clock w))).
Proof. intros Hsend. unfold reply. cbn. rewrite Hsend. reflexivity. Qed.

End TransportFacts.

(* --------------------------------------------------------------------- *)
(** ** The branches of the callback handler                               *)
(* --------------------------------------------------------------------- *)

Section Branches.
Variable svc : Services.
Variable budget : nat.
Variable chat : N.

Lemma callback_approve_source (rest : string) :
  on_callback_query svc budget chat ("approve_source_" +:+ rest)
  = callback_frame svc
      (source <- (λ w, (Returned (pending_at w (parseInt rest)), w)) ;;
       match source with
       | Some source =>
           s <- get_session ;;
           address <-
             match approvedSources s with
             | Some address => ret address
             | None =>
                 fresh <- alloc [] ;;
                 modify_session (set_approvedSources (Some fresh)) ;;
                 ret fresh
             end ;;
           push address source ;;
           reply svc (MsgSourceApproved (title source))
       | None => ret ()
       end)%js.
Proof. reflexivity. Qed.

Lemma callback_approve_all :
  on_callback_query svc budget chat "approve_all_sources"
  = callback_frame svc
      (s <- get_session ;;
       address <-
         match pendingSources s with
         | Some address => ret address
         | None => alloc []
         end ;;
       modify_session (set_approvedSources (Some address)) ;;
       approved <- read_array address ;;
       reply svc (MsgAllSourcesApproved (length approved)))%js.
Proof. reflexivity. Qed.

Lemma callback_cancel_sources :
  on_callback_query svc budget chat "cancel_sources"
  = callback_frame svc
      (fresh <- alloc [] ;;
       modify_session (set_pendingSources (Some fresh)) ;;
       reply svc MsgSourceSelectionCancelled)%js.
Proof. reflexivity. Qed.

Lemma callback_cancel :
  on_callback_query svc budget chat "cancel"
  = callback_frame svc
      (modify_session (λ _, empty_session) ;;
       reply svc MsgSessionCancelled)%js.
Proof. reflexivity. Qed.

Lemma callback_comment (draftId : string) :
  on_callback_query svc budget chat ("comment_" +:+ draftId)
  = callback_frame svc
      (modify_session (set_waitingForComment (JStr draftId)) ;;
       reply svc MsgShareFeedback)%js.
Proof. reflexivity. Qed.

Lemma callback_rate (rest : string) :
  on_callback_query svc budget chat ("rate_" +:+ rest)
  = callback_frame svc
      (let parts := "rate" :: str_split "_" rest in
       let draftId := parts !! 1 in
       let rating := parts !! 2 in
       saveFeedback chat (to_number <$> parseInt_opt rating) "" ;;
       reply svc (MsgThanksForRating rating) ;;
       match to_number <$> parseInt_opt rating with
       | Some n =>
           if (n <=? 3)%Z then
             modify_session
               (set_waitingForComment (from_option JStr JUndefined draftId)) ;;
             reply svc MsgWhatCanWeImprove
           else ret ()
       | None => ret ()
       end)%js.
Proof. reflexivity. Qed.

End Branches.

(* --------------------------------------------------------------------- *)
(** ** Source approval by a stale index                                   *)
(* --------------------------------------------------------------------- *)

(** An index past the end of the pending batch names no record. *)
Lemma pending_at_out_of_range (w : World) (n : nat) :
  length (pending_list w) ≤ n → pending_at w (Some (Z.of_nat n)) = None.
Proof.
  unfold pending_at, pending_list.
  destruct (pendingSources (session w)) as [address|]; [|done].
  intros Hlen. destruct (0 <=? Z.of_nat n)%Z; [|done].
  rewrite Nat2Z.id. by apply lookup_ge_None.
Qed.

(** Neither does a negative index, nor [NaN]. *)
Lemma pending_at_negative (w : World) (i : Z) :
  (i < 0)%Z → pending_at w (Some i) = None.
Proof.
  intros Hneg. unfold pending_at.
  destruct (pendingSources (session w)); [|done].
  by destruct (Z.leb_spec 0 i); [lia|].
Qed.

Lemma pending_at_NaN (w : World) : pending_at w None = None.
Proof. unfold pending_at. by destruct (pendingSources (session w)). Qed.

(** C6.  A source-approval callback whose index names no record of the
    current pending batch is a no-op: the handler returns normally, the
    session and the arrays are what they were, no service is called and no
    message is sent; the callback is only acknowledged. *)
Theorem stale_source_approval_is_ignored (svc : Services) (budget : nat)
    (chat : N) (rest : string) (w : World) :
  pending_at w (parseInt rest) = None →
  on_callback_query svc budget chat ("approve_source_" +:+ rest) w
  = (Returned (),
     mkWorld (session w) (heap w) (log w ++ [AnsweredCbQuery]) (clock w)).
Proof.
  intros Hstale. rewrite callback_approve_source. unfold callback_frame.
  run. rewrite Hstale. reflexivity.
Qed.

(** Scenario D: [approve_source_7] against three pending records. *)
Lemma stale_source_approval_is_ignored_witness :
  length (pending_list world_with_batch) = 3
  ∧ on_callback_query (dependable no_score) 0 42 "approve_source_7"
      world_with_batch
    = (Returned (),
       mkWorld (session world_with_batch) (heap world_with_batch)
         [AnsweredCbQuery] 0).
Proof.
  split; [reflexivity|].
  apply (stale_source_approval_is_ignored (dependable no_score) 0 42 "7"
           world_with_batch).
  apply (pending_at_out_of_range world_with_batch 7). simpl. lia.
Defined.

(* --------------------------------------------------------------------- *)
(** ** The [/cancel] command                                              *)
(* --------------------------------------------------------------------- *)

(** C3.  The [/cancel] command does not reach its handler:
    [bot.on('text')] is registered before [bot.command('cancel')] and does
    not call [next], so the message goes where every text goes.  Sent while
    a request is being collected it becomes one more fragment of the
    request, and nothing is reset; the handler of the command, had it been
    entered in that world, would have cleared the fragments and left the
    chat not aggregating. *)
Theorem cancel_command_is_read_as_text :
  let cancel := Text "/cancel" [mkEntity "bot_command" 0 7] in
  (∀ svc budget chat,
     handler svc budget chat cancel = on_text svc chat "/cancel")
  ∧ let collecting_drought :=
      run_updates (dependable no_score) 0 42 [Text "Drought" []] fresh_world in
    let w := step (dependable no_score) 0 42 collecting_drought cancel in
    let intended :=
      (command_cancel (dependable no_score) collecting_drought).2 in
    messages (session w) = Some ["Drought"; "/cancel"]
    ∧ isAggregating (session w) = Some true
    ∧ currentTopic (session w) = Some "Drought"
    ∧ ¬ cleared w
    ∧ messages (session intended) = Some []
    ∧ isAggregating (session intended) = Some false.
Proof.
  cbn zeta. split; [done|].
  split; [reflexivity|]. split; [reflexivity|]. split; [reflexivity|].
  split; [|split; reflexivity].
  intros (Haggregating & _). vm_compute in Haggregating. discriminate.
Qed.

(* --------------------------------------------------------------------- *)
(** ** The waiting markers                                                *)
(* --------------------------------------------------------------------- *)

Lemma str_split_lacks (c : ascii) (s : string) :
  lacks c s = true → str_split c s = [s].
Proof.
  induction s as [|x s IH]; [done|]. simpl.
  intros [Hx Hs]%andb_prop. apply negb_true_iff in Hx. rewrite Hx.
  by rewrite IH.
Qed.

Lemma str_split_app (c : ascii) (a b : string) :
  lacks c a = true →
  str_split c (a +:+ String c b) = a :: str_split c b.
Proof.
  induction a as [|x a IH].
  - intros _. rewrite string_app_nil_l. simpl. by rewrite Ascii.eqb_refl.
  - simpl. intros [Hx Ha]%andb_prop. apply negb_true_iff in Hx.
    rewrite ?string_app_cons. simpl. rewrite Hx. by rewrite IH.
Qed.


Section Markers.
Variable svc : Services.
Variable budget : nat.
Variable chat : N.

(** The [comment_<id>] button sets one property of the session and
    nothing else. *)
Lemma callback_comment_store (draftId : string) (w : World) :
  session (on_callback_query svc budget chat ("comment_" +:+ draftId) w).2
  = set_waitingForComment (JStr draftId) (session w)
  ∧ heap (on_callback_query svc budget chat ("comment_" +:+ draftId) w).2
    = heap w.
Proof.
  rewrite callback_comment. unfold callback_frame, reply. run.
  destruct (telegram_send _ _ _); run; [|done].
  by destruct (telegram_send _ _ _).
Qed.



End Markers.

(* --------------------------------------------------------------------- *)
(** ** Ratings and comments                                               *)
(* --------------------------------------------------------------------- *)

Section Ratings.
Variable svc : Services.
Variable budget : nat.
Variable chat : N.
Hypothesis delivers : transport_delivers svc.

(** The pieces of a [rate_<id>_<n>] tag whose identifier and rating hold no
    underscore. *)
Lemma split_rate_tag (draftId rating : string) :
  lacks "_" draftId = true → lacks "_" rating = true →
  str_split "_" (draftId +:+ "_" +:+ rating) = [draftId; rating].
Proof.
  intros Hid Hrating.
  change ("_" +:+ rating) with (String "_" rating).
  by rewrite str_split_app, str_split_lacks.
Qed.

(** The rating callback, run to the end. *)
Lemma callback_rate_run (draftId rating : string) (n : Z) (w : World) :
  lacks "_" draftId = true → lacks "_" rating = true →
  parseInt rating = Some n →
  on_callback_query svc budget chat ("rate_" +:+ draftId +:+ "_" +:+ rating) w
  = (Returned (),
     if (to_number n <=? 3)%Z then
       mkWorld (set_waitingForComment (JStr draftId) (session w)) (heap w)
         (log w ++ [FeedbackSaved chat (Some (to_number n)) "";
                    Replied (MsgThanksForRating (Some rating));
                    Replied MsgWhatCanWeImprove;
                    AnsweredCbQuery])
         (S (S (clock w)))
     else
       mkWorld (session w) (heap w)
         (log w ++ [FeedbackSaved chat (Some (to_number n)) "";
                    Replied (MsgThanksForRating (Some rating));
                    AnsweredCbQuery])
         (S (clock w))).
Proof.
  intros Hid Hrating Hparse. rewrite callback_rate.
  rewrite split_rate_tag by done.
  unfold callback_frame, reply. cbn [lookup list_lookup parseInt_opt].
  rewrite Hparse. cbn [fmap option_fmap option_map]. run.
  rewrite !delivers. run.
  destruct (to_number n <=? 3)%Z; run.
  - rewrite delivers. run. by rewrite <- !app_assoc.
  - by rewrite <- !app_assoc.
Qed.


End Ratings.

(* --------------------------------------------------------------------- *)
(** ** Source approval                                                    *)
(* --------------------------------------------------------------------- *)

Lemma deref_push_same (h : list (list Source)) (a : nat) (x : Source) :
  a < length h →
  deref (alter (λ arr, arr ++ [x]) a h) a = deref h a ++ [x].
Proof.
  intros Hvalid. unfold deref. rewrite list_lookup_alter_eq.
  destruct (lookup_lt_is_Some_2 h a Hvalid) as [arr ->]. reflexivity.
Qed.

Lemma deref_push_other (h : list (list Source)) (a b : nat) (x : Source) :
  a ≠ b → deref (alter (λ arr, arr ++ [x]) a h) b = deref h b.
Proof. intros Hne. unfold deref. by rewrite list_lookup_alter_ne. Qed.

Lemma deref_fresh (h : list (list Source)) (arr : list Source) :
  deref (h ++ [arr]) (length h) = arr.
Proof. unfold deref. by rewrite list_lookup_middle. Qed.

Lemma deref_old (h : list (list Source)) (arr : list Source) (a : nat) :
  a < length h → deref (h ++ [arr]) a = deref h a.
Proof. intros Hvalid. unfold deref. by rewrite lookup_app_l. Qed.

Lemma pending_at_elem (w : World) (index : option Z) (x : Source) :
  pending_at w index = Some x → x ∈ pending_list w.
Proof.
  unfold pending_at, pending_list.
  destruct (pendingSources (session w)) as [address|]; [|done].
  destruct index as [i|]; [|done].
  destruct (0 <=? i)%Z; [|done]. apply list_elem_of_lookup_2.
Qed.

Section Approval.
Variable svc : Services.
Variable budget : nat.
Variable chat : N.

(** The session middleware never throws; it leaves the pending batch
    alone and makes sure that [approvedSources] is an array. *)
Lemma middleware_run (w : World) :
  ∃ w', middleware chat w = (Returned (), w')
        ∧ pendingSources (session w') = pendingSources (session w)
        ∧ waitingForRevision (session w') = waitingForRevision (session w)
        ∧ waitingForComment (session w') = waitingForComment (session w)
        ∧ lastDraft (session w') = lastDraft (session w)
        ∧ match approvedSources (session w) with
          | Some address =>
              approvedSources (session w') = Some address
              ∧ heap w' = heap w
          | None =>
              approvedSources (session w') = Some (length (heap w))
              ∧ heap w' = heap w ++ [[]]
          end.
Proof.
  unfold middleware. run. fields.
  destruct (approvedSources (session w)) as [address|] eqn:Happroved;
    run; eexists; (split; [reflexivity|]); cbn; by rewrite ?Happroved.
Qed.

(** The session and the arrays after [approve_source_<index>]. *)
Lemma callback_approve_source_store (rest : string) (w : World) :
  let w' := (on_callback_query svc budget chat ("approve_source_" +:+ rest) w).2 in
  match pending_at w (parseInt rest) with
  | None => session w' = session w ∧ heap w' = heap w
  | Some x =>
      match approvedSources (session w) with
      | Some address =>
          session w' = session w
          ∧ heap w' = alter (λ arr, arr ++ [x]) address (heap w)
      | None =>
          session w' = set_approvedSources (Some (length (heap w))) (session w)
          ∧ heap w' = alter (λ arr, arr ++ [x]) (length (heap w))
                        (heap w ++ [[]])
      end
  end.
Proof.
  rewrite callback_approve_source. unfold callback_frame, reply. run.
  destruct (pending_at w (parseInt rest)) as [x|]; run; [|done].
  destruct (approvedSources (session w)) as [address|]; run.
  - destruct (telegram_send _ _ _); run; [|done].
    by destruct (telegram_send _ _ _).
  - destruct (telegram_send _ _ _); run; [|done].
    by destruct (telegram_send _ _ _).
Qed.

(** The session and the arrays after [approve_all_sources]. *)
Lemma callback_approve_all_store (w : World) :
  let w' := (on_callback_query svc budget chat "approve_all_sources" w).2 in
  match pendingSources (session w) with
  | Some address =>
      session w' = set_approvedSources (Some address) (session w)
      ∧ heap w' = heap w
  | None =>
      session w' = set_approvedSources (Some (length (heap w))) (session w)
      ∧ heap w' = heap w ++ [[]]
  end.
Proof.
  rewrite callback_approve_all. unfold callback_frame, reply. run.
  destruct (pendingSources (session w)) as [address|]; run.
  - destruct (telegram_send _ _ _); run; [|done].
    by destruct (telegram_send _ _ _).
  - destruct (telegram_send _ _ _); run; [|done].
    by destruct (telegram_send _ _ _).
Qed.

(** The session and the arrays after [cancel_sources]. *)
Lemma callback_cancel_sources_store (w : World) :
  let w' := (on_callback_query svc budget chat "cancel_sources" w).2 in
  session w' = set_pendingSources (Some (length (heap w))) (session w)
  ∧ heap w' = heap w ++ [[]].
Proof.
  rewrite callback_cancel_sources. unfold callback_frame, reply. run.
  destruct (telegram_send _ _ _); run; [|done].
  by destruct (telegram_send _ _ _).
Qed.

(** An update changes the session and the arrays as its handler does,
    run after the middleware; [bot.catch] only logs and replies. *)
Lemma handle_update_store (u : Update) (w : World) :
  ∃ w1, middleware chat w = (Returned (), w1)
        ∧ session (handle_update svc budget chat u w).2
          = session (handler svc budget chat u w1).2
        ∧ heap (handle_update svc budget chat u w).2
          = heap (handler svc budget chat u w1).2.
Proof.
  destruct (middleware_run w) as (w1 & Hrun & _).
  exists w1. split; [done|].
  unfold handle_update. rewrite try_catch_eq, bind_eq, Hrun.
  destruct (handler svc budget chat u w1) as [[[]|e|] w2]; [done| |done].
  unfold reply_nowait. run. by destruct (telegram_send _ _ _).
Qed.

End Approval.

Section ApprovalInvariant.
Variable svc : Services.
Variable budget : nat.
Variable chat : N.

Lemma middleware_views (w w1 : World) :
  middleware chat w = (Returned (), w1) → well_formed w →
  well_formed w1
  ∧ approved_list w1 = approved_list w
  ∧ pending_list w1 = pending_list w.
Proof.
  intros Hrun [Happroved Hpending].
  destruct (middleware_run chat w) as (w' & Hrun' & Hp & _ & _ & _ & Hcases).
  rewrite Hrun in Hrun'. injection Hrun' as <-.
  unfold well_formed, approved_list, pending_list. rewrite Hp.
  destruct (approvedSources (session w)) as [a|] eqn:Ha;
    destruct Hcases as [-> ->].
  - repeat split; [by intros ? [= <-]; apply Happroved | done].
  - rewrite length_app. simpl. repeat split.
    + intros ? [= <-]. lia.
    + intros p Hp'. specialize (Hpending p Hp'). lia.
    + apply deref_fresh.
    + destruct (pendingSources (session w)) as [p|]; [|done].
      apply deref_old. by apply Hpending.
Qed.

(** What one approval callback does to the two lists: the approved records
    come from the approved and the pending ones, the pending batch gets no
    new member, and it loses none unless the selection is cancelled. *)
Lemma approval_views (e : ApprovalEvent) (w : World) :
  well_formed w →
  let w' := (on_callback_query svc budget chat (approval_tag e) w).2 in
  well_formed w'
  ∧ approved_list w' ⊆ approved_list w ++ pending_list w
  ∧ pending_list w' ⊆ pending_list w
  ∧ (is_cancel e = false → pending_list w ⊆ pending_list w').
Proof.
  intros [Happroved Hpending]. destruct e as [index| |]; cbn zeta;
    cbn [approval_tag is_cancel].
  - (* approve_source_<index> *)
    pose proof (callback_approve_source_store svc budget chat index w) as Hstore.
    pose proof (pending_at_elem w (parseInt index)) as Helem.
    cbn zeta in Hstore.
    destruct (pending_at w (parseInt index)) as [x|].
    2:{ destruct Hstore as [Hs Hh]. unfold well_formed, approved_list,
          pending_list. rewrite Hs, Hh. repeat split; try done.
        intros y Hy. apply elem_of_app. by left. }
    specialize (Helem x eq_refl). unfold pending_list in Helem.
    destruct (pendingSources (session w)) as [p|] eqn:Hp;
      [|by apply elem_of_nil in Helem].
    specialize (Hpending p eq_refl).
    unfold well_formed, approved_list, pending_list.
    destruct (approvedSources (session w)) as [a|] eqn:Ha;
      destruct Hstore as [-> ->]; fields; rewrite ?Ha, ?Hp.
    + specialize (Happroved a eq_refl). rewrite length_alter.
      rewrite deref_push_same by done.
      split; [split; by intros ? [= <-]|].
      split; [intros y [Hy| ->%list_elem_of_singleton]%elem_of_app;
              apply elem_of_app; [by left | by right]|].
      destruct (decide (a = p)) as [->|Hne].
      * rewrite deref_push_same by done.
        split; [|by intros _ y Hy; apply elem_of_app; left].
        by intros y [Hy| ->%list_elem_of_singleton]%elem_of_app.
      * by rewrite deref_push_other.
    + rewrite length_alter, length_app. simpl.
      rewrite deref_push_same by (rewrite length_app; simpl; lia).
      rewrite deref_fresh, deref_push_other by lia.
      rewrite deref_old by done.
      split; [split; intros ? [= <-]; lia|].
      split; [|done].
      intros y ->%list_elem_of_singleton.
      first [exact Helem | apply elem_of_app; by right].
  - (* approve_all_sources *)
    pose proof (callback_approve_all_store svc budget chat w) as Hstore.
    cbn zeta in Hstore. unfold well_formed, approved_list, pending_list.
    destruct (pendingSources (session w)) as [p|] eqn:Hp;
      destruct Hstore as [-> ->]; fields; rewrite ?Hp.
    + specialize (Hpending p eq_refl).
      split; [split; by intros ? [= <-]|].
      split; [|done]. intros y Hy. by apply elem_of_app; right.
    + rewrite length_app, deref_fresh. simpl.
      split; [split; [intros ? [= <-]; lia | done]|].
      split; [apply list_subseteq_nil | done].
  - (* cancel_sources *)
    pose proof (callback_cancel_sources_store svc budget chat w) as [Hs Hh].
    unfold well_formed, approved_list, pending_list. rewrite Hs, Hh. fields.
    rewrite length_app, deref_fresh. simpl.
    split; [split; [|intros ? [= <-]; lia]|].
    + intros a Ha. specialize (Happroved a Ha). lia.
    + split; [|split; [apply list_subseteq_nil | discriminate]].
      destruct (approvedSources (session w)) as [a|] eqn:Ha;
        [|apply list_subseteq_nil].
      rewrite deref_old by by apply Happroved.
      intros y Hy. by apply elem_of_app; left.
Qed.

(** The same for a whole update: middleware, handler, [bot.catch]. *)
Lemma step_approval_views (e : ApprovalEvent) (w : World) :
  well_formed w →
  let w' := step svc budget chat w (approval_update e) in
  well_formed w'
  ∧ approved_list w' ⊆ approved_list w ++ pending_list w
  ∧ pending_list w' ⊆ pending_list w
  ∧ (is_cancel e = false → pending_list w ⊆ pending_list w').
Proof.
  intros Hwf. cbn zeta. unfold step.
  destruct (handle_update_store svc budget chat (approval_update e) w)
    as (w1 & Hrun & Hs & Hh).
  destruct (middleware_views w w1 Hrun Hwf) as (Hwf1 & Ha1 & Hp1).
  pose proof (approval_views e w1 Hwf1) as Hviews. cbn zeta in Hviews.
  cbn [approval_update handler] in Hs, Hh.
  unfold well_formed, approved_list, pending_list in *.
  rewrite Hs, Hh. by rewrite <- Ha1, <- Hp1.
Qed.

End ApprovalInvariant.

Section ApprovalSequences.
Variable svc : Services.
Variable budget : nat.
Variable chat : N.

Lemma run_approval_within (batch : list Source) (events : list ApprovalEvent) :
  ∀ w, within batch w →
       within batch
         (run_updates svc budget chat (approval_update <$> events) w).
Proof.
  induction events as [|e events IH]; intros w Hw; [done|].
  simpl. apply IH. destruct Hw as (Hwf & Ha & Hp).
  destruct (step_approval_views svc budget chat e w Hwf)
    as (Hwf' & Ha' & Hp' & _).
  split; [done|]. split.
  - intros y [Hy|Hy]%Ha'%elem_of_app; [by apply Ha | by apply Hp].
  - intros y Hy%Hp'. by apply Hp.
Qed.

Lemma run_approval_in_pending (events : list ApprovalEvent) :
  forallb (λ e, negb (is_cancel e)) events = true →
  ∀ w, approved_in_pending w →
       approved_in_pending
         (run_updates svc budget chat (approval_update <$> events) w).
Proof.
  induction events as [|e events IH]; intros Hevents w Hw; [done|].
  simpl in Hevents. apply andb_prop in Hevents as [He Hevents].
  apply negb_true_iff in He.
  simpl. apply IH; [done|]. destruct Hw as (Hwf & Ha).
  destruct (step_approval_views svc budget chat e w Hwf)
    as (Hwf' & Ha' & _ & Hp').
  split; [done|].
  intros y [Hy|Hy]%Ha'%elem_of_app; apply (Hp' He); [by apply Ha | done].
Qed.

End ApprovalSequences.

(* --------------------------------------------------------------------- *)
(** ** Runs that differ in console lines only                             *)
(* --------------------------------------------------------------------- *)

Lemma off_console_app (l1 l2 : list Event) :
  off_console (l1 ++ l2) = off_console l1 ++ off_console l2.
Proof. unfold off_console. apply List.filter_app. Qed.

Lemma sim_ret {A : Type} (a : A) : sim (ret a) (ret a).
Proof. by intros w1 w2 Hw. Qed.

Lemma sim_throw {A : Type} (e : Error) : sim (throw (A := A) e) (throw e).
Proof. by intros w1 w2 Hw. Qed.

Lemma sim_pending {A : Type} : sim (pending (A := A)) pending.
Proof. by intros w1 w2 Hw. Qed.

Lemma sim_bind {A B : Type} (m1 m2 : M A) (k1 k2 : A → M B) :
  sim m1 m2 → (∀ a, sim (k1 a) (k2 a)) → sim (bind m1 k1) (bind m2 k2).
Proof.
  intros Hm Hk w1 w2 Hw. rewrite !bind_eq.
  destruct (Hm w1 w2 Hw) as [Hout Hw'].
  destruct (m1 w1) as [[a1|e1|] w1'], (m2 w2) as [[a2|e2|] w2'];
    simpl in *; try discriminate.
  - injection Hout as ->. by apply Hk.
  - injection Hout as ->. by split.
  - by split.
Qed.

Lemma sim_try_catch {A : Type} (b1 b2 : M A) (h1 h2 : Error → M A) :
  sim b1 b2 → (∀ e, sim (h1 e) (h2 e)) →
  sim (try_catch b1 h1) (try_catch b2 h2).
Proof.
  intros Hb Hh w1 w2 Hw. rewrite !try_catch_eq.
  destruct (Hb w1 w2 Hw) as [Hout Hw'].
  destruct (b1 w1) as [[a1|e1|] w1'], (b2 w2) as [[a2|e2|] w2'];
    simpl in *; try discriminate.
  - by split.
  - injection Hout as ->. by apply Hh.
  - by split.
Qed.

Ltac open_worlds :=
  unfold same_but_console in *;
  cbn [emit tick get_session modify_session now fst snd
       session heap log clock] in *.

Lemma sim_emit (ev : Event) : sim (emit ev) (emit ev).
Proof.
  intros [s1 h1 l1 c1] [s2 h2 l2 c2] (Hs & Hh & Hc & Hl). open_worlds.
  repeat split; try done. by rewrite !off_console_app, Hl.
Qed.

Lemma sim_tick : sim tick tick.
Proof.
  intros [s1 h1 l1 c1] [s2 h2 l2 c2] (Hs & Hh & Hc & Hl). open_worlds.
  subst. by repeat split.
Qed.

Lemma sim_get_session : sim get_session get_session.
Proof.
  intros [s1 h1 l1 c1] [s2 h2 l2 c2] (Hs & Hh & Hc & Hl). open_worlds.
  subst. by repeat split.
Qed.

Lemma sim_modify_session (f : Session → Session) :
  sim (modify_session f) (modify_session f).
Proof.
  intros [s1 h1 l1 c1] [s2 h2 l2 c2] (Hs & Hh & Hc & Hl). open_worlds.
  subst. by repeat split.
Qed.

(** Reads the oracles of [with_checker svc c] as oracles of [svc]. *)
Ltac oracles :=
  cbn [with_checker ADMIN_CHAT_ID telegram_send groq_draft groq_revision
       zotero_bib eden_plagiarism fs_writeFile drive_upload admin_post
       source_pipeline date_now].

(** One step of a proof that two runs of the same code are alike. *)
Ltac sim_step :=
  first
    [ apply sim_ret | apply sim_throw | apply sim_pending | apply sim_emit
    | apply sim_tick | apply sim_get_session | apply sim_modify_session
    | apply sim_bind; [|intros ?]
    | apply sim_try_catch; [|intros ?]
    | progress oracles
    | case_match ].

Section Simulation.
Variable svc : Services.
Variables cf cz : nat → string → Http (option Q).
Hypothesis fails : check_fails cf.
Hypothesis perfect : check_perfect cz.

Lemma sim_reply (m : Msg) :
  sim (reply (with_checker svc cf) m) (reply (with_checker svc cz) m).
Proof. unfold reply. repeat sim_step. Qed.

Lemma sim_now :
  sim (now (with_checker svc cf)) (now (with_checker svc cz)).
Proof.
  intros [s1 h1 l1 c1] [s2 h2 l2 c2] (Hs & Hh & Hc & Hl). open_worlds.
  subst. by repeat split.
Qed.

Lemma sim_writeFile (path content : string) :
  sim (writeFile (with_checker svc cf) path content)
    (writeFile (with_checker svc cz) path content).
Proof. unfold writeFile. repeat sim_step. Qed.

Lemma sim_generateDraft (topic : string) (sources : list Source)
    (format : string) (length : N) :
  sim (generateDraft (with_checker svc cf) topic sources format length)
    (generateDraft (with_checker svc cz) topic sources format length).
Proof. unfold generateDraft. repeat sim_step. Qed.

Lemma sim_formatCitations_loop (sources : list Source) (format : string) :
  ∀ bibliography,
    sim (formatCitations_loop (with_checker svc cf) sources format bibliography)
      (formatCitations_loop (with_checker svc cz) sources format bibliography).
Proof.
  induction sources as [|source rest IH]; intros bibliography; simpl.
  - apply sim_ret.
  - destruct (truthy (zoteroKey source)); [|apply IH].
    apply sim_bind; [|intros ?; apply IH]. repeat sim_step.
Qed.

(** The heart of the matter: a check that fails and a check that reports
    0 both hand 0 to the caller; the failed one leaves a console line. *)
Lemma sim_checkPlagiarism (content : string) :
  sim (checkPlagiarism (with_checker svc cf) content)
    (checkPlagiarism (with_checker svc cz) content).
Proof.
  intros [s1 h1 l1 c1] [s2 h2 l2 c2] (Hs & Hh & Hc & Hl). open_worlds.
  subst. unfold checkPlagiarism. generalize (slice content 0 5000) as text.
  intros text. run. oracles. rewrite perfect.
  destruct (fails c2 text) as [[e ->]| ->]; run;
    repeat split; try done;
    rewrite !off_console_app, Hl; cbn [off_console List.filter is_console negb];
    by rewrite ?app_nil_r.
Qed.

Lemma sim_createWordDocument (content bibliography topic : string) :
  sim (createWordDocument (with_checker svc cf) content bibliography topic)
    (createWordDocument (with_checker svc cz) content bibliography topic).
Proof.
  unfold createWordDocument. cbn zeta.
  apply sim_try_catch; [|intros ?].
  - apply sim_bind; [apply sim_now|intros ?].
    apply sim_bind; [apply sim_writeFile|intros ?]. apply sim_ret.
  - apply sim_bind; [apply sim_emit|intros ?].
    apply sim_bind; [apply sim_now|intros ?].
    apply sim_bind; [apply sim_writeFile|intros ?]. apply sim_ret.
Qed.

Lemma sim_uploadToGoogleDrive (filepath filename : string)
    (studentId : option string) :
  sim (uploadToGoogleDrive (with_checker svc cf) filepath filename studentId)
    (uploadToGoogleDrive (with_checker svc cz) filepath filename studentId).
Proof. unfold uploadToGoogleDrive. repeat sim_step. Qed.

Lemma sim_send_previews (chunks : list string) :
  ∀ i, sim (send_previews (with_checker svc cf) i chunks)
         (send_previews (with_checker svc cz) i chunks).
Proof.
  induction chunks as [|chunk rest IH]; intros i; simpl.
  - apply sim_ret.
  - apply sim_bind; [apply sim_reply | intros ?; apply IH].
Qed.

Lemma sim_processDraft_try (topic : string) (sources : list Source)
    (format : string) (length : N) :
  sim (processDraft_try (with_checker svc cf) topic sources format length)
    (processDraft_try (with_checker svc cz) topic sources format length).
Proof.
  unfold processDraft_try.
  apply sim_bind; [apply sim_reply | intros _].
  apply sim_bind; [apply sim_generateDraft | intros content].
  apply sim_bind; [apply sim_reply | intros _].
  apply sim_bind; [apply sim_formatCitations_loop | intros bibliography].
  apply sim_bind; [apply sim_reply | intros _].
  apply sim_bind; [apply sim_checkPlagiarism | intros plagiarismScore].
  destruct (Qgt_bool plagiarismScore PLAGIARISM_THRESHOLD).
  - apply sim_bind; [apply sim_reply | intros _]. apply sim_ret.
  - apply sim_bind; [apply sim_reply | intros _].
    apply sim_bind; [apply sim_createWordDocument | intros [filename filepath]].
    apply sim_bind; [apply sim_get_session | intros s].
    apply sim_bind; [apply sim_uploadToGoogleDrive | intros driveLink].
    apply sim_bind; [apply sim_reply | intros _].
    apply sim_bind; [apply sim_reply | intros _].
    destruct (chunkContent_default (slice content 0 8000)); [|apply sim_pending].
    apply sim_bind; [apply sim_send_previews | intros _].
    apply sim_bind; [apply sim_modify_session | intros _]. apply sim_ret.
Qed.

Lemma sim_processDraft_catch {A : Type} (topic : string) (error : Error) :
  sim (processDraft_catch (A := A) (with_checker svc cf) topic error)
    (processDraft_catch (with_checker svc cz) topic error).
Proof.
  unfold processDraft_catch.
  apply sim_bind; [apply sim_emit | intros _].
  apply sim_bind; [apply sim_reply | intros _].
  apply sim_bind; [|intros _; apply sim_throw].
  oracles. destruct (env_set (ADMIN_CHAT_ID svc)); [|apply sim_ret].
  repeat sim_step.
Qed.

(** The whole pipeline with a failing check and with a perfect score:
    alike, for every budget. *)
Lemma sim_processDraft (budget : nat) (sources : list Source)
    (format : string) (length : N) :
  ∀ topic,
    sim (processDraft (with_checker svc cf) budget topic sources format length)
      (processDraft (with_checker svc cz) budget topic sources format length).
Proof.
  induction budget as [|budget IH]; intros topic; simpl; [apply sim_pending|].
  apply sim_bind.
  - apply sim_try_catch; [apply sim_processDraft_try|].
    intros e. apply sim_processDraft_catch.
  - intros [|r]; [apply IH | apply sim_ret].
Qed.

End Simulation.

(* --------------------------------------------------------------------- *)
(** ** The quality gate of [processDraft]                                 *)
(* --------------------------------------------------------------------- *)

(** A score above the threshold is not 0, so [score || 0] is the score. *)
Lemma score_or_zero_above (q : Q) :
  Qgt_bool q PLAGIARISM_THRESHOLD = true → score_or_zero (Some q) = q.
Proof.
  unfold Qgt_bool, score_or_zero. intros Habove.
  destruct (Qeq_bool q 0) eqn:Hzero; [|done].
  apply Qeq_bool_iff in Hzero. apply negb_true_iff in Habove.
  assert (Qle_bool q PLAGIARISM_THRESHOLD = true) as Hle; [|congruence].
  apply Qle_bool_iff. rewrite Hzero. by apply Qle_bool_iff.
Qed.

Section Gate.
Variable svc : Services.

(** [checkPlagiarism] when the provider answers. *)
Lemma checkPlagiarism_answer (content : string) (score : option Q) (w : World) :
  eden_plagiarism svc (clock w) (slice content 0 5000) = HttpOk score →
  checkPlagiarism svc content w
  = (Returned (score_or_zero score),
     mkWorld (session w) (heap w)
       (log w ++ [PlagiarismRequested (slice content 0 5000)])
       (S (clock w))).
Proof.
  intros Heden. unfold checkPlagiarism. run. by rewrite Heden.
Qed.

(** [checkPlagiarism] when the request fails: the error goes to the console
    and the caller gets 0. *)
Lemma checkPlagiarism_failure (content : string) (e : Error) (w : World) :
  eden_plagiarism svc (clock w) (slice content 0 5000) = HttpFail e →
  checkPlagiarism svc content w
  = (Returned 0%Q,
     mkWorld (session w) (heap w)
       (log w ++ [PlagiarismRequested (slice content 0 5000);
                  ConsoleError "Plagiarism check error:" e])
       (S (clock w))).
Proof.
  intros Heden. unfold checkPlagiarism. run. rewrite Heden. run.
  by rewrite <- !app_assoc.
Qed.

(** The [catch] block of [processDraft] always rethrows. *)
Lemma processDraft_catch_throws {A : Type} (topic : string) (error : Error)
    (w : World) :
  ∃ e w', processDraft_catch (A := A) svc topic error w = (Threw e, w').
Proof.
  unfold processDraft_catch, reply. run.
  destruct (telegram_send _ _ _); run; [eauto|].
  destruct (env_set (ADMIN_CHAT_ID svc)); run; [|eauto].
  destruct (admin_post _ _ _); run; eauto.
Qed.

(** One activation under a checker that is always above the threshold:
    the [try] block never gets to a finished draft. *)
Lemma attempt_above_never_done (topic : string) (sources : list Source)
    (format : string) (length : N) (w : World) :
  checker_always_above svc →
  ∀ r, (processDraft_try svc topic sources format length w).1
       ≠ Returned (Done r).
Proof.
  intros Habove r. unfold processDraft_try.
  rewrite bind_eq.
  destruct (reply svc MsgGenerating w) as [[[]|?|] w1]; [|done..].
  rewrite bind_eq.
  destruct (generateDraft svc topic sources format length w1)
    as [[content|?|] w2]; [|done..].
  rewrite bind_eq.
  destruct (reply svc MsgDraftGenerated w2) as [[[]|?|] w3]; [|done..].
  rewrite bind_eq.
  destruct (formatCitations svc sources format w3)
    as [[bibliography|?|] w4]; [|done..].
  rewrite bind_eq.
  destruct (reply svc MsgCitationsFormatted w4) as [[[]|?|] w5]; [|done..].
  rewrite bind_eq.
  destruct (Habove (clock w5) (slice content 0 5000)) as (q & Heden & Hq).
  rewrite (checkPlagiarism_answer _ _ _ Heden).
  rewrite (score_or_zero_above q Hq), Hq.
  rewrite bind_eq.
  by destruct (reply svc (MsgRewriting q) _) as [[[]|?|] w6].
Qed.

(** Under such a checker [processDraft] never returns: every activation
    ends in an error or in the next activation. *)
Lemma processDraft_above_never_returns (budget : nat) (sources : list Source)
    (format : string) (length : N) :
  checker_always_above svc →
  ∀ topic w r,
    (processDraft svc budget topic sources format length w).1 ≠ Returned r.
Proof.
  intros Habove. induction budget as [|budget IH]; intros topic w r; [done|].
  simpl. rewrite bind_eq, try_catch_eq.
  pose proof (attempt_above_never_done topic sources format length w Habove)
    as Hnever.
  destruct (processDraft_try svc topic sources format length w)
    as [[[|done]|e|] w1]; simpl in Hnever.
  - apply IH.
  - by destruct (Hnever done).
  - by destruct (processDraft_catch_throws (A := Attempt) topic e w1)
      as (e' & w2 & ->).
  - done.
Qed.

End Gate.

(* --------------------------------------------------------------------- *)
(** ** The pipeline when the services it needs succeed                    *)
(* --------------------------------------------------------------------- *)

Lemma quiet_step_refl (w : World) : quiet_step w w.
Proof. repeat split. exists []. by rewrite app_nil_r. Qed.

Lemma quiet_step_trans (w1 w2 w3 : World) :
  quiet_step w1 w2 → quiet_step w2 w3 → quiet_step w1 w3.
Proof.
  intros (Hs1 & Hh1 & evs1 & Hl1 & Hq1) (Hs2 & Hh2 & evs2 & Hl2 & Hq2).
  split; [congruence|]. split; [congruence|].
  exists (evs1 ++ evs2). split; [by rewrite Hl2, Hl1, app_assoc|].
  by rewrite forallb_app, Hq1, Hq2.
Qed.

(** Appending events that are no alarms is a quiet step. *)
Lemma quiet_step_extend (w : World) (evs : list Event) (c : nat) :
  forallb (λ ev, negb (is_alarm ev)) evs = true →
  quiet_step w (mkWorld (session w) (heap w) (log w ++ evs) c).
Proof. intros Hevs. repeat split. by exists evs. Qed.

Lemma regenerations_app (l1 l2 : list Event) :
  regenerations (l1 ++ l2) = regenerations l1 + regenerations l2.
Proof. unfold regenerations. by rewrite List.filter_app, length_app. Qed.

Lemma regenerations_harmless (evs : list Event) :
  forallb (λ ev, negb (is_alarm ev)) evs = true → regenerations evs = 0.
Proof.
  unfold regenerations. induction evs as [|ev evs IH]; [done|]. simpl.
  intros [Hev Hevs]%andb_prop.
  destruct ev as [[]| | | | | | | | | | | | | | |]; try discriminate; by apply IH.
Qed.

Lemma regenerations_quiet (w w' : World) :
  quiet_step w w' → regenerations (log w') = regenerations (log w).
Proof.
  intros (_ & _ & evs & -> & Hevs).
  rewrite regenerations_app, (regenerations_harmless evs Hevs). lia.
Qed.

Section Dependable.
Variable svc : Services.
Hypothesis delivers : transport_delivers svc.

Lemma reply_quiet (m : Msg) (w : World) :
  is_alarm (Replied m) = false →
  ∃ w', reply svc m w = (Returned (), w') ∧ quiet_step w w'.
Proof.
  intros Hm. eexists. split; [by apply reply_delivered|].
  apply quiet_step_extend. cbn [forallb]. by rewrite Hm.
Qed.

Lemma generateDraft_quiet (topic : string) (sources : list Source)
    (format : string) (length : N) (w : World) :
  (∀ t topic sources format length,
     ∃ content, groq_draft svc t topic sources format length = HttpOk content) →
  ∃ content w',
    generateDraft svc topic sources format length w = (Returned content, w')
    ∧ quiet_step w w'.
Proof.
  intros Hgroq.
  destruct (Hgroq (clock w) topic sources format length) as [content Hcontent].
  exists content. unfold generateDraft. run. rewrite Hcontent. run.
  eexists. split; [reflexivity|]. by apply quiet_step_extend.
Qed.

(** Formatting the citations never fails: a citation that Zotero does not
    format is written by hand. *)
Lemma formatCitations_quiet (sources : list Source) (format : string) :
  ∀ bibliography w,
    ∃ bibliography' w',
      formatCitations_loop svc sources format bibliography w
      = (Returned bibliography', w')
      ∧ quiet_step w w'.
Proof.
  induction sources as [|source rest IH]; intros bibliography w; simpl.
  - exists bibliography, w. split; [done | apply quiet_step_refl].
  - destruct (truthy (zoteroKey source)); [|apply IH].
    rewrite bind_eq. run.
    destruct (zotero_bib svc (clock w) (zoteroKey source) format); run.
    + edestruct IH as (b' & w' & -> & Hquiet). exists b', w'.
      split; [done|]. eapply quiet_step_trans; [|exact Hquiet].
      rewrite <- ?app_assoc. by apply quiet_step_extend.
    + edestruct IH as (b' & w' & -> & Hquiet). exists b', w'.
      split; [done|]. eapply quiet_step_trans; [|exact Hquiet].
      rewrite <- ?app_assoc. by apply quiet_step_extend.
Qed.

Lemma createWordDocument_written (content bibliography topic : string)
    (w : World) :
  (∀ t path text, fs_writeFile svc t path text = None) →
  ∃ filename filepath text c,
    createWordDocument svc content bibliography topic w
    = (Returned (filename, filepath),
       mkWorld (session w) (heap w) (log w ++ [FileWritten filepath text]) c).
Proof.
  intros Hfs. unfold createWordDocument, writeFile, now. run.
  rewrite Hfs. run. by eexists _, _, _, _.
Qed.

Lemma uploadToGoogleDrive_quiet (filepath filename : string)
    (studentId : option string) (w : World) :
  ∃ driveLink w',
    uploadToGoogleDrive svc filepath filename studentId w
    = (Returned driveLink, w')
    ∧ quiet_step w w'.
Proof.
  unfold uploadToGoogleDrive. run.
  destruct (drive_upload _ _ _); run; eexists _, _;
    (split; [reflexivity|]); rewrite <- ?app_assoc;
    by apply quiet_step_extend.
Qed.

Lemma send_previews_quiet (chunks : list string) :
  ∀ i w, ∃ w', send_previews svc i chunks w = (Returned (), w')
               ∧ quiet_step w w'.
Proof.
  induction chunks as [|chunk rest IH]; intros i w; simpl.
  - exists w. split; [done | apply quiet_step_refl].
  - destruct (reply_quiet (MsgPreview (i + 1) chunk) w eq_refl)
      as (w1 & Hrun & Hquiet).
    rewrite (bind_Returned _ _ _ _ _ Hrun).
    destruct (IH (S i) w1) as (w' & -> & Hquiet').
    exists w'. split; [done|]. by eapply quiet_step_trans.
Qed.

End Dependable.

Section Attempts.
Variable svc : Services.
Hypothesis delivers : transport_delivers svc.
Hypothesis drafts :
  ∀ t topic sources format length,
    ∃ content, groq_draft svc t topic sources format length = HttpOk content.

(** The five steps before the plagiarism check. *)
Lemma attempt_prefix (topic : string) (sources : list Source)
    (format : string) (length : N) (w : World) :
  ∃ content bibliography w',
    quiet_step w w'
    ∧ processDraft_try svc topic sources format length w
      = bind (checkPlagiarism svc content)
          (λ plagiarismScore,
             if Qgt_bool plagiarismScore PLAGIARISM_THRESHOLD then
               bind (reply svc (MsgRewriting plagiarismScore)) (λ _, ret Retry)
             else
               bind (reply svc MsgPlagiarismPassed)
                 (λ _, bind (createWordDocument svc content bibliography topic)
                   (λ document,
                      let '(filename, filepath) := document in
                      bind get_session
                        (λ s, bind (uploadToGoogleDrive svc filepath filename
                                      (studentId s))
                          (λ driveLink,
                             bind (reply svc MsgDocumentsCreated)
                               (λ _, bind (reply svc
                                             (MsgDraftComplete topic format
                                                length plagiarismScore
                                                (List.length sources)
                                                driveLink))
                                  (λ _,
                                     match chunkContent_default
                                             (slice content 0 8000) with
                                     | None => pending
                                     | Some chunks =>
                                         bind (send_previews svc 0
                                                 (take 2 chunks))
                                           (λ _,
                                              bind (modify_session
                                                      (set_lastDraft
                                                         (Some
                                                            (mkLastDraft topic
                                                               content
                                                               bibliography
                                                               format length
                                                               plagiarismScore
                                                               driveLink
                                                               filename))))
                                                (λ _,
                                                   ret (Done
                                                          (mkDraftResult
                                                             content
                                                             bibliography
                                                             plagiarismScore
                                                             driveLink
                                                             filename))))
                                     end)))))))
          w'.
Proof.
  unfold processDraft_try.
  destruct (reply_quiet svc delivers MsgGenerating w eq_refl)
    as (w1 & Hrun1 & Hq1).
  rewrite (bind_Returned _ _ _ _ _ Hrun1).
  destruct (generateDraft_quiet svc topic sources format length w1 drafts)
    as (content & w2 & Hrun2 & Hq2).
  rewrite (bind_Returned _ _ _ _ _ Hrun2).
  destruct (reply_quiet svc delivers MsgDraftGenerated w2 eq_refl)
    as (w3 & Hrun3 & Hq3).
  rewrite (bind_Returned _ _ _ _ _ Hrun3).
  destruct (formatCitations_quiet svc sources format "" w3)
    as (bibliography & w4 & Hrun4 & Hq4).
  unfold formatCitations. rewrite (bind_Returned _ _ _ _ _ Hrun4).
  destruct (reply_quiet svc delivers MsgCitationsFormatted w4 eq_refl)
    as (w5 & Hrun5 & Hq5).
  rewrite (bind_Returned _ _ _ _ _ Hrun5).
  exists content, bibliography, w5. split; [|reflexivity].
  eauto using quiet_step_trans.
Qed.

(** With a checker that is always above the threshold, an activation ends
    in the regeneration notice and the recursive call. *)
Lemma attempt_above_retries (topic : string) (sources : list Source)
    (format : string) (length : N) (w : World) :
  checker_always_above svc →
  ∃ w', processDraft_try svc topic sources format length w = (Returned Retry, w')
        ∧ regenerations (log w') = S (regenerations (log w)).
Proof.
  intros Habove.
  destruct (attempt_prefix topic sources format length w)
    as (content & bibliography & w5 & Hq5 & ->).
  destruct (Habove (clock w5) (slice content 0 5000)) as (q & Heden & Hq).
  rewrite (bind_Returned _ _ _ _ _ (checkPlagiarism_answer _ _ _ _ Heden)).
  rewrite (score_or_zero_above q Hq), Hq.
  rewrite (bind_Returned _ _ _ _ _ (reply_delivered _ _ _ (delivers _ _))).
  eexists. split; [reflexivity|]. cbn [log].
  rewrite !regenerations_app, (regenerations_quiet _ _ Hq5).
  cbn. lia.
Qed.

(** Then the pipeline is still pending after any number of activations,
    each of which has sent one regeneration notice. *)
Lemma processDraft_above_pending (budget : nat) (sources : list Source)
    (format : string) (length : N) :
  checker_always_above svc →
  ∀ topic w,
    (processDraft svc budget topic sources format length w).1 = Pending
    ∧ regenerations
        (log (processDraft svc budget topic sources format length w).2)
      = regenerations (log w) + budget.
Proof.
  intros Habove. induction budget as [|budget IH]; intros topic w.
  - simpl. split; [done | lia].
  - simpl.
    destruct (attempt_above_retries topic sources format length w Habove)
      as (w' & Hrun & Hcount).
    rewrite (bind_Returned _ _ _ _ _ (try_catch_Returned _ _ _ _ _ Hrun)).
    destruct (IH (topic +:+ " (rewrite to be more original)") w')
      as [Hpending Hregen].
    split; [done|]. rewrite Hregen, Hcount. lia.
Qed.

(** With a check that fails on every call, and a file system that works,
    an activation gets past the gate and finishes the draft. *)
Lemma attempt_failed_check_passes (topic : string) (sources : list Source)
    (format : string) (length : N) (w : World) :
  check_fails (eden_plagiarism svc) →
  (∀ t path text, fs_writeFile svc t path text = None) →
  ∃ r draft w',
    processDraft_try svc topic sources format length w = (Returned (Done r), w')
    ∧ r_plagiarismScore r = 0%Q
    ∧ ld_plagiarismScore draft = 0%Q
    ∧ session w' = set_lastDraft (Some draft) (session w)
    ∧ heap w' = heap w
    ∧ ∃ evs,
        log w' = log w ++ evs
        ∧ forallb (λ ev, negb (is_alarm ev)) evs = true
        ∧ existsb is_file_written evs = true.
Proof.
  intros Hfails Hfs.
  destruct (attempt_prefix topic sources format length w)
    as (content & bibliography & w5 & Hq5 & ->).
  assert (∃ w6, checkPlagiarism svc content w5 = (Returned 0%Q, w6)
                ∧ quiet_step w5 w6) as (w6 & Hrun6 & Hq6).
  { destruct (Hfails (clock w5) (slice content 0 5000)) as [[e Heden]|Heden].
    - rewrite (checkPlagiarism_failure _ _ _ _ Heden).
      eexists. split; [reflexivity | by apply quiet_step_extend].
    - rewrite (checkPlagiarism_answer _ _ _ _ Heden).
      eexists. split; [reflexivity | by apply quiet_step_extend]. }
  rewrite (bind_Returned _ _ _ _ _ Hrun6).
  change (Qgt_bool 0 PLAGIARISM_THRESHOLD) with false. cbv iota.
  destruct (reply_quiet svc delivers MsgPlagiarismPassed w6 eq_refl)
    as (w7 & Hrun7 & Hq7).
  rewrite (bind_Returned _ _ _ _ _ Hrun7).
  destruct (createWordDocument_written svc content bibliography topic w7 Hfs)
    as (filename & filepath & text & c8 & Hrun8).
  rewrite (bind_Returned _ _ _ _ _ Hrun8).
  set (w8 := mkWorld (session w7) (heap w7)
               (log w7 ++ [FileWritten filepath text]) c8).
  rewrite (bind_Returned get_session _ w8 w8 (session w8) eq_refl).
  destruct (uploadToGoogleDrive_quiet svc filepath filename
              (studentId (session w8)) w8) as (driveLink & w9 & Hrun9 & Hq9).
  rewrite (bind_Returned _ _ _ _ _ Hrun9).
  destruct (reply_quiet svc delivers MsgDocumentsCreated w9 eq_refl)
    as (w10 & Hrun10 & Hq10).
  rewrite (bind_Returned _ _ _ _ _ Hrun10).
  destruct (reply_quiet svc delivers
              (MsgDraftComplete topic format length 0 (List.length sources)
                 driveLink) w10 eq_refl) as (w11 & Hrun11 & Hq11).
  rewrite (bind_Returned _ _ _ _ _ Hrun11).
  destruct (chunkContent_ends (slice content 0 8000) 4000)
    as (chunks & Hchunks); [lia|].
  unfold chunkContent_default. rewrite Hchunks.
  destruct (send_previews_quiet svc delivers (take 2 chunks) 0 w11)
    as (w12 & Hrun12 & Hq12).
  rewrite (bind_Returned _ _ _ _ _ Hrun12).
  run.
  assert (quiet_step w w7) as (Hs7 & Hh7 & evs7 & Hl7 & He7)
    by eauto using quiet_step_trans.
  assert (quiet_step w8 w12) as (Hs12 & Hh12 & evs12 & Hl12 & He12)
    by eauto using quiet_step_trans.
  eexists _, (mkLastDraft topic content bibliography format length 0
                driveLink filename), _.
  split; [reflexivity|]. cbn [session heap log].
  split; [done|]. split; [done|].
  split; [by rewrite Hs12; cbn [w8 session]; rewrite Hs7|].
  split; [by rewrite Hh12; cbn [w8 heap]; rewrite Hh7|].
  exists (evs7 ++ [FileWritten filepath text] ++ evs12).
  split; [rewrite Hl12; cbn [w8 log]; by rewrite Hl7, <- !app_assoc|].
  split.
  - rewrite !forallb_app, He7, He12. reflexivity.
  - rewrite !existsb_app. cbn. by rewrite orb_true_r.
Qed.

End Attempts.

(* --------------------------------------------------------------------- *)
(** ** The retry of [processDraft]                                        *)
(* --------------------------------------------------------------------- *)

Lemma always_half_above : checker_always_above (dependable always_half).
Proof. intros t text. exists (1 # 2)%Q. by split. Qed.

Lemma dependable_delivers (checker : nat → string → Http (option Q)) :
  transport_delivers (dependable checker).
Proof. by intros t m. Qed.

Lemma dependable_drafts (checker : nat → string → Http (option Q)) :
  ∀ t topic sources format length,
    ∃ content,
      groq_draft (dependable checker) t topic sources format length
      = HttpOk content.
Proof. intros. by eexists. Qed.

(** C1, as the code has it.  [processDraft] carries no retry counter.
    With a checker that always reports a score above the threshold it
    never returns a draft and never reaches any other final outcome: an
    activation ends in an error of a service or in the next activation.
    When the transport and the language model succeed, the pipeline is
    still pending after any number of activations, and it has sent one
    regeneration notice per activation. *)
Theorem processDraft_has_no_retry_cap (svc : Services)
    (sources : list Source) (format : string) (length : N) :
  checker_always_above svc →
  (∀ budget topic w r,
     (processDraft svc budget topic sources format length w).1 ≠ Returned r)
  ∧ (transport_delivers svc →
     (∀ t topic sources format length,
        ∃ content,
          groq_draft svc t topic sources format length = HttpOk content) →
     ∀ budget topic w,
       (processDraft svc budget topic sources format length w).1 = Pending
       ∧ regenerations
           (log (processDraft svc budget topic sources format length w).2)
         = regenerations (log w) + budget).
Proof.
  intros Habove. split.
  - intros budget. by apply processDraft_above_never_returns.
  - intros Hdelivers Hdrafts budget. by apply processDraft_above_pending.
Qed.

Lemma processDraft_has_no_retry_cap_witness :
  (processDraft (dependable always_half) 5 "Drought and crops" [paper_a]
     "APA" 5 fresh_world).1 = Pending
  ∧ regenerations
      (log (processDraft (dependable always_half) 5 "Drought and crops"
              [paper_a] "APA" 5 fresh_world).2)
    = 5.
Proof.
  destruct (processDraft_has_no_retry_cap (dependable always_half) [paper_a]
              "APA" 5 always_half_above) as [_ Hpending].
  apply (Hpending (dependable_delivers always_half)
           (dependable_drafts always_half) 5 "Drought and crops" fresh_world).
Defined.

(** No number bounds the regenerations of a run whose checker always
    reports one half. *)
Lemma processDraft_exceeds_every_cap :
  ¬ ∃ cap : nat,
      ∀ budget,
        regenerations
          (log (processDraft (dependable always_half) budget
                  "Drought and crops" [paper_a] "APA" 5 fresh_world).2)
        ≤ cap.
Proof.
  intros [cap Hcap]. specialize (Hcap (S cap)).
  destruct (processDraft_above_pending (dependable always_half)
              (dependable_delivers always_half)
              (dependable_drafts always_half) (S cap) [paper_a] "APA" 5
              always_half_above "Drought and crops" fresh_world)
    as [_ Hcount].
  rewrite Hcount in Hcap. cbn in Hcap. lia.
Qed.

(** Scenario C: a quarter, then a twentieth: one regeneration, then the
    document. *)
Example processDraft_scenario_C :
  let run :=
    processDraft (dependable quarter_then_low) 2 "Drought and crops"
      [paper_a] "APA" 5 fresh_world in
  regenerations (log run.2) = 1
  ∧ r_plagiarismScore <$> (match run.1 with
                           | Returned r => Some r
                           | _ => None
                           end) = Some (1 # 20)%Q.
Proof. vm_compute. by split. Qed.

(* --------------------------------------------------------------------- *)
(** ** A failed plagiarism check                                          *)
(* --------------------------------------------------------------------- *)

Lemma processDraft_one_activation (svc : Services) (budget : nat)
    (topic : string) (sources : list Source) (format : string) (length : N)
    (w w' : World) (r : DraftResult) :
  processDraft_try svc topic sources format length w = (Returned (Done r), w') →
  processDraft svc (S budget) topic sources format length w = (Returned r, w').
Proof.
  intros Hrun. simpl.
  by rewrite (bind_Returned _ _ _ _ _ (try_catch_Returned _ _ _ _ _ Hrun)).
Qed.

(** C9.  When every call of the plagiarism check fails (the request is
    rejected, or the response has no score), [checkPlagiarism] returns 0.
    The draft pipeline then behaves exactly as with a checker that reports
    a perfect score of 0: same outcome, same session, same arrays, same
    number of service calls, and the same log but for console lines.  When
    the transport, the language model and the file system work, the first
    activation passes the gate and finishes: the document is written, the
    draft is returned with score 0, and no retry notice, no error message
    and no operator alert is sent. *)
Theorem failed_check_counts_as_perfect_score (svc : Services)
    (checker : nat → string → Http (option Q)) (budget : nat)
    (topic : string) (sources : list Source) (format : string) (length : N)
    (w : World) :
  check_fails checker →
  (∀ content w0,
     (checkPlagiarism (with_checker svc checker) content w0).1 = Returned 0%Q)
  ∧ (∀ perfect,
       check_perfect perfect →
       sim (processDraft (with_checker svc checker) budget topic sources
              format length)
         (processDraft (with_checker svc perfect) budget topic sources
            format length))
  ∧ (drafting_succeeds svc →
     ∃ r w',
       processDraft (with_checker svc checker) (S budget) topic sources
         format length w = (Returned r, w')
       ∧ processDraft (with_checker svc checker) 1 topic sources
           format length w = (Returned r, w')
       ∧ r_plagiarismScore r = 0%Q
       ∧ ∃ evs,
           log w' = log w ++ evs
           ∧ forallb (λ ev, negb (is_alarm ev)) evs = true
           ∧ existsb is_file_written evs = true).
Proof.
  intros Hfails. split; [|split].
  - intros content w0.
    destruct (Hfails (clock w0) (slice content 0 5000)) as [[e Heden]|Heden].
    + by rewrite (checkPlagiarism_failure (with_checker svc checker) _ e _ Heden).
    + by rewrite (checkPlagiarism_answer (with_checker svc checker) _ None _ Heden).
  - intros perfect Hperfect. by apply sim_processDraft.
  - intros (Hdelivers & Hdrafts & Hfs).
    destruct (attempt_failed_check_passes (with_checker svc checker)
                Hdelivers Hdrafts topic sources format length w Hfails Hfs)
      as (r & draft & w' & Hrun & Hscore & _ & _ & _ & Hlog).
    exists r, w'.
    split; [by apply processDraft_one_activation|].
    split; [by apply processDraft_one_activation|].
    by split.
Qed.

Lemma failed_check_counts_as_perfect_score_witness :
  let run :=
    processDraft (with_checker (dependable always_half) always_timeout) 3
      "Drought and crops" [paper_a] "APA" 5 fresh_world in
  (∃ r, run.1 = Returned r ∧ r_plagiarismScore r = 0%Q)
  ∧ regenerations (log run.2) = 0.
Proof.
  assert (check_fails always_timeout) as Hfails.
  { intros t text. left. by eexists. }
  assert (drafting_succeeds (dependable always_half)) as Hworks.
  { split; [done|]. split; [intros; by eexists | done]. }
  destruct (failed_check_counts_as_perfect_score (dependable always_half)
              always_timeout 2 "Drought and crops" [paper_a] "APA" 5
              fresh_world Hfails) as (_ & _ & Hpasses).
  destruct (Hpasses Hworks) as (r & w' & Hrun & _ & Hscore & evs & Hlog & Hquiet & _).
  cbn zeta. rewrite Hrun. cbn [fst snd].
  split; [exists r; split; [reflexivity | exact Hscore]|].
  rewrite Hlog, regenerations_app, (regenerations_harmless evs Hquiet).
  reflexivity.
Defined.

(* --------------------------------------------------------------------- *)
(** ** What a step of the pipeline leaves behind                          *)
(* --------------------------------------------------------------------- *)

Lemma string_app_assoc (a b c : string) : (a +:+ b) +:+ c = a +:+ b +:+ c.
Proof.
  induction a as [|x a IH]; [reflexivity|].
  rewrite !string_app_cons. by rewrite IH.
Qed.

Lemma concat_empty_cons (entry : string) (entries : list string) :
  String.concat "" (entry :: entries) = entry +:+ String.concat "" entries.
Proof. apply join_chunks_cons. Qed.

Lemma extends_by_refl (P : Event → Prop) (w : World) : extends_by P w w.
Proof. repeat split. exists []. by rewrite app_nil_r. Qed.

Lemma extends_by_trans (P : Event → Prop) (w1 w2 w3 : World) :
  extends_by P w1 w2 → extends_by P w2 w3 → extends_by P w1 w3.
Proof.
  intros (Hs1 & Hh1 & evs1 & Hl1 & He1) (Hs2 & Hh2 & evs2 & Hl2 & He2).
  split; [congruence|]. split; [congruence|].
  exists (evs1 ++ evs2). split; [by rewrite Hl2, Hl1, app_assoc|].
  by apply Forall_app.
Qed.

Lemma keeps_ret {A : Type} (P : Event → Prop) (a : A) : keeps P (ret a).
Proof. intros w. apply extends_by_refl. Qed.

Lemma keeps_throw {A : Type} (P : Event → Prop) (e : Error) :
  keeps P (throw (A := A) e).
Proof. intros w. apply extends_by_refl. Qed.

Lemma keeps_pending {A : Type} (P : Event → Prop) : keeps P (pending (A := A)).
Proof. intros w. apply extends_by_refl. Qed.

Lemma keeps_get_session (P : Event → Prop) : keeps P get_session.
Proof. intros w. apply extends_by_refl. Qed.

Lemma keeps_tick (P : Event → Prop) : keeps P tick.
Proof. intros w. repeat split. exists []. by rewrite app_nil_r. Qed.

Lemma keeps_emit (P : Event → Prop) (ev : Event) : P ev → keeps P (emit ev).
Proof. intros Hev w. repeat split. exists [ev]. by split; [|constructor]. Qed.

Lemma keeps_bind {A B : Type} (P : Event → Prop) (m : M A) (k : A → M B) :
  keeps P m → (∀ a, keeps P (k a)) → keeps P (bind m k).
Proof.
  intros Hm Hk w. rewrite bind_eq. specialize (Hm w).
  destruct (m w) as [[a|e|] w1]; [|done..].
  eapply extends_by_trans; [exact Hm | apply Hk].
Qed.

Lemma keeps_try_catch {A : Type} (P : Event → Prop) (body : M A)
    (handler : Error → M A) :
  keeps P body → (∀ e, keeps P (handler e)) → keeps P (try_catch body handler).
Proof.
  intros Hb Hh w. rewrite try_catch_eq. specialize (Hb w).
  destruct (body w) as [[a|e|] w1]; [done| |done].
  eapply extends_by_trans; [exact Hb | apply Hh].
Qed.

(** One step of a proof that a computation only adds events of a kind. *)
Ltac keeps_step :=
  first
    [ apply keeps_ret | apply keeps_throw | apply keeps_pending
    | apply keeps_get_session | apply keeps_tick
    | apply keeps_emit; try done
    | apply keeps_bind; [|intros ?]
    | apply keeps_try_catch; [|intros ?]
    | case_match ].

Section Frames.
Variable svc : Services.
Variable P : Event → Prop.

Lemma keeps_now : keeps P (now svc).
Proof. intros w. apply extends_by_refl. Qed.

Lemma keeps_reply (m : Msg) :
  P (Replied m) → P (ReplyFailed m) → keeps P (reply svc m).
Proof. intros Hok Hfail. unfold reply. repeat keeps_step. Qed.

Lemma keeps_generateDraft (topic : string) (sources : list Source)
    (format : string) (length : N) :
  P (DraftRequested topic) → (∀ label e, P (ConsoleError label e)) →
  keeps P (generateDraft svc topic sources format length).
Proof. intros Hreq Hconsole. unfold generateDraft. repeat keeps_step. Qed.

Lemma keeps_formatCitations_loop (sources : list Source) (format : string) :
  (∀ key, P (BibliographyRequested key)) → (∀ label e, P (ConsoleError label e)) →
  ∀ bibliography, keeps P (formatCitations_loop svc sources format bibliography).
Proof.
  intros Hreq Hconsole.
  induction sources as [|source rest IH]; intros bibliography; simpl.
  - apply keeps_ret.
  - destruct (truthy (zoteroKey source)); [|apply IH].
    apply keeps_bind; [|intros ?; apply IH]. repeat keeps_step.
Qed.

Lemma keeps_checkPlagiarism (content : string) :
  (∀ text, P (PlagiarismRequested text)) → (∀ label e, P (ConsoleError label e)) →
  keeps P (checkPlagiarism svc content).
Proof. intros Hreq Hconsole. unfold checkPlagiarism. repeat keeps_step. Qed.

Lemma keeps_uploadToGoogleDrive (filepath filename : string)
    (studentId : option string) :
  (∀ name, P (DriveUploadRequested name)) → (∀ label e, P (ConsoleError label e)) →
  keeps P (uploadToGoogleDrive svc filepath filename studentId).
Proof. intros Hreq Hconsole. unfold uploadToGoogleDrive. repeat keeps_step. Qed.

Lemma keeps_writeFile (path content : string) :
  P (FileWritten path content) → keeps P (writeFile svc path content).
Proof. intros Hfile. unfold writeFile. repeat keeps_step. Qed.

Lemma keeps_createWordDocument (content bibliography topic : string) :
  (∀ path text, P (FileWritten path text)) → (∀ label e, P (ConsoleError label e)) →
  keeps P (createWordDocument svc content bibliography topic).
Proof.
  intros Hfile Hconsole. unfold createWordDocument. cbn zeta.
  apply keeps_try_catch; [|intros ?].
  - apply keeps_bind; [apply keeps_now|intros ?].
    apply keeps_bind; [by apply keeps_writeFile|intros ?]. apply keeps_ret.
  - apply keeps_bind; [by apply keeps_emit|intros ?].
    apply keeps_bind; [apply keeps_now|intros ?].
    apply keeps_bind; [by apply keeps_writeFile|intros ?]. apply keeps_ret.
Qed.

Lemma keeps_send_previews (chunks : list string) :
  (∀ m, P (Replied m)) → (∀ m, P (ReplyFailed m)) →
  ∀ i, keeps P (send_previews svc i chunks).
Proof.
  intros Hok Hfail. induction chunks as [|chunk rest IH]; intros i; simpl.
  - apply keeps_ret.
  - apply keeps_bind; [by apply keeps_reply | intros ?; apply IH].
Qed.

Lemma keeps_processDraft_catch {A : Type} (topic : string) (error : Error) :
  (∀ m, P (Replied m)) → (∀ m, P (ReplyFailed m)) →
  (∀ label e, P (ConsoleError label e)) → (∀ text, P (AdminAlerted text)) →
  keeps P (processDraft_catch (A := A) svc topic error).
Proof.
  intros Hok Hfail Hconsole Halert. unfold processDraft_catch.
  apply keeps_bind; [by apply keeps_emit | intros _].
  apply keeps_bind; [by apply keeps_reply | intros _].
  apply keeps_bind; [|intros _; apply keeps_throw].
  destruct (env_set (ADMIN_CHAT_ID svc)); [|apply keeps_ret].
  repeat keeps_step.
Qed.

End Frames.

(* --------------------------------------------------------------------- *)
(** ** [formatCitations]                                                  *)
(* --------------------------------------------------------------------- *)

Lemma bibliography_requests_app (l1 l2 : list Event) :
  bibliography_requests (l1 ++ l2)
  = bibliography_requests l1 ++ bibliography_requests l2.
Proof. apply omap_app. Qed.

Lemma delivered_app (l1 l2 : list Event) :
  delivered (l1 ++ l2) = delivered l1 ++ delivered l2.
Proof. apply omap_app. Qed.

Section Citations.
Variable svc : Services.

(** The loop invariant: each source with a key appends one entry, the
    one its own request decides. *)
Lemma formatCitations_loop_entries (sources : list Source) (format : string) :
  ∀ bibliography w,
    ∃ w',
      formatCitations_loop svc sources format bibliography w
      = (Returned
           (bibliography
            +:+ String.concat ""
                  (imap (λ j, citation_at svc format (clock w + j))
                     (List.filter has_key sources))), w')
      ∧ session w' = session w
      ∧ heap w' = heap w
      ∧ clock w' = clock w + length (List.filter has_key sources)
      ∧ bibliography_requests (log w')
        = bibliography_requests (log w)
          ++ (zoteroKey <$> List.filter has_key sources)
      ∧ delivered (log w') = delivered (log w).
Proof.
  induction sources as [|source rest IH]; intros bibliography w.
  - exists w. simpl. rewrite string_app_nil_r, Nat.add_0_r, app_nil_r.
    by repeat split.
  - cbn [formatCitations_loop List.filter].
    change (truthy (zoteroKey source)) with (has_key source).
    destruct (has_key source) eqn:Hkey; [|apply IH].
    rewrite imap_cons, concat_empty_cons, Nat.add_0_r.
    rewrite (imap_ext _ (λ j, citation_at svc format (S (clock w) + j)))
      by (intros j x _; cbn [compose]; f_equal; lia).
    unfold citation_at at 1.
    rewrite bind_eq. run.
    destruct (zotero_bib svc (clock w) (zoteroKey source) format)
      as [data|e] eqn:Hzotero; run.
    + edestruct IH as (w' & -> & Hs & Hh & Hc & Hreq & Hsent).
      exists w'.
      split; [by rewrite (string_app_assoc bibliography)|].
      split; [done|]. split; [done|].
      split; [rewrite Hc; cbn [clock length]; lia|].
      split; [by rewrite Hreq; cbn [log]; rewrite bibliography_requests_app,
                <- app_assoc|].
      by rewrite Hsent; cbn [log]; rewrite delivered_app, app_nil_r.
    + edestruct IH as (w' & -> & Hs & Hh & Hc & Hreq & Hsent).
      exists w'.
      split; [by rewrite (string_app_assoc bibliography)|].
      split; [done|]. split; [done|].
      split; [rewrite Hc; cbn [clock length]; lia|].
      split; [by rewrite Hreq; cbn [log]; rewrite !bibliography_requests_app,
                <- !app_assoc|].
      by rewrite Hsent; cbn [log]; rewrite !delivered_app, !app_nil_r.
Qed.

(** X1.  [formatCitations] never throws and touches neither the session
    nor the arrays nor the chat.  It asks Zotero exactly once for each
    source whose [zoteroKey] is truthy, in the order of the sources: the
    [j]-th of them at tick [clock w + j].  Its bibliography is one entry
    per such source, in that order, and the entry is decided by that
    source's own request: the text Zotero returned for the key followed by
    a line feed when the request succeeded, and the citation written by
    hand from the title and the DOI exactly when it failed.  A source
    without a key is skipped without a trace. *)
Theorem formatCitations_one_entry_per_key (sources : list Source)
    (format : string) (w : World) :
  let asked := List.filter has_key sources in
  ∃ w',
    formatCitations svc sources format w
    = (Returned
         (String.concat ""
            (imap
               (λ j source,
                  match zotero_bib svc (clock w + j) (zoteroKey source) format
                  with
                  | HttpOk data => data +:+ nl
                  | HttpFail _ => manual_citation source
                  end) asked)), w')
    ∧ session w' = session w
    ∧ heap w' = heap w
    ∧ clock w' = clock w + length asked
    ∧ bibliography_requests (log w')
      = bibliography_requests (log w) ++ (zoteroKey <$> asked)
    ∧ delivered (log w') = delivered (log w).
Proof.
  cbn zeta.
  destruct (formatCitations_loop_entries sources format "" w)
    as (w' & Hrun & Hrest).
  exists w'. split; [|exact Hrest].
  unfold formatCitations. by rewrite Hrun, string_app_nil_l.
Qed.

End Citations.

(* --------------------------------------------------------------------- *)
(** ** The number of chunks                                               *)
(* --------------------------------------------------------------------- *)

(** How many chunks the loop appends from index [i] on, and that none of
    them is empty. *)
Lemma chunk_loop_count (content : string) (maxLength : nat) :
  0 < maxLength →
  ∀ budget i chunks result,
    chunk_loop budget content maxLength i chunks = Some result →
    length result
    = length chunks + (String.length content - i + maxLength - 1) / maxLength
    ∧ (Forall nonempty chunks → Forall nonempty result).
Proof.
  intros Hpos. induction budget as [|budget IH]; intros i chunks result;
    rewrite chunk_loop_unfold;
    destruct (Nat.ltb_spec i (String.length content)) as [Hi|Hi];
    try discriminate.
  - intros [= <-]. split; [|done].
    rewrite Nat.div_small; lia.
  - intros Hrun. apply IH in Hrun as [Hlen Hall]. split.
    + rewrite Hlen, length_app. cbn [length].
      destruct (decide (String.length content - i ≤ maxLength)) as [Hlast|Hmore].
      * replace (String.length content - (i + maxLength)) with 0 by lia.
        rewrite (Nat.div_small (0 + maxLength - 1)) by lia.
        symmetry. rewrite Nat.add_0_r.
        replace (String.length content - i + maxLength - 1)
          with ((String.length content - i - 1) + 1 * maxLength) by lia.
        rewrite Nat.div_add by lia. rewrite Nat.div_small; lia.
      * replace (String.length content - i + maxLength - 1)
          with ((String.length content - (i + maxLength) + maxLength - 1)
                + 1 * maxLength) by lia.
        rewrite Nat.div_add by lia. lia.
    + intros Hchunks. apply Hall. apply Forall_app. split; [done|].
      constructor; [|done]. unfold nonempty. rewrite slice_length. lia.
  - intros [= <-]. split; [|done].
    rewrite Nat.div_small; lia.
Qed.

(** X2.  With a positive [maxLength], [chunkContent] returns
    [ceil (length / maxLength)] chunks, none of them empty; in particular
    the empty string gives no chunk, whatever [maxLength] is.  With
    [maxLength = 0] and a content that is not empty the loop never ends:
    no number of iterations is enough. *)
Theorem chunkContent_count (content : string) (maxLength : nat) :
  (0 < maxLength →
   ∃ chunks,
     chunkContent content maxLength = Some chunks
     ∧ length chunks = (String.length content + maxLength - 1) / maxLength
     ∧ Forall nonempty chunks)
  ∧ chunkContent "" maxLength = Some []
  ∧ (content ≠ "" → ∀ budget, chunk_loop budget content 0 0 [] = None).
Proof.
  split; [|split].
  - intros Hpos. destruct (chunkContent_ends content maxLength Hpos)
      as [chunks Hrun].
    exists chunks. split; [done|].
    destruct (chunk_loop_count content maxLength Hpos _ _ _ _ Hrun)
      as [Hlen Hall].
    split; [by rewrite Hlen, Nat.sub_0_r | by apply Hall].
  - reflexivity.
  - intros Hcontent budget. apply chunk_loop_zero_diverges.
    destruct content; [done | simpl; lia].
Qed.

Lemma chunkContent_count_witness :
  (∃ chunks,
     chunkContent "a draft of ten" 4 = Some chunks
     ∧ length chunks = 4
     ∧ Forall nonempty chunks)
  ∧ ∀ budget, chunk_loop budget "a draft of ten" 0 0 [] = None.
Proof.
  destruct (chunkContent_count "a draft of ten" 4) as (Hcount & _ & _).
  destruct (chunkContent_count "a draft of ten" 0) as (_ & _ & Hloop).
  split; [apply Hcount; lia | apply Hloop; discriminate].
Defined.

(* --------------------------------------------------------------------- *)
(** ** File names                                                         *)
(* --------------------------------------------------------------------- *)

Lemma lacks_app (c : ascii) (a b : string) :
  lacks c (a +:+ b) = lacks c a && lacks c b.
Proof.
  induction a as [|x a IH]; [reflexivity|].
  rewrite string_app_cons. simpl. by rewrite IH, andb_assoc.
Qed.

Lemma every_app (f : ascii → bool) (a b : string) :
  every f (a +:+ b) = every f a && every f b.
Proof.
  induction a as [|x a IH]; [reflexivity|].
  rewrite string_app_cons. simpl. by rewrite IH, andb_assoc.
Qed.

Lemma every_lacks (f : ascii → bool) (c : ascii) (s : string) :
  f c = false → every f s = true → lacks c s = true.
Proof.
  intros Hc. induction s as [|x s IH]; [done|]. simpl.
  intros [Hx Hs]%andb_prop. rewrite IH by done.
  destruct (Ascii.eqb_spec x c) as [->|]; [congruence | done].
Qed.

Lemma pretty_N_char_digit (d : N) : is_digit (pretty_N_char d) = true.
Proof. unfold pretty_N_char. by repeat case_match. Qed.

Lemma pretty_N_go_digits (x : N) :
  ∀ s, every is_digit s = true → every is_digit (pretty_N_go x s) = true.
Proof.
  induction (N.lt_wf_0 x) as [x _ IH]; intros s Hs.
  destruct (decide (x = 0)%N) as [->|Hx]; [by rewrite pretty_N_go_0|].
  rewrite pretty_N_go_step by lia.
  apply IH; [apply N.div_lt; lia|].
  simpl. by rewrite pretty_N_char_digit.
Qed.

(** The decimal rendering of a number holds digits only. *)
Lemma pretty_N_digits (x : N) : every is_digit (pretty x) = true.
Proof.
  unfold pretty, pretty_N. destruct (decide (x = 0)%N); [done|].
  by apply pretty_N_go_digits.
Qed.

Lemma sanitize_lacks_slash (s : string) : lacks "/" (sanitize s) = true.
Proof.
  induction s as [|c s IH]; [done|]. simpl. rewrite IH, andb_true_r.
  destruct (is_alnum c) eqn:Hc; [|done].
  destruct (Ascii.eqb_spec c "/") as [->|]; [discriminate | done].
Qed.

Lemma sanitize_length (s : string) :
  String.length (sanitize s) = String.length s.
Proof. induction s as [|c s IH]; [done|]. simpl. by rewrite IH. Qed.

Lemma files_written_app (l1 l2 : list Event) :
  files_written (l1 ++ l2) = files_written l1 ++ files_written l2.
Proof. apply omap_app. Qed.

Lemma previews_app (l1 l2 : list Event) :
  previews (l1 ++ l2) = previews l1 ++ previews l2.
Proof. apply omap_app. Qed.

Lemma files_written_plain (evs : list Event) :
  Forall plain evs → files_written evs = [].
Proof.
  induction 1 as [|ev evs [_ Hev] _ IH]; [done|].
  destruct ev; try done.
Qed.

Lemma previews_plain (evs : list Event) : Forall plain evs → previews evs = [].
Proof.
  induction 1 as [|ev evs [_ Hev] _ IH]; [done|].
  destruct ev as [[]| | | | | | | | | | | | | | |]; try done.
Qed.

Lemma regenerations_plain (evs : list Event) :
  Forall plain evs → regenerations evs = 0.
Proof.
  unfold regenerations. induction 1 as [|ev evs [Hev _] _ IH]; [done|].
  simpl. by rewrite Hev.
Qed.

Section Documents.
Variable svc : Services.

(** [createWordDocument], run to the end. *)
Lemma createWordDocument_run (content bibliography topic : string)
    (w : World) :
  let text := document_text content bibliography topic in
  let run := createWordDocument svc content bibliography topic w in
  session run.2 = session w
  ∧ heap run.2 = heap w
  ∧ match run.1 with
    | Returned (filename, filepath) =>
        (∃ stamp : N, filename = sanitize topic +:+ "_" +:+ pretty stamp +:+ ".txt")
        ∧ filepath = "/tmp/" +:+ filename
        ∧ ∃ evs,
            log run.2 = log w ++ evs ++ [FileWritten filepath text]
            ∧ Forall plain evs
    | Threw e =>
        (∃ evs, log run.2 = log w ++ evs ∧ Forall plain evs)
        ∧ ∃ e1 path1 path2,
            fs_writeFile svc (clock w) path1 text = Some e1
            ∧ fs_writeFile svc (S (clock w)) path2 text = Some e
    | Pending => False
    end.
Proof.
  cbn zeta. unfold createWordDocument, writeFile, now, document_text. run.
  destruct (fs_writeFile svc (clock w) _ _) as [e1|] eqn:Hfirst; run.
  - destruct (fs_writeFile svc (S (clock w)) _ _) as [e2|] eqn:Hsecond; run.
    + split; [done|]. split; [done|]. split.
      * exists [ConsoleError "Word document error:" e1].
        split; [done|]. by repeat constructor.
      * by eexists e1, _, _.
    + split; [done|]. split; [done|].
      split; [by eexists|]. split; [done|].
      exists [ConsoleError "Word document error:" e1].
      split; [by rewrite <- !app_assoc|]. by repeat constructor.
  - split; [done|]. split; [done|].
    split; [by eexists|]. split; [done|].
    exists []. by split.
Qed.

(** X3.  [createWordDocument] touches neither the session nor the arrays.
    When it returns it has written exactly one file, with the topic, the
    content and the references as its text; the file is
    [/tmp/<name>], where [<name>] is the sanitised topic, an underscore,
    the clock reading and [.txt], and holds no path separator whatever the
    topic is.  A write that fails is tried once more; the function throws
    only after two failed writes, with the error of the second, and then no
    file has been written. *)
Theorem createWordDocument_writes_one_file_in_tmp
    (content bibliography topic : string) (w : World) :
  let text := document_text content bibliography topic in
  let run := createWordDocument svc content bibliography topic w in
  session run.2 = session w
  ∧ heap run.2 = heap w
  ∧ match run.1 with
    | Returned (filename, filepath) =>
        filepath = "/tmp/" +:+ filename
        ∧ lacks "/" filename = true
        ∧ (∃ stamp : N, filename = sanitize topic +:+ "_" +:+ pretty stamp +:+ ".txt")
        ∧ files_written (log run.2) = files_written (log w) ++ [(filepath, text)]
    | Threw e =>
        files_written (log run.2) = files_written (log w)
        ∧ ∃ e1 path1 path2,
            fs_writeFile svc (clock w) path1 text = Some e1
            ∧ fs_writeFile svc (S (clock w)) path2 text = Some e
    | Pending => False
    end.
Proof.
  cbn zeta.
  pose proof (createWordDocument_run content bibliography topic w) as Hrun.
  cbn zeta in Hrun.
  destruct (createWordDocument svc content bibliography topic w)
    as [[[filename filepath]|e|] w']; cbn [fst snd] in *;
    destruct Hrun as (Hs & Hh & Hrest); (split; [done|]); (split; [done|]).
  - destruct Hrest as ([stamp ->] & -> & evs & -> & Hplain).
    split; [done|]. split; [|split; [by exists stamp|]].
    + rewrite !lacks_app, sanitize_lacks_slash.
      rewrite (every_lacks is_digit "/" (pretty stamp) eq_refl)
        by apply pretty_N_digits.
      reflexivity.
    + rewrite !files_written_app, (files_written_plain evs Hplain).
      reflexivity.
  - destruct Hrest as ((evs & -> & Hplain) & Hwrites). split; [|done].
    by rewrite files_written_app, (files_written_plain evs Hplain), app_nil_r.
  - done.
Qed.

End Documents.

(* --------------------------------------------------------------------- *)
(** ** One activation of [processDraft], however it ends                  *)
(* --------------------------------------------------------------------- *)

Lemma preview_events_cons (i : nat) (chunk : string) (rest : list string) :
  preview_events i (chunk :: rest)
  = Replied (MsgPreview (i + 1) chunk) :: preview_events (S i) rest.
Proof.
  unfold preview_events. rewrite imap_cons. f_equal.
  - by rewrite Nat.add_0_r.
  - apply imap_ext. intros k c _. simpl. do 2 f_equal. lia.
Qed.

Lemma previews_preview_events (i : nat) (chunks : list string) :
  previews (preview_events i chunks) = imap (λ k chunk, (i + k + 1, chunk)) chunks.
Proof.
  revert i. induction chunks as [|chunk rest IH]; intros i; [done|].
  rewrite preview_events_cons, imap_cons.
  change (previews (Replied (MsgPreview (i + 1) chunk)
                      :: preview_events (S i) rest))
    with ((i + 1, chunk) :: previews (preview_events (S i) rest)).
  rewrite IH. f_equal.
  - by rewrite Nat.add_0_r.
  - apply imap_ext. intros k c _. simpl. f_equal. lia.
Qed.

Lemma regenerations_preview_events (i : nat) (chunks : list string) :
  regenerations (preview_events i chunks) = 0.
Proof.
  revert i. induction chunks as [|chunk rest IH]; intros i; [done|].
  rewrite preview_events_cons. apply IH.
Qed.

Lemma files_written_preview_events (i : nat) (chunks : list string) :
  files_written (preview_events i chunks) = [].
Proof.
  revert i. induction chunks as [|chunk rest IH]; intros i; [done|].
  rewrite preview_events_cons. apply IH.
Qed.

Section Activation.
Variable svc : Services.

(** The previews: all delivered, or the loop stops at the first that is
    not. *)
Lemma send_previews_run (chunks : list string) :
  ∀ i w,
    let run := send_previews svc i chunks w in
    session run.2 = session w
    ∧ heap run.2 = heap w
    ∧ match run.1 with
      | Returned _ => log run.2 = log w ++ preview_events i chunks
      | _ => True
      end.
Proof.
  induction chunks as [|chunk rest IH]; intros i w; cbn zeta.
  - simpl. by rewrite app_nil_r.
  - cbn [send_previews]. rewrite bind_eq. unfold reply. run.
    destruct (telegram_send svc (clock w) _); run; [done|].
    specialize (IH (S i)
                  (mkWorld (session w) (heap w)
                     (log w ++ [Replied (MsgPreview (i + 1) chunk)])
                     (S (clock w)))).
    cbn zeta in IH. destruct IH as (Hs & Hh & Hlog).
    split; [done|]. split; [done|].
    destruct (send_previews svc (S i) rest _) as [[[]|e|] w']; [|done..].
    cbn [fst snd log] in *.
    by rewrite Hlog, preview_events_cons, <- app_assoc.
Qed.

(** What one run of the [try] block of [processDraft] does to the world,
    by the way it ends. *)
Lemma processDraft_try_cases (topic : string) (sources : list Source)
    (format : string) (length : N) (w : World) (o : Outcome Attempt)
    (w' : World) :
  processDraft_try svc topic sources format length w = (o, w') →
  heap w' = heap w
  ∧ match o with
    | Returned Retry =>
        session w' = session w
        ∧ ∃ evs q,
            log w' = log w ++ evs ++ [Replied (MsgRewriting q)]
            ∧ Forall plain evs
    | Returned (Done r) =>
        Qgt_bool (r_plagiarismScore r) PLAGIARISM_THRESHOLD = false
        ∧ session w'
          = set_lastDraft
              (Some (mkLastDraft topic (r_content r) (r_bibliography r)
                       format length (r_plagiarismScore r) (r_driveLink r)
                       (r_filename r)))
              (session w)
        ∧ ∃ evs1 evs2 chunks,
            log w'
            = log w ++ evs1
              ++ [FileWritten ("/tmp/" +:+ r_filename r)
                    (document_text (r_content r) (r_bibliography r) topic)]
              ++ evs2 ++ preview_events 0 (take 2 chunks)
            ∧ Forall plain evs1
            ∧ Forall plain evs2
            ∧ chunkContent_default (slice (r_content r) 0 8000) = Some chunks
    | Threw _ | Pending => session w' = session w
    end.
Proof.
  unfold processDraft_try. intros Hrun.
  assert (∀ m, routine m → plain (Replied m)) as Hroutine.
  { intros m Hm. by destruct m. }
  assert (∀ m, plain (ReplyFailed m)) as Hfailed by done.
  (* the notice that the draft is being generated *)
  rewrite bind_eq in Hrun.
  pose proof (keeps_reply svc plain MsgGenerating
                (Hroutine MsgGenerating I) (Hfailed _) w) as K.
  destruct (reply svc MsgGenerating w) as [[[]|e|] w1]; cbn [snd] in K;
    [|injection Hrun as <- <-; by destruct K as (? & ? & _)..].
  (* the draft *)
  rewrite bind_eq in Hrun.
  pose proof (keeps_generateDraft svc plain topic sources format length
                ltac:(done) ltac:(done) w1) as K1.
  destruct (generateDraft svc topic sources format length w1)
    as [[content|e|] w2]; cbn [snd] in K1;
    pose proof (extends_by_trans _ _ _ _ K K1) as K2; clear K K1;
    [|injection Hrun as <- <-; by destruct K2 as (? & ? & _)..].
  rewrite bind_eq in Hrun.
  pose proof (keeps_reply svc plain MsgDraftGenerated
                (Hroutine MsgDraftGenerated I) (Hfailed _) w2) as K1.
  destruct (reply svc MsgDraftGenerated w2) as [[[]|e|] w3]; cbn [snd] in K1;
    pose proof (extends_by_trans _ _ _ _ K2 K1) as K; clear K2 K1;
    [|injection Hrun as <- <-; by destruct K as (? & ? & _)..].
  (* the citations *)
  rewrite bind_eq in Hrun.
  pose proof (keeps_formatCitations_loop svc plain sources format
                ltac:(done) ltac:(done) "" w3) as K1.
  unfold formatCitations in Hrun.
  destruct (formatCitations_loop svc sources format "" w3)
    as [[bibliography|e|] w4]; cbn [snd] in K1;
    pose proof (extends_by_trans _ _ _ _ K K1) as K2; clear K K1;
    [|injection Hrun as <- <-; by destruct K2 as (? & ? & _)..].
  rewrite bind_eq in Hrun.
  pose proof (keeps_reply svc plain MsgCitationsFormatted
                (Hroutine MsgCitationsFormatted I) (Hfailed _) w4) as K1.
  destruct (reply svc MsgCitationsFormatted w4) as [[[]|e|] w5];
    cbn [snd] in K1;
    pose proof (extends_by_trans _ _ _ _ K2 K1) as K; clear K2 K1;
    [|injection Hrun as <- <-; by destruct K as (? & ? & _)..].
  (* the gate *)
  rewrite bind_eq in Hrun.
  pose proof (keeps_checkPlagiarism svc plain content
                ltac:(done) ltac:(done) w5) as K1.
  destruct (checkPlagiarism svc content w5) as [[plagiarismScore|e|] w6];
    cbn [snd] in K1;
    pose proof (extends_by_trans _ _ _ _ K K1) as K2; clear K K1;
    [|injection Hrun as <- <-; by destruct K2 as (? & ? & _)..].
  destruct (Qgt_bool plagiarismScore PLAGIARISM_THRESHOLD) eqn:Hgate.
  { (* above the threshold: the notice, then the retry *)
    rewrite bind_eq in Hrun. unfold reply in Hrun. revert Hrun. run.
    destruct K2 as (Hs & Hh & evs & Hlog & Hplain).
    destruct (telegram_send svc (clock w6) _); run;
      intros [= <- <-]; cbn [session heap log]; [done|].
    split; [done|]. split; [done|].
    exists evs, plagiarismScore. by rewrite Hlog, <- app_assoc. }
  rewrite bind_eq in Hrun.
  pose proof (keeps_reply svc plain MsgPlagiarismPassed
                (Hroutine MsgPlagiarismPassed I) (Hfailed _) w6) as K1.
  destruct (reply svc MsgPlagiarismPassed w6) as [[[]|e|] w7];
    cbn [snd] in K1;
    pose proof (extends_by_trans _ _ _ _ K2 K1) as K; clear K2 K1;
    [|injection Hrun as <- <-; by destruct K as (? & ? & _)..].
  (* the document *)
  rewrite bind_eq in Hrun.
  pose proof (createWordDocument_run svc content bibliography topic w7) as D.
  cbn zeta in D.
  destruct (createWordDocument svc content bibliography topic w7)
    as [[[filename filepath]|e|] w8]; cbn [fst snd] in D;
    destruct D as (Ds & Dh & D);
    destruct K as (Hs & Hh & evs1 & Hlog1 & Hplain1);
    [|injection Hrun as <- <-; split; congruence|done].
  destruct D as (_ & -> & evsd & Dlog & Dplain).
  rewrite bind_eq in Hrun. cbn [get_session] in Hrun.
  (* the upload and the summary *)
  rewrite bind_eq in Hrun.
  pose proof (keeps_uploadToGoogleDrive svc plain ("/tmp/" +:+ filename)
                filename (studentId (session w8))
                ltac:(done) ltac:(done) w8) as K.
  destruct (uploadToGoogleDrive svc ("/tmp/" +:+ filename) filename
              (studentId (session w8)) w8) as [[driveLink|e|] w9];
    cbn [snd] in K;
    [|injection Hrun as <- <-; destruct K as (? & ? & _); split; congruence..].
  rewrite bind_eq in Hrun.
  pose proof (keeps_reply svc plain MsgDocumentsCreated
                (Hroutine MsgDocumentsCreated I) (Hfailed _) w9) as K1.
  destruct (reply svc MsgDocumentsCreated w9) as [[[]|e|] w10];
    cbn [snd] in K1;
    pose proof (extends_by_trans _ _ _ _ K K1) as K2; clear K K1;
    [|injection Hrun as <- <-; destruct K2 as (? & ? & _); split; congruence..].
  rewrite bind_eq in Hrun.
  pose proof (keeps_reply svc plain
                (MsgDraftComplete topic format length plagiarismScore
                   (List.length sources) driveLink)
                (Hroutine (MsgDraftComplete topic format length
                             plagiarismScore (List.length sources) driveLink)
                   I)
                (Hfailed _) w10) as K1.
  destruct (reply svc _ w10) as [[[]|e|] w11]; cbn [snd] in K1;
    pose proof (extends_by_trans _ _ _ _ K2 K1) as K; clear K2 K1;
    [|injection Hrun as <- <-; destruct K as (? & ? & _); split; congruence..].
  destruct K as (Hs11 & Hh11 & evs2 & Hlog2 & Hplain2).
  (* the previews *)
  destruct (chunkContent_default (slice content 0 8000)) as [chunks|]
    eqn:Hchunks; [|injection Hrun as <- <-; split; congruence].
  rewrite bind_eq in Hrun.
  pose proof (send_previews_run (take 2 chunks) 0 w11) as V. cbn zeta in V.
  destruct (send_previews svc 0 (take 2 chunks) w11) as [[[]|e|] w12];
    cbn [fst snd] in V; destruct V as (Vs & Vh & Vlog);
    [|injection Hrun as <- <-; split; congruence..].
  revert Hrun. run. intros [= <- <-].
  cbn [session heap log r_content r_bibliography r_plagiarismScore
       r_driveLink r_filename].
  split; [congruence|]. split; [done|].
  split; [f_equal; congruence|].
  exists (evs1 ++ evsd), evs2, chunks.
  split; [by rewrite Vlog, Hlog2, Dlog, Hlog1, <- !app_assoc|].
  split; [by apply Forall_app | done].
Qed.

End Activation.

(* --------------------------------------------------------------------- *)
(** ** [processDraft], however it ends                                    *)
(* --------------------------------------------------------------------- *)

Lemma rewritten_succ (k : nat) (topic : string) :
  rewritten k (topic +:+ " (rewrite to be more original)")
  = rewritten (S k) topic.
Proof. unfold rewritten. by rewrite Nat.iter_succ_r. Qed.

Section Runs.
Variable svc : Services.

(** What a run of [processDraft] does to the world, by the way it ends:
    [k] is the number of retries that came before the activation that
    finished. *)
Lemma processDraft_cases (budget : nat) (sources : list Source)
    (format : string) (length : N) :
  ∀ (topic : string) (w : World) (o : Outcome DraftResult) (w' : World),
    processDraft svc budget topic sources format length w = (o, w') →
    heap w' = heap w
    ∧ match o with
      | Returned r =>
          Qgt_bool (r_plagiarismScore r) PLAGIARISM_THRESHOLD = false
          ∧ ∃ k chunks,
              k < budget
              ∧ session w'
                = set_lastDraft
                    (Some (mkLastDraft (rewritten k topic) (r_content r)
                             (r_bibliography r) format length
                             (r_plagiarismScore r) (r_driveLink r)
                             (r_filename r)))
                    (session w)
              ∧ regenerations (log w') = regenerations (log w) + k
              ∧ files_written (log w')
                = files_written (log w)
                  ++ [("/tmp/" +:+ r_filename r,
                       document_text (r_content r) (r_bibliography r)
                         (rewritten k topic))]
              ∧ previews (log w')
                = previews (log w)
                  ++ imap (λ i chunk, (i + 1, chunk)) (take 2 chunks)
              ∧ chunkContent_default (slice (r_content r) 0 8000)
                = Some chunks
      | Threw _ | Pending => session w' = session w
      end.
Proof.
  induction budget as [|budget IH]; intros topic w o w'.
  { intros [= <- <-]. done. }
  cbn [processDraft]. rewrite bind_eq, try_catch_eq.
  pose proof (processDraft_try_cases svc topic sources format length w) as T.
  destruct (processDraft_try svc topic sources format length w)
    as [[[|r]|e|] w1]; specialize (T _ _ eq_refl); destruct T as [Th T].
  - (* a retry *)
    destruct T as (Ts & evs & q & Tlog & Tplain).
    intros Hrun. apply IH in Hrun as [Hh Hrun]. split; [congruence|].
    destruct o as [r|e|]; [|congruence..].
    destruct Hrun as (Hgate & k & chunks & Hk & Hs & Hregen & Hfiles
                      & Hprev & Hchunks).
    split; [done|]. exists (S k), chunks.
    rewrite <- rewritten_succ.
    split; [lia|]. split; [by rewrite Hs, Ts|].
    split.
    { rewrite Hregen, Tlog, !regenerations_app,
        (regenerations_plain evs Tplain). cbn. lia. }
    split.
    { rewrite Hfiles, Tlog, !files_written_app,
        (files_written_plain evs Tplain). by rewrite !app_nil_r. }
    split; [|done].
    rewrite Hprev, Tlog, !previews_app, (previews_plain evs Tplain).
    by rewrite !app_nil_r.
  - (* a finished draft *)
    destruct T as (Tgate & Ts & evs1 & evs2 & chunks & Tlog & Tp1 & Tp2
                   & Tchunks).
    intros [= <- <-]. split; [done|]. split; [done|].
    exists 0, chunks. split; [lia|]. split; [done|].
    split.
    { rewrite Tlog, !regenerations_app, (regenerations_plain evs1 Tp1),
        (regenerations_plain evs2 Tp2), regenerations_preview_events.
      cbn. lia. }
    split.
    { rewrite Tlog, !files_written_app, (files_written_plain evs1 Tp1),
        (files_written_plain evs2 Tp2).
      by rewrite files_written_preview_events, app_nil_r. }
    split; [|done].
    rewrite Tlog, !previews_app, (previews_plain evs1 Tp1),
      (previews_plain evs2 Tp2), previews_preview_events.
    reflexivity.
  - (* an error: the [catch] block rethrows *)
    pose proof (keeps_processDraft_catch svc (λ _, True) (A := Attempt)
                  topic e ltac:(done) ltac:(done) ltac:(done) ltac:(done) w1)
      as (Ks & Kh & _).
    destruct (processDraft_catch_throws svc (A := Attempt) topic e w1)
      as (e' & w2 & Hcatch).
    rewrite Hcatch in *. cbn [snd] in *. intros [= <- <-].
    split; congruence.
  - intros [= <- <-]. done.
Qed.

(** X4.  [processDraft] never touches the source arrays, and it changes
    the session only when it returns a draft: a run that throws or is still
    pending leaves the session as it was.  When it returns, the draft it
    returns is the one stored in [lastDraft], its plagiarism score was not
    above the threshold, exactly one document was written for it, and the
    topic stored carries one [" (rewrite to be more original)"] for each
    regeneration notice the run has sent. *)
Theorem processDraft_stores_what_it_returns (budget : nat) (topic : string)
    (sources : list Source) (format : string) (length : N) (w : World) :
  let run := processDraft svc budget topic sources format length w in
  heap run.2 = heap w
  ∧ match run.1 with
    | Returned r =>
        Qgt_bool (r_plagiarismScore r) PLAGIARISM_THRESHOLD = false
        ∧ ∃ k,
            k < budget
            ∧ regenerations (log run.2) = regenerations (log w) + k
            ∧ session run.2
              = set_lastDraft
                  (Some (mkLastDraft (rewritten k topic) (r_content r)
                           (r_bibliography r) format length
                           (r_plagiarismScore r) (r_driveLink r)
                           (r_filename r)))
                  (session w)
            ∧ files_written (log run.2)
              = files_written (log w)
                ++ [("/tmp/" +:+ r_filename r,
                     document_text (r_content r) (r_bibliography r)
                       (rewritten k topic))]
    | Threw _ | Pending => session run.2 = session w
    end.
Proof.
  cbn zeta.
  pose proof (processDraft_cases budget sources format length topic w) as C.
  destruct (processDraft svc budget topic sources format length w)
    as [[r|e|] w']; specialize (C _ _ eq_refl); destruct C as [Ch C];
    (split; [done|]); cbn [fst snd]; [|done..].
  destruct C as (Cgate & k & chunks & Hk & Hs & Hregen & Hfiles & _).
  split; [done|]. by exists k.
Qed.

(** The chunks of a string of at most 8000 code units are at most two. *)
Lemma preview_chunks (content : string) (chunks : list string) :
  chunkContent_default (slice content 0 8000) = Some chunks →
  take 2 chunks = chunks
  ∧ Forall (λ chunk, 0 < String.length chunk ≤ 4000) chunks
  ∧ join_chunks chunks = slice content 0 8000.
Proof.
  unfold chunkContent_default, chunkContent. intros Hrun.
  destruct (chunk_loop_count (slice content 0 8000) 4000 ltac:(lia) _ _ _ _ Hrun)
    as [Hlen Hall].
  destruct (chunk_loop_spec (slice content 0 8000) 4000 ltac:(lia)
              (String.length (slice content 0 8000)) 0 [] ltac:(lia))
    as (rest & Hrun' & Hjoin & Hmax & _).
  rewrite Hrun in Hrun'. injection Hrun' as ->. cbn [app] in *.
  split; [|split; [|done]].
  - apply take_ge. rewrite Hlen. cbn [List.length Nat.add].
    pose proof (slice_length content 0 8000) as Hslice.
    cbn [Nat.add] in Hslice. rewrite Nat.sub_0_r.
    assert (8000 = 2 * 4000) as Hdouble by (vm_compute; reflexivity).
    rewrite Hdouble in Hslice. rewrite Hdouble. clear Hdouble.
    apply Nat.lt_succ_r, Nat.Div0.div_lt_upper_bound. lia.
  - specialize (Hall (Forall_nil_2 _)).
    apply Forall_and. split; [exact Hall | exact Hmax].
Qed.

(** X5.  A run of [processDraft] that returns has delivered the first
    8000 code units of the draft as previews, and nothing else as a
    preview: at most two of them, numbered from 1, none empty and none
    longer than 4000 code units, which put together are exactly those
    first 8000 code units (the whole draft when it is shorter). *)
Theorem processDraft_previews_first_8000 (budget : nat) (topic : string)
    (sources : list Source) (format : string) (length : N) (w w' : World)
    (r : DraftResult) :
  processDraft svc budget topic sources format length w = (Returned r, w') →
  ∃ chunks,
    previews (log w')
    = previews (log w) ++ imap (λ i chunk, (i + 1, chunk)) chunks
    ∧ List.length chunks ≤ 2
    ∧ Forall (λ chunk, 0 < String.length chunk ≤ 4000) chunks
    ∧ join_chunks chunks = slice (r_content r) 0 8000.
Proof.
  intros Hrun.
  apply processDraft_cases in Hrun
    as (_ & _ & k & chunks & _ & _ & _ & _ & Hprev & Hchunks).
  apply preview_chunks in Hchunks as (Htake & Hall & Hjoin).
  rewrite Htake in Hprev. exists chunks.
  split; [done|]. split; [|done].
  rewrite <- Htake. rewrite length_take. lia.
Qed.

End Runs.

Lemma processDraft_previews_first_8000_witness :
  ∃ chunks,
    previews
      (log (processDraft (dependable no_score) 1 "Drought and crops"
              [paper_a] "APA" 5 fresh_world).2)
    = imap (λ i chunk, (i + 1, chunk)) chunks
    ∧ List.length chunks ≤ 2
    ∧ Forall (λ chunk, 0 < String.length chunk ≤ 4000) chunks
    ∧ join_chunks chunks = "An original essay.".
Proof.
  destruct (processDraft (dependable no_score) 1 "Drought and crops"
              [paper_a] "APA" 5 fresh_world) as [o w'] eqn:Hrun.
  assert (o = Returned (mkDraftResult "An original essay." "" 0
                          (Some "https://drive.example/doc")
                          "Drought_and_crops_1700000000000.txt")) as ->.
  { by vm_compute in Hrun; injection Hrun as <- _. }
  exact (processDraft_previews_first_8000 (dependable no_score) 1
           "Drought and crops" [paper_a] "APA" 5 fresh_world w' _ Hrun).
Defined.

(* --------------------------------------------------------------------- *)
(** ** A language model that fails                                        *)
(* --------------------------------------------------------------------- *)

Lemma plagiarism_requests_app (l1 l2 : list Event) :
  plagiarism_requests (l1 ++ l2)
  = plagiarism_requests l1 ++ plagiarism_requests l2.
Proof. apply omap_app. Qed.

(** X6.  When the request to the language model fails with [e] and the
    transport delivers, [processDraft] stops in its first activation: the
    user is told that the draft failed, the operator is alerted when an
    operator chat is configured, and the error
    ["Draft generation failed: " + e] is thrown again (the error of the
    alert, when the alert itself fails).  Nothing else happens: no
    citation is formatted, no plagiarism check is made, no file is
    written, no retry is started, and the session and the arrays are as
    before. *)
Theorem processDraft_reports_model_failure (svc : Services) (budget : nat)
    (topic : string) (sources : list Source) (format : string) (length : N)
    (w : World) (e : Error) :
  transport_delivers svc →
  groq_draft svc (S (clock w)) topic sources format length = HttpFail e →
  let failure := "Draft generation failed: " +:+ e in
  let alert := "Draft generation failed for " +:+ topic +:+ ": " +:+ failure in
  let told :=
    [Replied MsgGenerating; DraftRequested topic;
     ConsoleError "Groq draft error:" e;
     ConsoleError "Draft processing error:" failure;
     Replied (MsgDraftFailed failure)] in
  processDraft svc (S budget) topic sources format length w
  = if env_set (ADMIN_CHAT_ID svc) then
      match admin_post svc (3 + clock w) alert with
      | None =>
          (Threw failure,
           mkWorld (session w) (heap w)
             (log w ++ told ++ [AdminAlerted alert]) (4 + clock w))
      | Some e' =>
          (Threw e',
           mkWorld (session w) (heap w) (log w ++ told) (4 + clock w))
      end
    else
      (Threw failure,
       mkWorld (session w) (heap w) (log w ++ told) (3 + clock w)).
Proof.
  intros Hdelivers Hgroq. cbn zeta.
  cbn [processDraft]. unfold processDraft_try, processDraft_catch,
    generateDraft, reply.
  run. rewrite !Hdelivers. run. rewrite Hgroq. run. rewrite !Hdelivers. run.
  destruct (env_set (ADMIN_CHAT_ID svc)); run.
  - destruct (admin_post svc _ _); run; by rewrite <- !app_assoc.
  - by rewrite <- !app_assoc.
Qed.

Lemma processDraft_reports_model_failure_witness :
  let run :=
    processDraft groq_down 3 "Drought and crops" [paper_a] "APA" 5
      fresh_world in
  run.1 = Threw "Draft generation failed: Request failed with status code 503"
  ∧ delivered (log run.2)
    = [MsgGenerating;
       MsgDraftFailed
         "Draft generation failed: Request failed with status code 503"]
  ∧ files_written (log run.2) = []
  ∧ session run.2 = empty_session.
Proof.
  cbn zeta.
  rewrite (processDraft_reports_model_failure groq_down 2 "Drought and crops"
             [paper_a] "APA" 5 fresh_world
             "Request failed with status code 503");
    [by repeat split | done | done].
Defined.

(* --------------------------------------------------------------------- *)
(** ** What the plagiarism check reads                                    *)
(* --------------------------------------------------------------------- *)

(** X7.  [checkPlagiarism] never throws and makes exactly one request.
    The text it submits is the first 5000 code units of the content (the
    whole content when it is shorter), so two contents that agree on their
    first 5000 code units are checked alike: what comes after them has no
    influence on the verdict.  The session, the arrays and the chat are
    not touched. *)
Theorem checkPlagiarism_reads_first_5000 (svc : Services) (content : string)
    (w : World) :
  (∃ score w',
     checkPlagiarism svc content w = (Returned score, w')
     ∧ session w' = session w
     ∧ heap w' = heap w
     ∧ clock w' = S (clock w)
     ∧ delivered (log w') = delivered (log w)
     ∧ plagiarism_requests (log w')
       = plagiarism_requests (log w) ++ [slice content 0 5000])
  ∧ String.length (slice content 0 5000) = 5000 `min` String.length content
  ∧ ∀ other,
      slice other 0 5000 = slice content 0 5000 →
      checkPlagiarism svc other w = checkPlagiarism svc content w.
Proof.
  split; [|split].
  - unfold checkPlagiarism. generalize (slice content 0 5000) as text.
    intros text. run.
    destruct (eden_plagiarism svc (clock w) text) as [score|e]; run;
      eexists _, _; (split; [reflexivity|]); cbn [session heap log clock];
      rewrite ?plagiarism_requests_app, ?delivered_app, ?app_nil_r;
      by repeat split.
  - pose proof (slice_length content 0 5000) as Hlen.
    by rewrite Nat.sub_0_r in Hlen.
  - intros other Hsame. unfold checkPlagiarism. by rewrite Hsame.
Qed.

(** Two drafts that differ after their first 5000 code units. *)
Lemma checkPlagiarism_reads_first_5000_witness :
  long_essay "then a copied page" ≠ long_essay "then my own words"
  ∧ checkPlagiarism (dependable always_half)
      (long_essay "then a copied page") fresh_world
    = checkPlagiarism (dependable always_half)
        (long_essay "then my own words") fresh_world.
Proof.
  split.
  - intros Heq. apply (f_equal (String.substring 5000 6)) in Heq.
    vm_compute in Heq. discriminate.
  - destruct (checkPlagiarism_reads_first_5000 (dependable always_half)
                (long_essay "then my own words") fresh_world)
      as (_ & _ & Hsame).
    apply Hsame. vm_compute. reflexivity.
Defined.

(* --------------------------------------------------------------------- *)
(** ** Computations only append to the log                                *)
(* --------------------------------------------------------------------- *)

Lemma appends_keeps {A : Type} (P : Event → Prop) (m : M A) :
  keeps P m → appends m.
Proof. intros Hm w. destruct (Hm w) as (_ & _ & evs & Hlog & _). by exists evs. Qed.

Lemma appends_same {A : Type} (m : M A) :
  (∀ w, log (m w).2 = log w) → appends m.
Proof. intros Hm w. exists []. by rewrite app_nil_r. Qed.

Lemma appends_bind {A B : Type} (m : M A) (k : A → M B) :
  appends m → (∀ a, appends (k a)) → appends (bind m k).
Proof.
  intros Hm Hk w. rewrite bind_eq. destruct (Hm w) as [evs1 Hlog1].
  destruct (m w) as [[a|e|] w1]; cbn [snd] in *; [|by exists evs1..].
  destruct (Hk a w1) as [evs2 Hlog2]. exists (evs1 ++ evs2).
  by rewrite Hlog2, Hlog1, app_assoc.
Qed.

Lemma appends_try_catch {A : Type} (body : M A) (handler : Error → M A) :
  appends body → (∀ e, appends (handler e)) → appends (try_catch body handler).
Proof.
  intros Hb Hh w. rewrite try_catch_eq. destruct (Hb w) as [evs1 Hlog1].
  destruct (body w) as [[a|e|] w1]; cbn [snd] in *;
    [by exists evs1| |by exists evs1].
  destruct (Hh e w1) as [evs2 Hlog2]. exists (evs1 ++ evs2).
  by rewrite Hlog2, Hlog1, app_assoc.
Qed.

Lemma appends_emit (ev : Event) : appends (emit ev).
Proof. intros w. by exists [ev]. Qed.

(** One step of a proof that a computation only appends to the log. *)
Ltac appends_step :=
  first
    [ apply appends_emit
    | apply appends_same; done
    | apply appends_bind; [|intros ?]
    | apply appends_try_catch; [|intros ?]
    | case_match ].

Section Appending.
Variable svc : Services.

Lemma appends_reply (m : Msg) : appends (reply svc m).
Proof. unfold reply. repeat appends_step. Qed.

Lemma appends_reply_nowait (m : Msg) : appends (reply_nowait svc m).
Proof. unfold reply_nowait. repeat appends_step. Qed.

Lemma appends_processDraft_try (topic : string) (sources : list Source)
    (format : string) (length : N) :
  appends (processDraft_try svc topic sources format length).
Proof.
  unfold processDraft_try.
  apply appends_bind; [apply appends_reply | intros _].
  apply appends_bind;
    [by apply (appends_keeps (λ _, True)), keeps_generateDraft | intros ?].
  apply appends_bind; [apply appends_reply | intros _].
  apply appends_bind;
    [by apply (appends_keeps (λ _, True)), keeps_formatCitations_loop
    | intros ?].
  apply appends_bind; [apply appends_reply | intros _].
  apply appends_bind;
    [by apply (appends_keeps (λ _, True)), keeps_checkPlagiarism | intros ?].
  case_match.
  { apply appends_bind; [apply appends_reply | intros _].
    by apply appends_same. }
  apply appends_bind; [apply appends_reply | intros _].
  apply appends_bind;
    [by apply (appends_keeps (λ _, True)), keeps_createWordDocument
    | intros [? ?]].
  apply appends_bind; [by apply appends_same | intros ?].
  apply appends_bind;
    [by apply (appends_keeps (λ _, True)), keeps_uploadToGoogleDrive
    | intros ?].
  apply appends_bind; [apply appends_reply | intros _].
  apply appends_bind; [apply appends_reply | intros _].
  case_match; [|by apply appends_same].
  apply appends_bind;
    [by apply (appends_keeps (λ _, True)), keeps_send_previews | intros ?].
  apply appends_bind; [|intros _]; by apply appends_same.
Qed.

Lemma appends_processDraft (budget : nat) (sources : list Source)
    (format : string) (length : N) :
  ∀ topic, appends (processDraft svc budget topic sources format length).
Proof.
  induction budget as [|budget IH]; intros topic; [by apply appends_same|].
  cbn [processDraft]. apply appends_bind.
  - apply appends_try_catch; [apply appends_processDraft_try|].
    intros e. by apply (appends_keeps (λ _, True)), keeps_processDraft_catch.
  - intros [|r]; [apply IH | by apply appends_same].
Qed.

Lemma appends_processSources (topic : string) :
  appends (processSources svc topic).
Proof. unfold processSources. repeat appends_step. Qed.

End Appending.

(* --------------------------------------------------------------------- *)
(** ** Numbers written and read back                                      *)
(* --------------------------------------------------------------------- *)

Lemma is_digit_cases (c : ascii) :
  is_digit c = true →
  c ∈ ["0"; "1"; "2"; "3"; "4"; "5"; "6"; "7"; "8"; "9"]%char.
Proof.
  destruct c as [[] [] [] [] [] [] [] []]; intros Hc; try discriminate Hc;
    set_solver.
Qed.

Lemma digit_value_digit (c : ascii) :
  is_digit c = true → digit_value 10 c = Some (N_of_ascii c - 48)%N.
Proof.
  intros Hc. apply is_digit_cases in Hc.
  repeat (apply elem_of_cons in Hc as [->|Hc]; [reflexivity|]).
  by apply elem_of_nil in Hc.
Qed.

Lemma digit_value_pretty (d : N) :
  (d < 10)%N → digit_value 10 (pretty_N_char d) = Some d.
Proof.
  intros Hd. assert (∃ k, k < 10 ∧ d = N.of_nat k) as (k & Hk & ->).
  { exists (N.to_nat d). split; lia. }
  do 10 (destruct k as [|k]; [reflexivity|]). lia.
Qed.

Lemma parse_digits_app (a b : string) :
  every is_digit a = true →
  ∀ acc, parse_digits 10 acc (a +:+ b)
         = parse_digits 10 (parse_digits 10 acc a) b.
Proof.
  induction a as [|c a IH]; intros Ha acc; [reflexivity|].
  simpl in Ha. apply andb_prop in Ha as [Hc Ha].
  rewrite string_app_cons. cbn [parse_digits].
  rewrite (digit_value_digit c Hc). by apply IH.
Qed.

Lemma pretty_N_go_app (x : N) :
  ∀ s, pretty_N_go x s = pretty_N_go x "" +:+ s.
Proof.
  induction (N.lt_wf_0 x) as [x _ IH]; intros s.
  destruct (decide (x = 0)%N) as [->|Hx]; [by rewrite !pretty_N_go_0|].
  rewrite !(pretty_N_go_step x) by lia.
  rewrite (IH (x `div` 10)%N) by (apply N.div_lt; lia).
  rewrite (IH (x `div` 10)%N ltac:(apply N.div_lt; lia) (String _ "")).
  by rewrite string_app_assoc.
Qed.

Lemma parse_digits_pretty_N_go (x : N) :
  (0 < x)%N → parse_digits 10 None (pretty_N_go x "") = Some x.
Proof.
  induction (N.lt_wf_0 x) as [x _ IH]; intros Hx.
  rewrite pretty_N_go_step, pretty_N_go_app by done.
  rewrite parse_digits_app by by apply pretty_N_go_digits.
  cbn [parse_digits].
  rewrite digit_value_pretty by (apply N.mod_lt; lia).
  destruct (decide (x `div` 10 = 0)%N) as [Hsmall|Hbig].
  - rewrite Hsmall, pretty_N_go_0. cbn [parse_digits default].
    f_equal. pose proof (N.div_mod x 10). lia.
  - rewrite IH by first [apply N.div_lt; lia | by apply N.neq_0_lt_0].
    cbn [default].
    f_equal. symmetry. by apply N.div_mod.
Qed.

Lemma is_digit_not_space (c : ascii) : is_digit c = true → is_space c = false.
Proof.
  intros Hc. apply is_digit_cases in Hc.
  repeat (apply elem_of_cons in Hc as [->|Hc]; [reflexivity|]).
  by apply elem_of_nil in Hc.
Qed.

(** [parseInt] on a run of decimal digits reads it in base ten. *)
Lemma parseInt_digits (s : string) :
  every is_digit s = true →
  parseInt s = Z.of_N <$> parse_digits 10 None s.
Proof.
  destruct s as [|c s]; [reflexivity|]. simpl.
  intros [Hc Hs]%andb_prop. unfold parseInt.
  cbn [skip_spaces]. rewrite (is_digit_not_space c Hc).
  assert (∀ r, (let '(radix, s3) := (10%N, r) in
                match parse_digits radix None s3 with
                | Some n => Some (1 * Z.of_N n)%Z
                | None => None
                end) = Z.of_N <$> parse_digits 10 None r) as Hten.
  { intros r. cbn. destruct (parse_digits 10 None r); [|done].
    cbn. f_equal. lia. }
  apply is_digit_cases in Hc.
  apply elem_of_cons in Hc as [->|Hc].
  { destruct s as [|c2 s]; [reflexivity|].
    simpl in Hs. apply andb_prop in Hs as [Hc2 Hs].
    apply is_digit_cases in Hc2.
    repeat (apply elem_of_cons in Hc2 as [->|Hc2]; [apply Hten|]).
    by apply elem_of_nil in Hc2. }
  repeat (apply elem_of_cons in Hc as [->|Hc]; [apply Hten|]).
  by apply elem_of_nil in Hc.
Qed.

(** A natural number written in decimal and read by [parseInt] is the
    number. *)
Lemma parseInt_pretty_N (x : N) : parseInt (pretty x) = Some (Z.of_N x).
Proof.
  rewrite parseInt_digits by apply pretty_N_digits.
  unfold pretty, pretty_N. destruct (decide (x = 0)%N) as [->|Hx]; [done|].
  rewrite parse_digits_pretty_N_go by lia. done.
Qed.

Lemma parseInt_pretty_nat (i : nat) : parseInt (pretty i) = Some (Z.of_nat i).
Proof.
  unfold pretty, pretty_nat. rewrite parseInt_pretty_N. f_equal. lia.
Qed.

(* --------------------------------------------------------------------- *)
(** ** The session middleware                                             *)
(* --------------------------------------------------------------------- *)

(** The middleware, run to the end. *)
Lemma middleware_defaults (chat : N) (w : World) :
  middleware chat w
  = (Returned (),
     mkWorld (with_defaults chat (length (heap w)) (session w))
       (match approvedSources (session w) with
        | Some _ => heap w
        | None => heap w ++ [[]]
        end)
       (log w) (clock w)).
Proof.
  unfold middleware, with_defaults. run. fields.
  destruct (approvedSources (session w)) as [a|] eqn:Ha; run;
    unfold set_chatId, set_approvedSources, set_userType, set_isAggregating,
      set_messages; fields; by rewrite ?Ha.
Qed.

(** X8.  The session middleware never throws, calls no service and writes
    nothing to the log.  After it, [messages], [isAggregating], [userType]
    and [approvedSources] are set (a value that was there and is truthy is
    kept), [chatId] is the chat's identifier, and every other property is
    as before; the approved and the pending records are the same.  Running
    it again changes nothing. *)
Theorem middleware_settles_the_defaults (chat : N) (w : World) :
  ∃ w1,
    middleware chat w = (Returned (), w1)
    ∧ middleware chat w1 = (Returned (), w1)
    ∧ log w1 = log w
    ∧ clock w1 = clock w
    ∧ messages (session w1) = Some (default [] (messages (session w)))
    ∧ isAggregating (session w1)
      = Some (default false (isAggregating (session w)))
    ∧ userType (session w1)
      = Some (match userType (session w) with
              | Some u => if String.eqb u "" then "guest" else u
              | None => "guest"
              end)
    ∧ is_Some (approvedSources (session w1))
    ∧ chatId (session w1) = Some (pretty chat)
    ∧ (pendingSources (session w1), studentId (session w1),
       waitingForRevision (session w1), waitingForComment (session w1),
       currentTopic (session w1), lastDraft (session w1))
      = (pendingSources (session w), studentId (session w),
         waitingForRevision (session w), waitingForComment (session w),
         currentTopic (session w), lastDraft (session w))
    ∧ (well_formed w →
       well_formed w1
       ∧ approved_list w1 = approved_list w
       ∧ pending_list w1 = pending_list w).
Proof.
  eexists. split; [apply middleware_defaults|].
  split.
  { rewrite middleware_defaults. cbn [session heap log clock].
    unfold with_defaults. fields. cbn [default]. unfold id.
    destruct (userType (session w)) as [u|]; [|done].
    destruct (String.eqb u "") eqn:Hu; [done | by rewrite Hu]. }
  cbn [session heap log clock]. unfold with_defaults. fields.
  repeat (split; [done|]).
  intros Hwf.
  by apply (middleware_views chat w _ (middleware_defaults chat w)).
Qed.

Lemma middleware_settles_the_defaults_witness :
  ∃ w1,
    middleware 42 fresh_world = (Returned (), w1)
    ∧ userType (session w1) = Some "guest"
    ∧ well_formed w1.
Proof.
  destruct (middleware_settles_the_defaults 42 fresh_world)
    as (w1 & Hrun & _ & _ & _ & _ & _ & Htype & _ & _ & _ & Hviews).
  exists w1. split; [exact Hrun|]. split; [exact Htype|].
  apply Hviews. by vm_compute.
Defined.

(* --------------------------------------------------------------------- *)
(** ** Collecting the fragments of a request                              *)
(* --------------------------------------------------------------------- *)

Section Fragments.
Variable svc : Services.
Variable budget : nat.
Variable chat : N.

(** The first text of a request. *)
Lemma on_text_opens (text : string) (w : World) :
  default false (isAggregating (session w)) = false →
  truthy (waitingForRevision (session w)) = false →
  truthy (waitingForComment (session w)) = false →
  session (on_text svc chat text w).2
  = set_currentTopic (Some text)
      (set_messages (Some [text])
         (set_isAggregating (Some true) (session w))).
Proof.
  intros Hagg Hrev Hcom. unfold on_text, reply_nowait. run.
  rewrite Hrev, Hcom, Hagg. run. by destruct (telegram_send _ _ _).
Qed.

(** A text that follows. *)
Lemma on_text_adds (text : string) (fragments : list string) (w : World) :
  isAggregating (session w) = Some true →
  messages (session w) = Some fragments →
  truthy (waitingForRevision (session w)) = false →
  truthy (waitingForComment (session w)) = false →
  session (on_text svc chat text w).2
  = set_messages (Some (fragments ++ [text])) (session w).
Proof.
  intros Hagg Hmsg Hrev Hcom. unfold on_text, reply_nowait. run.
  rewrite Hrev, Hcom, Hagg, Hmsg.
  change (default false (Some true)) with true. run.
  by destruct (telegram_send _ _ _).
Qed.

(** A text message that [bot.start] does not take is handled by
    [bot.on('text')]. *)
Lemma handler_free_text (u : Update) (text : string) :
  free_text svc u = Some text →
  handler svc budget chat u = on_text svc chat text.
Proof.
  destruct u as [data|t entities]; [done|]. cbn [free_text handler].
  by destruct (start_matches _ _ _); [|intros [= ->]].
Qed.

Lemma step_text_opens (u : Update) (text : string) (w : World) :
  free_text svc u = Some text →
  default false (isAggregating (session w)) = false →
  truthy (waitingForRevision (session w)) = false →
  truthy (waitingForComment (session w)) = false →
  collecting text [] (step svc budget chat w u).
Proof.
  intros Hu Hagg Hrev Hcom. unfold step, collecting.
  destruct (handle_update_store svc budget chat u w)
    as (w1 & Hrun & -> & _).
  rewrite middleware_defaults in Hrun. injection Hrun as <-.
  rewrite (handler_free_text u text Hu).
  rewrite on_text_opens; cbn [session]; unfold with_defaults;
    fields; by rewrite ?Hagg.
Qed.

Lemma step_text_adds (u : Update) (first text : string) (more : list string)
    (w : World) :
  free_text svc u = Some text →
  collecting first more w →
  collecting first (more ++ [text]) (step svc budget chat w u).
Proof.
  intros Hu (Hmsg & Hagg & Htopic & Hrev & Hcom). unfold step, collecting.
  destruct (handle_update_store svc budget chat u w)
    as (w1 & Hrun & -> & _).
  rewrite middleware_defaults in Hrun. injection Hrun as <-.
  rewrite (handler_free_text u text Hu).
  rewrite (on_text_adds text (first :: more)); cbn [session];
    unfold with_defaults; fields; by rewrite ?Hagg, ?Hmsg.
Qed.

Lemma run_texts_collect (first : string) (us : list Update)
    (rest : list string) :
  Forall2 (λ u text, free_text svc u = Some text) us rest →
  ∀ more w,
    collecting first more w →
    collecting first (more ++ rest) (run_updates svc budget chat us w).
Proof.
  induction 1 as [|u text us rest Hu _ IH]; intros more w Hw.
  - by rewrite app_nil_r.
  - cbn [run_updates foldl].
    replace (more ++ text :: rest) with ((more ++ [text]) ++ rest)
      by by rewrite <- app_assoc.
    apply IH. by apply step_text_adds.
Qed.

(** X9.  In a chat that is not aggregating and has no waiting marker
    set, a sequence of text messages, none of which [bot.start] takes, is
    collected in the order it comes in: afterwards [messages] holds
    exactly their texts, the session is aggregating and the current topic
    is the first of them, whatever the transport does with the
    acknowledgements.  A command other than [/start] is such a message. *)
Theorem text_fragments_accumulate (us : list Update) (first : string)
    (rest : list string) (w : World) :
  Forall2 (λ u text, free_text svc u = Some text) us (first :: rest) →
  default false (isAggregating (session w)) = false →
  truthy (waitingForRevision (session w)) = false →
  truthy (waitingForComment (session w)) = false →
  let w' := run_updates svc budget chat us w in
  messages (session w') = Some (first :: rest)
  ∧ isAggregating (session w') = Some true
  ∧ currentTopic (session w') = Some first.
Proof.
  intros Hus Hagg Hrev Hcom. cbn zeta.
  apply Forall2_cons_inv_r in Hus as (u & us' & Hu & Hus' & ->).
  pose proof (step_text_opens u first w Hu Hagg Hrev Hcom) as Hfirst.
  apply (run_texts_collect first us' rest Hus' []) in Hfirst.
  by destruct Hfirst as (? & ? & ? & _).
Qed.

End Fragments.

Lemma text_fragments_accumulate_witness :
  let w' :=
    run_updates (dependable no_score) 0 42
      [Text "Drought" []; Text "and crops" [];
       Text "/sources" [mkEntity "bot_command" 0 8]] fresh_world in
  messages (session w') = Some ["Drought"; "and crops"; "/sources"]
  ∧ isAggregating (session w') = Some true
  ∧ currentTopic (session w') = Some "Drought".
Proof.
  apply (text_fragments_accumulate (dependable no_score) 0 42
           [Text "Drought" []; Text "and crops" [];
            Text "/sources" [mkEntity "bot_command" 0 8]]
           "Drought" ["and crops"; "/sources"] fresh_world); try done.
  by repeat constructor.
Defined.

(* --------------------------------------------------------------------- *)
(** ** Every callback is acknowledged                                     *)
(* --------------------------------------------------------------------- *)

Section Acknowledgement.
Variable svc : Services.
Variable budget : nat.
Variable chat : N.

(** The handler is a branch inside the frame of [try], [catch] and
    [ctx.answerCbQuery()], whatever the tag. *)
Lemma on_callback_query_frame (data : string) :
  ∃ branch, on_callback_query svc budget chat data = callback_frame svc branch.
Proof. eexists. unfold on_callback_query, callback_frame. reflexivity. Qed.

(** X10.  However a callback query is tagged and whatever its branch
    does, a handler that returns has acknowledged the query as its last
    act, and the only error that can leave the handler is the one of a
    failed attempt to tell the user that the request could not be
    processed. *)
Theorem callback_query_is_acknowledged (data : string) (w : World) :
  let run := on_callback_query svc budget chat data w in
  match run.1 with
  | Returned _ => last (log run.2) = Some AnsweredCbQuery
  | Threw _ => last (log run.2) = Some (ReplyFailed MsgCallbackError)
  | Pending => True
  end.
Proof.
  cbn zeta. destruct (on_callback_query_frame data) as [branch ->].
  unfold callback_frame. rewrite bind_eq, try_catch_eq.
  destruct (branch w) as [[[]|e|] w1]; [| |done].
  - apply last_snoc.
  - unfold reply. run.
    destruct (telegram_send svc (clock w1) MsgCallbackError); run;
      apply last_snoc.
Qed.

End Acknowledgement.

(* --------------------------------------------------------------------- *)
(** ** The download button                                                *)
(* --------------------------------------------------------------------- *)

(** X11.  With a draft stored in the session, the [download_files]
    button hands the draft's file to [deliverFiles] and drops the message
    that comes back: nothing is sent to the chat and no service is called;
    the query is only acknowledged.  Without a stored draft the user is
    told that there is no file. *)
Theorem download_files_sends_nothing (svc : Services) (budget : nat)
    (chat : N) (w : World) :
  match lastDraft (session w) with
  | Some _ =>
      on_callback_query svc budget chat "download_files" w
      = (Returned (),
         mkWorld (session w) (heap w)
           (log w ++ [FilesDelivered chat 1; AnsweredCbQuery]) (clock w))
  | None =>
      delivered (log (on_callback_query svc budget chat "download_files" w).2)
      = delivered (log w)
        ++ match telegram_send svc (clock w) MsgNoFiles with
           | None => [MsgNoFiles]
           | Some _ =>
               match telegram_send svc (S (clock w)) MsgCallbackError with
               | None => [MsgCallbackError]
               | Some _ => []
               end
           end
  end.
Proof.
  unfold on_callback_query.
  change (startsWith "download_files" "type_") with false.
  change (startsWith "download_files" "rate_") with false.
  change (startsWith "download_files" "comment_") with false.
  change (String.eqb "download_files" "approve_draft") with false.
  change (String.eqb "download_files" "download_files") with true.
  cbv iota. unfold reply. run.
  destruct (lastDraft (session w)); run.
  - by rewrite <- !app_assoc.
  - destruct (telegram_send svc (clock w) MsgNoFiles); run.
    + destruct (telegram_send svc (S (clock w)) MsgCallbackError); run;
        by rewrite !delivered_app, ?app_nil_r.
    + by rewrite !delivered_app, ?app_nil_r.
Qed.

(* --------------------------------------------------------------------- *)
(** ** Approving all sources shares the array                             *)
(* --------------------------------------------------------------------- *)

Section Sharing.
Variable svc : Services.
Variable budget : nat.
Variable chat : N.

(** Approving the record at an index of the pending batch. *)
Lemma approve_by_index (rest : string) (x : Source) (w : World) :
  well_formed w →
  pending_at w (parseInt rest) = Some x →
  let w' := (on_callback_query svc budget chat ("approve_source_" +:+ rest) w).2 in
  well_formed w'
  ∧ approved_list w' = approved_list w ++ [x]
  ∧ pendingSources (session w') = pendingSources (session w)
  ∧ (approvedSources (session w) = pendingSources (session w) →
     pending_list w' = pending_list w ++ [x])
  ∧ (approvedSources (session w) ≠ pendingSources (session w) →
     pending_list w' = pending_list w).
Proof.
  intros [Happroved Hpending] Hx. cbn zeta.
  pose proof (callback_approve_source_store svc budget chat rest w) as Hstore.
  cbn zeta in Hstore. rewrite Hx in Hstore.
  assert (is_Some (pendingSources (session w))) as [p Hp].
  { unfold pending_at in Hx. by destruct (pendingSources (session w)). }
  specialize (Hpending p Hp).
  unfold well_formed, approved_list, pending_list.
  destruct (approvedSources (session w)) as [a|] eqn:Ha;
    destruct Hstore as [-> ->]; fields; rewrite ?Ha, ?Hp.
  - specialize (Happroved a eq_refl). rewrite length_alter.
    rewrite deref_push_same by done.
    split; [split; by intros ? [= <-]|]. split; [done|]. split; [done|].
    split.
    + intros [= <-]. by rewrite deref_push_same.
    + intros Hne. rewrite deref_push_other; [done | congruence].
  - rewrite length_alter, length_app. cbn [length].
    rewrite deref_push_same by (rewrite length_app; cbn [length]; lia).
    rewrite deref_fresh. split; [split; intros ? [= <-]; lia|].
    split; [done|]. split; [done|]. split; [done|]. intros _.
    rewrite deref_push_other by lia. by apply deref_old.
Qed.

(** X12.  [approve_all_sources] does not copy the pending batch: after
    it, [approvedSources] and [pendingSources] are one and the same array.
    The approved records are then the pending ones, and a source approved
    by its index afterwards is appended to both: the pending batch itself
    grows by the record just approved. *)
Theorem approve_all_shares_the_array (p : nat) (w : World) :
  well_formed w →
  pendingSources (session w) = Some p →
  let w1 := (on_callback_query svc budget chat "approve_all_sources" w).2 in
  approvedSources (session w1) = Some p
  ∧ pendingSources (session w1) = Some p
  ∧ approved_list w1 = pending_list w
  ∧ pending_list w1 = pending_list w
  ∧ ∀ rest x,
      pending_at w1 (parseInt rest) = Some x →
      let w2 :=
        (on_callback_query svc budget chat ("approve_source_" +:+ rest) w1).2 in
      approved_list w2 = pending_list w ++ [x]
      ∧ pending_list w2 = pending_list w ++ [x].
Proof.
  intros Hwf Hp. cbn zeta.
  pose proof (callback_approve_all_store svc budget chat w) as Hstore.
  cbn zeta in Hstore. rewrite Hp in Hstore. destruct Hstore as [Hs Hh].
  set (w1 := (on_callback_query svc budget chat "approve_all_sources" w).2)
    in *.
  assert (approvedSources (session w1) = Some p) as Ha1 by by rewrite Hs.
  assert (pendingSources (session w1) = Some p) as Hp1 by by rewrite Hs.
  assert (approved_list w1 = pending_list w) as Hal
    by (unfold approved_list, pending_list; by rewrite Ha1, Hp, Hh).
  assert (pending_list w1 = pending_list w) as Hpl
    by (unfold pending_list; by rewrite Hp1, Hp, Hh).
  repeat (split; [done|]).
  intros rest x Hx.
  assert (well_formed w1) as Hwf1.
  { destruct Hwf as [_ Hpending]. specialize (Hpending p Hp).
    split; intros a; rewrite ?Ha1, ?Hp1; intros [= <-]; by rewrite Hh. }
  destruct (approve_by_index rest x w1 Hwf1 Hx) as (_ & Ha2 & _ & Hp2 & _).
  split; [by rewrite Ha2, Hal|].
  rewrite Hp2 by congruence. by rewrite Hpl.
Qed.

End Sharing.

Lemma approve_all_shares_the_array_witness :
  let w2 :=
    run_updates (dependable no_score) 0 42
      [CallbackQuery "approve_all_sources"; CallbackQuery "approve_source_1"]
      world_with_batch in
  approved_list w2 = [paper_a; paper_b; paper_c; paper_b]
  ∧ pending_list w2 = [paper_a; paper_b; paper_c; paper_b].
Proof.
  assert (well_formed world_with_batch) as Hwf.
  { split; intros address [= <-]; simpl; lia. }
  destruct (approve_all_shares_the_array (dependable no_score) 0 42 0
              world_with_batch Hwf eq_refl) as (_ & _ & _ & _ & Hnext).
  exact (Hnext "1" paper_b eq_refl).
Defined.

(* --------------------------------------------------------------------- *)
(** ** The keyboard of [/sources]                                         *)
(* --------------------------------------------------------------------- *)

Lemma source_rows_lookup (sources : list Source) :
  ∀ i rows,
    source_rows i sources = Some rows →
    length rows = length sources
    ∧ forallb has_string_title sources = true
    ∧ ∀ k source,
        sources !! k = Some source →
        ∃ t, title source = JStr t
             ∧ rows !! k
               = Some [mkButton (CaptionSource (slice t 0 40))
                         ("approve_source_" +:+ pretty (i + k))].
Proof.
  induction sources as [|source rest IH]; intros i rows; cbn [source_rows].
  - intros [= <-]. by repeat split.
  - unfold has_string_title at 1. cbn [forallb].
    destruct (title source) as [| | |t] eqn:Htitle; try discriminate.
    destruct (source_rows (S i) rest) as [rows'|] eqn:Hrows; [|discriminate].
    intros [= <-]. destruct (IH _ _ Hrows) as (Hlen & Hall & Hlookup).
    split; [by cbn [length]; rewrite Hlen|].
    split; [exact Hall|].
    intros [|k] x; cbn [lookup list_lookup].
    + intros [= <-]. exists t. by rewrite Nat.add_0_r.
    + intros Hx. destruct (Hlookup k x Hx) as (t' & Ht' & Hrow).
      exists t'. split; [done|].
      replace (i + S k) with (S i + k) by lia. exact Hrow.
Qed.

Section Keyboard.
Variable svc : Services.
Variable budget : nat.
Variable chat : N.

(** [/sources], run to the end when sources are found. *)
Lemma command_sources_run (sources : list Source) (w : World) :
  transport_delivers svc →
  (∀ topic, source_pipeline svc (S (clock w)) topic = HttpOk sources) →
  sources ≠ [] →
  forallb has_string_title (take 5 sources) = true →
  ∃ w1,
    command_sources svc w = (Returned (), w1)
    ∧ pending_list w1 = sources
    ∧ pendingSources (session w1) = Some (length (heap w))
    ∧ approvedSources (session w1) = approvedSources (session w)
    ∧ heap w1 = heap w ++ [sources].
Proof.
  intros Hdelivers Hpipeline Hsome Htitles.
  unfold command_sources, processSources, reply. run.
  rewrite !Hdelivers. run. rewrite Hpipeline. run.
  destruct sources as [|source rest]; [done|]. cbn [length Nat.eqb].
  rewrite Htitles. cbn [negb]. run. rewrite Hdelivers. run.
  eexists. split; [reflexivity|]. unfold pending_list. fields.
  cbn [session heap]. fields. by rewrite deref_fresh.
Qed.

(** X13.  The buttons that [/sources] shows and the handler of
    [approve_source_<index>] agree.  When the command has found sources,
    they are the pending batch.  Row [i] of the keyboard, for each of the
    first five sources, is one button that shows the first 40 code units
    of the title of source [i] and carries the tag
    [approve_source_<i>]; the last row holds the two general buttons.  And
    the tag [approve_source_<i>], for any index [i] of the batch, appends
    exactly source [i] to the approved sources. *)
Theorem sources_keyboard_buttons_approve (sources : list Source)
    (rows : list (list Button)) (w : World) :
  transport_delivers svc →
  well_formed w →
  (∀ topic, source_pipeline svc (S (clock w)) topic = HttpOk sources) →
  sources ≠ [] →
  sources_keyboard sources = Some rows →
  ∃ w1,
    command_sources svc w = (Returned (), w1)
    ∧ pending_list w1 = sources
    ∧ approved_list w1 = approved_list w
    ∧ length rows = length sources `min` 5 + 1
    ∧ last rows
      = Some [mkButton CaptionApproveAll "approve_all_sources";
              mkButton CaptionCancel "cancel_sources"]
    ∧ (∀ i source,
         i < 5 → sources !! i = Some source →
         ∃ t, title source = JStr t
              ∧ rows !! i
                = Some [mkButton (CaptionSource (slice t 0 40))
                          ("approve_source_" +:+ pretty i)])
    ∧ (∀ i source,
         sources !! i = Some source →
         approved_list
           (on_callback_query svc budget chat
              ("approve_source_" +:+ pretty i) w1).2
         = approved_list w1 ++ [source]).
Proof.
  intros Hdelivers [Happroved Hpending] Hpipeline Hsome Hkeyboard.
  unfold sources_keyboard in Hkeyboard.
  destruct (source_rows 0 (take 5 sources)) as [rows'|] eqn:Hrows;
    [|discriminate].
  injection Hkeyboard as <-.
  destruct (source_rows_lookup _ _ _ Hrows) as (Hlen & Htitles & Hlookup).
  destruct (command_sources_run sources w Hdelivers Hpipeline Hsome Htitles)
    as (w1 & Hrun & Hbatch & Hp1 & Ha1 & Hh1).
  exists w1. split; [done|]. split; [done|].
  assert (well_formed w1) as Hwf1.
  { split; intros a; rewrite ?Ha1, ?Hp1, Hh1, length_app; cbn [length].
    - intros Ha. specialize (Happroved a Ha). lia.
    - intros [= <-]. lia. }
  split.
  { unfold approved_list. rewrite Ha1, Hh1.
    destruct (approvedSources (session w)) as [a|] eqn:Ha; [|done].
    by apply deref_old, Happroved. }
  split; [rewrite length_app, Hlen, length_take; cbn [length]; lia|].
  split; [apply last_snoc|].
  split.
  - intros i source Hi Hsource.
    destruct (Hlookup i source) as (t & Ht & Hrow).
    { by rewrite lookup_take_lt. }
    exists t. split; [done|]. rewrite lookup_app_l; [done|].
    by apply lookup_lt_Some in Hrow.
  - intros i source Hsource.
    apply (approve_by_index svc budget chat (pretty i) source w1 Hwf1).
    rewrite parseInt_pretty_nat. unfold pending_at.
    rewrite Hp1, Hh1, deref_fresh.
    destruct (Z.leb_spec 0 (Z.of_nat i)); [|lia].
    by rewrite Nat2Z.id.
Qed.

End Keyboard.

Lemma sources_keyboard_buttons_approve_witness :
  ∃ w1,
    command_sources (dependable no_score) world_after_draft = (Returned (), w1)
    ∧ pending_list w1 = [paper_a; paper_b]
    ∧ approved_list
        (on_callback_query (dependable no_score) 0 42 "approve_source_1" w1).2
      = [paper_a; paper_b; paper_b].
Proof.
  assert (well_formed world_after_draft) as Hwf.
  { split; intros address [=]. subst. simpl. lia. }
  destruct (sources_keyboard_buttons_approve (dependable no_score) 0 42
              [paper_a; paper_b] _ world_after_draft
              (dependable_delivers no_score) Hwf
              ltac:(done) ltac:(done) eq_refl)
    as (w1 & Hrun & Hbatch & Happroved & _ & _ & _ & Hpress).
  exists w1. split; [done|]. split; [done|].
  pose proof (Hpress 1 paper_b eq_refl) as Hone.
  change ("approve_source_" +:+ pretty 1) with "approve_source_1" in Hone.
  by rewrite Hone, Happroved.
Defined.

(* --------------------------------------------------------------------- *)
(** ** Starting the workflow                                              *)
(* --------------------------------------------------------------------- *)

Section Workflow.
Variable svc : Services.
Variable budget : nat.
Variable chat : N.
Hypothesis delivers : transport_delivers svc.

Lemma callback_confirm :
  on_callback_query svc budget chat "confirm_and_process"
  = callback_frame svc
      (s <- get_session ;;
       match messages s with
       | None => throw "Cannot read properties of undefined (reading 'join')"
       | Some fragments =>
           let topic := join " " fragments in
           reply svc MsgWorkflowStarting ;;
           try_catch
             (sources <- processSources svc topic ;;
              address <- alloc sources ;;
              modify_session (set_approvedSources (Some address)) ;;
              if 0 <? length sources then
                reply svc (MsgFoundSources (length sources)) ;;
                processDraft svc budget topic sources "APA" 5%N ;;
                s' <- get_session ;;
                updateHistory (chatId s')
                  (WorkflowCompleted topic (length sources) "generated")
                  ["workflow"; "academic"] ;;
                ret ()
              else reply svc MsgNoSuitableSources)
             (λ error,
                emit (ConsoleError "Workflow error:" error) ;;
                reply svc (MsgWorkflowFailed error) ;;
                emit (MonitorError "workflow" error)) ;;
           modify_session (set_messages (Some [])) ;;
           modify_session (set_isAggregating (Some false))
       end)%js.
Proof. reflexivity. Qed.

(** The workflow button, run to the end. *)
Lemma callback_confirm_run (fragments : list string) (w : World) :
  messages (session w) = Some fragments →
  let topic := join " " fragments in
  let run := on_callback_query svc budget chat "confirm_and_process" w in
  run.1 ≠ Pending →
  run.1 = Returned ()
  ∧ (∃ evs,
       log run.2
       = log w ++ [Replied MsgWorkflowStarting; SourcesRequested topic]
         ++ evs ++ [AnsweredCbQuery])
  ∧ messages (session run.2) = Some []
  ∧ isAggregating (session run.2) = Some false
  ∧ pendingSources (session run.2) = pendingSources (session w)
  ∧ match source_pipeline svc (S (clock w)) topic with
    | HttpOk sources =>
        approvedSources (session run.2) = Some (length (heap w))
        ∧ heap run.2 = heap w ++ [sources]
    | HttpFail e =>
        approvedSources (session run.2) = approvedSources (session w)
        ∧ heap run.2 = heap w
        ∧ Replied (MsgWorkflowFailed e) ∈ log run.2
    end.
Proof.
  intros Hmsg. cbn zeta. rewrite callback_confirm.
  unfold callback_frame, processSources, reply. run. rewrite Hmsg. run.
  rewrite !delivers. run.
  destruct (source_pipeline svc (S (clock w)) (join " " fragments))
    as [sources|e]; run.
  2:{ rewrite !delivers. run. intros _. fields.
      split; [reflexivity|]. split.
      { exists [ConsoleError "Workflow error:" e;
                Replied (MsgWorkflowFailed e); MonitorError "workflow" e].
        by rewrite <- !app_assoc. }
      do 5 (split; [reflexivity|]).
      rewrite !elem_of_app, !list_elem_of_singleton. tauto. }
  destruct (0 <? length sources) eqn:Hfound; run; rewrite !delivers; run.
  2:{ intros _. fields. split; [reflexivity|]. split.
      { exists [Replied MsgNoSuitableSources]. by rewrite <- !app_assoc. }
      by do 4 (split; [reflexivity|]). }
  match goal with
  | |- context [processDraft svc budget ?t sources "APA" 5%N ?w0] =>
      pose proof (processDraft_cases svc budget sources "APA" 5%N t w0) as C;
      destruct (appends_processDraft svc budget sources "APA" 5%N t w0)
        as [evs Hevs];
      destruct (processDraft svc budget t sources "APA" 5%N w0)
        as [[r|e|] w5]
  end; specialize (C _ _ eq_refl); destruct C as [Ch C];
    cbn [fst snd session heap log clock] in *; run.
  - intros _. destruct C as (_ & k & chunks & _ & -> & _). fields.
    rewrite Ch, Hevs. split; [reflexivity|]. split.
    { exists (Replied (MsgFoundSources (length sources)) :: evs
              ++ [HistoryUpdated (chatId (session w))
                    (WorkflowCompleted (join " " fragments) (length sources)
                       "generated")
                    ["workflow"; "academic"]]).
      repeat first [rewrite <- app_assoc | progress cbn [app]]. reflexivity. }
    by do 4 (split; [reflexivity|]).
  - rewrite !delivers. run. intros _. rewrite C, Ch, Hevs. fields.
    split; [reflexivity|]. split.
    { exists (Replied (MsgFoundSources (length sources)) :: evs
              ++ [ConsoleError "Workflow error:" e;
                  Replied (MsgWorkflowFailed e); MonitorError "workflow" e]).
      repeat first [rewrite <- app_assoc | progress cbn [app]]. reflexivity. }
    by do 4 (split; [reflexivity|]).
  - intros Hpending. by destruct Hpending.
Qed.

(** X14.  With a transport that delivers, the [confirm_and_process]
    button, when its handler has finished, has searched sources for the
    fragments of the request joined by single spaces, has cleared the
    fragments and has switched aggregation off.  The sources the workflow
    uses are the ones it has just retrieved: they replace whatever the
    session held as approved sources, whether or not the draft then
    succeeds; only when the retrieval itself fails do the approved sources
    stay, and the user is told that the workflow failed. *)
Theorem confirm_and_process_takes_fresh_sources (w : World) :
  well_formed w →
  let topic := join " " (default [] (messages (session w))) in
  let run :=
    handle_update svc budget chat (CallbackQuery "confirm_and_process") w in
  run.1 ≠ Pending →
  run.1 = Returned ()
  ∧ (∃ evs,
       log run.2
       = log w ++ [Replied MsgWorkflowStarting; SourcesRequested topic]
         ++ evs ++ [AnsweredCbQuery])
  ∧ messages (session run.2) = Some []
  ∧ isAggregating (session run.2) = Some false
  ∧ pending_list run.2 = pending_list w
  ∧ match source_pipeline svc (S (clock w)) topic with
    | HttpOk sources => approved_list run.2 = sources
    | HttpFail e =>
        approved_list run.2 = approved_list w
        ∧ Replied (MsgWorkflowFailed e) ∈ log run.2
    end.
Proof.
  intros Hwf. cbn zeta. unfold handle_update.
  rewrite try_catch_eq, bind_eq, middleware_defaults. cbn [handler].
  set (w1 := mkWorld _ _ _ _).
  destruct (middleware_views chat w w1 (middleware_defaults chat w) Hwf)
    as ([Happroved1 Hpending1] & Ha1 & Hp1).
  pose proof (callback_confirm_run (default [] (messages (session w))) w1
                eq_refl) as Hrun.
  cbn zeta in Hrun.
  destruct (on_callback_query svc budget chat "confirm_and_process" w1)
    as [[[]|e|] w2]; cbn [fst snd] in *.
  - intros _.
    destruct Hrun as (_ & Hlog & Hmsg & Hagg & Hp & Hsources); [done|].
    split; [done|]. split; [exact Hlog|]. split; [done|]. split; [done|].
    change (clock w1) with (clock w) in Hsources. revert Hsources.
    destruct (source_pipeline svc (S (clock w)) _) as [sources|e].
    + intros [Ha Hh]. split.
      * rewrite <- Hp1. unfold pending_list. rewrite Hp, Hh.
        destruct (pendingSources (session w1)) as [p|] eqn:Hp'; [|done].
        by apply deref_old, Hpending1.
      * unfold approved_list. by rewrite Ha, Hh, deref_fresh.
    + intros (Ha & Hh & Htold). split; [|split; [|done]].
      * rewrite <- Hp1. unfold pending_list. by rewrite Hp, Hh.
      * rewrite <- Ha1. unfold approved_list. by rewrite Ha, Hh.
  - intros _. by destruct Hrun as [[=] _].
  - done.
Qed.

End Workflow.

Lemma confirm_and_process_takes_fresh_sources_witness :
  let run :=
    handle_update (dependable no_score) 1 42
      (CallbackQuery "confirm_and_process") world_with_fragments in
  approved_list world_with_fragments = [paper_c]
  ∧ approved_list run.2 = [paper_a; paper_b]
  ∧ messages (session run.2) = Some []
  ∧ source_requests (log run.2) = ["Drought and crops"].
Proof.
  assert (well_formed world_with_fragments) as Hwf.
  { split; intros address [=]. subst. simpl. lia. }
  destruct (confirm_and_process_takes_fresh_sources (dependable no_score) 1
              42 (dependable_delivers no_score) world_with_fragments Hwf)
    as (_ & _ & Hmsg & _ & _ & Hsources); [by vm_compute|].
  cbn zeta. split; [reflexivity|]. split; [exact Hsources|].
  split; [exact Hmsg|]. by vm_compute.
Defined.

(* --------------------------------------------------------------------- *)
(** ** Source retrieval                                                   *)
(* --------------------------------------------------------------------- *)

Lemma pbind_eq {St A B : Type} (m : Prog St A) (k : A → Prog St B) (s : St) :
  pbind m k s =
  match m s with
  | (Returned a, s') => k a s'
  | (Threw e, s') => (Threw e, s')
  | (Pending, s') => (Pending, s')
  end.
Proof. reflexivity. Qed.

Lemma pbind_Returned {St A B : Type} (m : Prog St A) (k : A → Prog St B)
    (s s' : St) (a : A) :
  m s = (Returned a, s') → pbind m k s = k a s'.
Proof. intros Hm. by rewrite pbind_eq, Hm. Qed.

Lemma pcatch_Returned {St A : Type} (body : Prog St A)
    (handler : Error → Prog St A) (s s' : St) (a : A) :
  body s = (Returned a, s') → pcatch body handler s = (Returned a, s').
Proof. intros Hm. unfold pcatch. by rewrite Hm. Qed.

(** Symbolic execution of the retrieval module. *)
Ltac fetch :=
  cbv beta iota zeta delta
    [pbind pcatch pret pthrow Retrieval.emit Retrieval.tick];
  cbn [fst snd Retrieval.calls Retrieval.ticks].

Lemma grows_refl (P : Retrieval.Call → Prop) (n : Retrieval.Net) :
  Retrieval.grows P n n.
Proof. exists []. by rewrite app_nil_r. Qed.

Lemma grows_trans (P : Retrieval.Call → Prop) (n1 n2 n3 : Retrieval.Net) :
  Retrieval.grows P n1 n2 → Retrieval.grows P n2 n3 → Retrieval.grows P n1 n3.
Proof.
  intros (cs1 & H1 & P1) (cs2 & H2 & P2). exists (cs1 ++ cs2).
  split; [by rewrite H2, H1, app_assoc | by apply Forall_app].
Qed.

Lemma grows_step (P : Retrieval.Call → Prop) (n : Retrieval.Net)
    (cs : list Retrieval.Call) (t : nat) :
  Forall P cs →
  Retrieval.grows P n (Retrieval.mkNet (Retrieval.calls n ++ cs) t).
Proof. intros Hcs. by exists cs. Qed.

Lemma zotero_asked_app (l1 l2 : list Retrieval.Call) :
  Retrieval.zotero_asked (l1 ++ l2)
  = Retrieval.zotero_asked l1 ++ Retrieval.zotero_asked l2.
Proof. apply omap_app. Qed.

Lemma admin_posts_app (l1 l2 : list Retrieval.Call) :
  Retrieval.admin_posts (l1 ++ l2)
  = Retrieval.admin_posts l1 ++ Retrieval.admin_posts l2.
Proof. apply omap_app. Qed.

Lemma searches_app (l1 l2 : list Retrieval.Call) :
  Retrieval.searches (l1 ++ l2)
  = Retrieval.searches l1 ++ Retrieval.searches l2.
Proof. apply omap_app. Qed.

Lemma checking_calls_silent (cs : list Retrieval.Call) :
  Forall Retrieval.checking cs →
  Retrieval.zotero_asked cs = [] ∧ Retrieval.admin_posts cs = []
  ∧ Retrieval.searches cs = [].
Proof.
  induction 1 as [|c cs Hc _ (IH1 & IH2 & IH3)]; [done|].
  destruct c; try done.
Qed.

Section RetrievalFacts.
Variable lib : Retrieval.Library.

(** [generateKeywords], run to the end. *)
Lemma generateKeywords_run (topic : string) (history : list Retrieval.Past)
    (n : Retrieval.Net) :
  ∃ cs,
    Forall Retrieval.checking cs
    ∧ Retrieval.generateKeywords lib topic history n
      = (Returned (Retrieval.keywords_at lib (Retrieval.ticks n) topic history),
         Retrieval.mkNet (Retrieval.calls n ++ cs) (S (Retrieval.ticks n))).
Proof.
  unfold Retrieval.generateKeywords, Retrieval.keywords_at. cbn zeta. fetch.
  set (prompt := Retrieval.keywords_prompt topic history).
  destruct (Retrieval.groq_keywords lib (Retrieval.ticks n) prompt)
    as [content|e]; fetch.
  - exists [Retrieval.KeywordsAsked prompt].
    split; [by repeat constructor|].
    by destruct (Retrieval.JSON_parse lib content).
  - exists [Retrieval.KeywordsAsked prompt;
            Retrieval.Complained "Groq keywords error:" e].
    split; [by repeat constructor|].
    by rewrite <- app_assoc.
Qed.

(** [fetchSemanticScholar], run to the end. *)
Lemma fetchSemanticScholar_run (keywords : Retrieval.Keywords) (limit : nat)
    (n : Retrieval.Net) :
  ∃ cs t,
    Retrieval.fetchSemanticScholar lib keywords limit n
    = (Returned (Retrieval.found_at lib (Retrieval.ticks n) keywords limit),
       Retrieval.mkNet (Retrieval.calls n ++ cs) t)
    ∧ Retrieval.zotero_asked cs = []
    ∧ Retrieval.admin_posts cs = []
    ∧ Retrieval.searches cs = Retrieval.searched keywords limit.
Proof.
  unfold Retrieval.fetchSemanticScholar, Retrieval.found_at,
    Retrieval.searched. fetch.
  destruct keywords as [items|]; fetch.
  - destruct (Retrieval.semantic_scholar lib (Retrieval.ticks n) _ limit)
      as [[raw|]|e]; fetch; rewrite <- ?app_assoc; by eexists _, _.
  - by eexists _, _.
Qed.

(** [validateDOI], run to the end. *)
Lemma validateDOI_run (doi : JsVal) (n : Retrieval.Net) :
  ∃ validated n',
    Retrieval.validateDOI lib doi n = (Returned validated, n')
    ∧ Retrieval.grows Retrieval.checking n n'
    ∧ (validated = true → ∃ t, Retrieval.crossref lib t doi = HttpOk true).
Proof.
  unfold Retrieval.validateDOI. fetch.
  destruct (Retrieval.crossref lib (Retrieval.ticks n) doi) as [message|e]
    eqn:Hcrossref; fetch; eexists _, _; (split; [reflexivity|]);
    rewrite <- ?app_assoc;
    (split; [apply grows_step; by repeat constructor|]).
  - intros ->. by eexists.
  - done.
Qed.

(** The loop of step 3: the records kept are records of the input, in
    its order, each with a DOI that CrossRef confirmed and a year from
    2020 on. *)
Lemma validate_loop_run (papers : list Retrieval.Paper) :
  ∀ validSources n,
    ∃ kept n',
      Retrieval.validate_loop lib papers validSources n
      = (Returned (validSources ++ kept), n')
      ∧ Retrieval.grows Retrieval.checking n n'
      ∧ kept `sublist_of` (Retrieval.normalise <$> papers)
      ∧ Forall (λ source,
                  zoteroKey source = JUndefined
                  ∧ truthy (doi source) = true
                  ∧ Retrieval.recent (year source) = true
                  ∧ ∃ t, Retrieval.crossref lib t (doi source) = HttpOk true)
          kept.
Proof.
  induction papers as [|source rest IH]; intros validSources n;
    cbn [Retrieval.validate_loop].
  - exists [], n. rewrite app_nil_r.
    split; [done|]. split; [apply grows_refl|]. by split.
  - destruct (truthy (Retrieval.paper_doi source)
              && Retrieval.recent (Retrieval.paper_year source)) eqn:Hok.
    2:{ destruct (IH validSources n) as (kept & n' & Hrun & Hg & Hsub & Hall).
        exists kept, n'. split; [done|]. split; [done|].
        split; [by apply sublist_cons | done]. }
    apply andb_prop in Hok as [Hdoi Hyear].
    destruct (validateDOI_run (Retrieval.paper_doi source) n)
      as (validated & n1 & Hrun1 & Hg1 & Hconfirmed).
    rewrite (pbind_Returned _ _ _ _ _ Hrun1).
    destruct validated.
    + destruct (IH (validSources ++ [Retrieval.normalise source]) n1)
        as (kept & n' & Hrun & Hg & Hsub & Hall).
      exists (Retrieval.normalise source :: kept), n'.
      split; [by rewrite Hrun, <- app_assoc|].
      split; [by eapply grows_trans|].
      split; [by apply sublist_skip|].
      constructor; [|done]. by repeat split; [..|apply Hconfirmed].
    + destruct (IH validSources n1) as (kept & n' & Hrun & Hg & Hsub & Hall).
      exists kept, n'. split; [done|].
      split; [by eapply grows_trans|].
      split; [by apply sublist_cons | done].
Qed.

(** [importToZotero], run to the end. *)
Lemma importToZotero_run (source : Source) (n : Retrieval.Net) :
  ∃ key cs t,
    Retrieval.importToZotero lib source n
    = (Returned key, Retrieval.mkNet (Retrieval.calls n ++ cs) t)
    ∧ (key = JNull ∨ ∃ k, key = JStr k)
    ∧ Retrieval.zotero_asked cs = [source]
    ∧ Retrieval.admin_posts cs = []
    ∧ Retrieval.searches cs = [].
Proof.
  unfold Retrieval.importToZotero. fetch.
  destruct (Retrieval.zotero_items lib (Retrieval.ticks n) source)
    as [[[|k keys]|]|e]; fetch; rewrite <- ?app_assoc;
    eexists _, _, _; (split; [reflexivity|]); (split; [|done]);
    first [by left | right; by eexists].
Qed.

(** The loop of step 5: every source comes back, with a Zotero key that is
    a string or [null], and each was sent to Zotero once. *)
Lemma import_loop_run (sources : list Source) :
  ∀ sourcesWithZotero n,
    ∃ imported cs t,
      Retrieval.import_loop lib sources sourcesWithZotero n
      = (Returned (sourcesWithZotero ++ imported),
         Retrieval.mkNet (Retrieval.calls n ++ cs) t)
      ∧ Forall2
          (λ source source',
             ∃ key, source' = Retrieval.with_key key source
                    ∧ (key = JNull ∨ ∃ k, key = JStr k))
          sources imported
      ∧ Retrieval.zotero_asked cs = sources
      ∧ Retrieval.admin_posts cs = []
      ∧ Retrieval.searches cs = [].
Proof.
  induction sources as [|source rest IH]; intros sourcesWithZotero n;
    cbn [Retrieval.import_loop].
  - exists [], [], (Retrieval.ticks n). rewrite !app_nil_r.
    by destruct n.
  - destruct (importToZotero_run source n)
      as (key & cs1 & t1 & Hrun1 & Hkey & Hasked1 & Hadmin1 & Hsearch1).
    rewrite (pbind_Returned _ _ _ _ _ Hrun1).
    destruct (IH (sourcesWithZotero ++ [Retrieval.with_key key source])
                (Retrieval.mkNet (Retrieval.calls n ++ cs1) t1))
      as (imported & cs2 & t2 & Hrun & Hall & Hasked2 & Hadmin2 & Hsearch2).
    exists (Retrieval.with_key key source :: imported), (cs1 ++ cs2), t2.
    rewrite Hrun. cbn [Retrieval.calls]. rewrite <- !app_assoc.
    split; [done|].
    split; [constructor; [by exists key | done]|].
    by rewrite zotero_asked_app, admin_posts_app, searches_app, Hasked1,
      Hasked2, Hadmin1, Hadmin2, Hsearch1, Hsearch2.
Qed.

(** [processSources], run to the end: [kept] is what passed the checks of
    step 3. *)
Lemma processSources_run (topic : string) (chatId : option string)
    (history : list Retrieval.Past) (n : Retrieval.Net) :
  let keywords := Retrieval.keywords_at lib (Retrieval.ticks n) topic history in
  let raw := Retrieval.found_at lib (S (Retrieval.ticks n)) keywords 15 in
  ∃ kept result n',
    Retrieval.processSources lib topic chatId history n = (Returned result, n')
    ∧ kept `sublist_of` (Retrieval.normalise <$> take 10 raw)
    ∧ Forall (λ source,
                zoteroKey source = JUndefined
                ∧ truthy (doi source) = true
                ∧ Retrieval.recent (year source) = true
                ∧ ∃ t, Retrieval.crossref lib t (doi source) = HttpOk true)
        kept
    ∧ Forall2
        (λ source source',
           ∃ key, source' = Retrieval.with_key key source
                  ∧ (key = JNull ∨ ∃ k, key = JStr k))
        (deduplicateSources kept) result
    ∧ Retrieval.zotero_asked (Retrieval.calls n')
      = Retrieval.zotero_asked (Retrieval.calls n) ++ deduplicateSources kept
    ∧ Retrieval.admin_posts (Retrieval.calls n')
      = Retrieval.admin_posts (Retrieval.calls n)
    ∧ Retrieval.searches (Retrieval.calls n')
      = Retrieval.searches (Retrieval.calls n)
        ++ Retrieval.searched keywords 15.
Proof.
  intros keywords raw. unfold Retrieval.processSources.
  destruct (generateKeywords_run topic history
              (Retrieval.mkNet
                 (Retrieval.calls n
                  ++ [Retrieval.Printed (Retrieval.Processing topic)])
                 (Retrieval.ticks n)))
    as (cs1 & Hcs1 & Hrun1).
  cbn [Retrieval.calls Retrieval.ticks] in Hrun1. fold keywords in Hrun1.
  set (n2 := Retrieval.mkNet
               ((Retrieval.calls n
                 ++ [Retrieval.Printed (Retrieval.Processing topic)]) ++ cs1
                ++ [Retrieval.Printed (Retrieval.Generated keywords)])
               (S (Retrieval.ticks n))).
  destruct (fetchSemanticScholar_run keywords 15 n2)
    as (cs3 & t3 & Hrun3 & Hz3 & Ha3 & Hs3).
  cbn [Retrieval.ticks n2] in Hrun3. fold raw in Hrun3.
  set (n4 := Retrieval.mkNet
               ((Retrieval.calls n2 ++ cs3)
                ++ [Retrieval.Printed (Retrieval.Fetched (length raw))])
               t3).
  destruct (validate_loop_run (take 10 raw) [] n4)
    as (kept & n5 & Hrun5 & (cs5 & Hcalls5 & Hcs5) & Hsub & Hall).
  set (n6 := Retrieval.mkNet
               (Retrieval.calls n5
                ++ [Retrieval.Printed
                      (Retrieval.Unique (length (deduplicateSources kept)))])
               (Retrieval.ticks n5)).
  destruct (import_loop_run (deduplicateSources kept) [] n6)
    as (result & cs7 & t7 & Hrun7 & Himported & Hasked & Hadmin & Hsearch).
  exists kept, result, (Retrieval.mkNet (Retrieval.calls n6 ++ cs7) t7).
  split.
  { apply pcatch_Returned. rewrite pbind_eq. unfold Retrieval.emit at 1.
    rewrite (pbind_Returned _ _ _ _ _ Hrun1).
    rewrite pbind_eq. unfold Retrieval.emit at 1.
    cbn [Retrieval.calls Retrieval.ticks]. rewrite <- app_assoc.
    fold n2. rewrite (pbind_Returned _ _ _ _ _ Hrun3).
    rewrite pbind_eq. unfold Retrieval.emit at 1.
    cbn [Retrieval.calls Retrieval.ticks]. fold n4.
    rewrite (pbind_Returned _ _ _ _ _ Hrun5). cbn [app].
    rewrite pbind_eq. unfold Retrieval.emit at 1. fold n6.
    exact Hrun7. }
  split; [done|]. split; [done|]. split; [done|].
  destruct (checking_calls_silent cs1 Hcs1) as (Hz1 & Ha1 & Hs1).
  destruct (checking_calls_silent cs5 Hcs5) as (Hz5 & Ha5 & Hs5).
  cbn [Retrieval.calls n6]. rewrite Hcalls5. cbn [Retrieval.calls n4 n2].
  rewrite !zotero_asked_app, !admin_posts_app, !searches_app, Hz1, Hz3, Hz5,
    Ha1, Ha3, Ha5, Hs1, Hs3, Hs5, Hasked, Hadmin, Hsearch.
  cbn [Retrieval.zotero_asked Retrieval.admin_posts Retrieval.searches omap
       list_omap app].
  by rewrite !app_nil_r.
Qed.

End RetrievalFacts.

Lemma Forall_sublist_of {A : Type} (P : A → Prop) (l1 l2 : list A) :
  l1 `sublist_of` l2 → Forall P l2 → Forall P l1.
Proof.
  induction 1 as [|x l1 l2 _ IH|x l1 l2 _ IH]; [done|..];
    intros [Hx Hl]%Forall_cons; [constructor|]; auto.
Qed.

Lemma with_key_doi (key : JsVal) (source : Source) :
  doi (Retrieval.with_key key source) = doi source.
Proof. done. Qed.

(** The sources of a run of step 5, their keys apart, are the sources that
    went in. *)
Lemma imported_forget_keys (sources result : list Source) :
  Forall (λ source, zoteroKey source = JUndefined) sources →
  Forall2
    (λ source source',
       ∃ key, source' = Retrieval.with_key key source
              ∧ (key = JNull ∨ ∃ k, key = JStr k))
    sources result →
  Retrieval.with_key JUndefined <$> result = sources.
Proof.
  intros Hkeys Hall. induction Hall as [|s s' l l' (key & -> & _) _ IH];
    [done|].
  apply Forall_cons in Hkeys as [Hs Hl]. cbn [fmap list_fmap].
  f_equal; [|by apply IH].
  destruct s; cbn in *. by subst.
Qed.

(** X15.  [processSources] always returns, whatever the four services
    answer: at most ten sources, each with a DOI that CrossRef confirmed, a
    year from 2020 on and a Zotero key that is a string or [null], no two
    with the same DOI; and nothing is posted to the operator chat. *)
Theorem processSources_returns_vetted_sources (lib : Retrieval.Library)
    (topic : string) (chatId : option string) (history : list Retrieval.Past)
    (n : Retrieval.Net) :
  ∃ result n',
    Retrieval.processSources lib topic chatId history n = (Returned result, n')
    ∧ length result ≤ 10
    ∧ Forall (Retrieval.vetted lib) result
    ∧ NoDup (doi <$> result)
    ∧ Retrieval.admin_posts (Retrieval.calls n')
      = Retrieval.admin_posts (Retrieval.calls n).
Proof.
  destruct (processSources_run lib topic chatId history n)
    as (kept & result & n' & Hrun & Hsub & Hkept & Himported & _ & Hadmin & _).
  exists result, n'. split; [done|].
  assert (deduplicateSources kept `sublist_of` kept) as Hdedup
    by apply dedup_filter_sublist.
  assert (Forall (λ source,
                    zoteroKey source = JUndefined
                    ∧ truthy (doi source) = true
                    ∧ Retrieval.recent (year source) = true
                    ∧ ∃ t, Retrieval.crossref lib t (doi source) = HttpOk true)
            (deduplicateSources kept)) as Hgood
    by (eapply Forall_sublist_of; [exact Hdedup | exact Hkept]).
  split.
  { rewrite <- (Forall2_length _ _ _ Himported).
    apply sublist_length in Hdedup, Hsub.
    rewrite length_fmap, length_take in Hsub. lia. }
  split.
  { clear Hdedup Hrun Hadmin. induction Himported
      as [|s s' l l' (key & -> & Hkey) _ IH]; [done|].
    apply Forall_cons in Hgood as [(_ & Hdoi & Hyear & Hcross) Hl].
    constructor; [|by apply IH]. by repeat split. }
  split; [|done].
  assert (doi <$> result = source_key <$> deduplicateSources kept) as ->.
  { clear Hdedup Hrun Hadmin. induction Himported
      as [|s s' l l' (key & -> & Hkey) _ IH]; [done|].
    apply Forall_cons in Hgood as [(_ & Hdoi & _) Hl].
    cbn [fmap list_fmap]. f_equal; [|by apply IH].
    rewrite with_key_doi. unfold source_key, js_or. by rewrite Hdoi. }
  apply dedup_filter_NoDup.
Qed.

(** X16.  What [processSources] returns comes from the first ten records
    of the search, in their order: with the Zotero keys taken off, the
    result is a sublist of those records as step 3 copies them.  Each
    source returned was sent to Zotero exactly once, in the order of the
    result and before it had a key, and nothing else was sent. *)
Theorem processSources_imports_what_it_returns (lib : Retrieval.Library)
    (topic : string) (chatId : option string) (history : list Retrieval.Past)
    (n : Retrieval.Net) :
  ∃ result n',
    Retrieval.processSources lib topic chatId history n = (Returned result, n')
    ∧ (Retrieval.with_key JUndefined <$> result)
      `sublist_of`
      (Retrieval.normalise
         <$> take 10
               (Retrieval.found_at lib (S (Retrieval.ticks n))
                  (Retrieval.keywords_at lib (Retrieval.ticks n) topic history)
                  15))
    ∧ Retrieval.zotero_asked (Retrieval.calls n')
      = Retrieval.zotero_asked (Retrieval.calls n)
        ++ (Retrieval.with_key JUndefined <$> result).
Proof.
  destruct (processSources_run lib topic chatId history n)
    as (kept & result & n' & Hrun & Hsub & Hkept & Himported & Hasked & _).
  exists result, n'. split; [done|].
  assert (deduplicateSources kept `sublist_of` kept) as Hdedup
    by apply dedup_filter_sublist.
  rewrite (imported_forget_keys (deduplicateSources kept) result).
  - split; [by etrans | done].
  - eapply Forall_sublist_of; [exact Hdedup|].
    eapply Forall_impl; [exact Hkept|]. by intros source (Hkey & _).
  - done.
Qed.

(** X17.  When the call to the model fails, [processSources] still
    searches: Semantic Scholar is asked once, for fifteen records, with the
    topic, [topic research], [topic study] and [topic analysis] joined by
    spaces. *)
Theorem processSources_searches_fallback_keywords (lib : Retrieval.Library)
    (topic : string) (chatId : option string) (history : list Retrieval.Past)
    (n : Retrieval.Net) (e : Error) :
  Retrieval.groq_keywords lib (Retrieval.ticks n)
    (Retrieval.keywords_prompt topic history) = HttpFail e →
  ∃ result n',
    Retrieval.processSources lib topic chatId history n = (Returned result, n')
    ∧ Retrieval.searches (Retrieval.calls n')
      = Retrieval.searches (Retrieval.calls n)
        ++ [(topic +:+ " " +:+ topic +:+ " research " +:+ topic +:+ " study "
             +:+ topic +:+ " analysis", 15)].
Proof.
  intros Hdown.
  destruct (processSources_run lib topic chatId history n)
    as (kept & result & n' & Hrun & _ & _ & _ & _ & _ & Hsearch).
  exists result, n'. split; [done|]. rewrite Hsearch. f_equal.
  unfold Retrieval.keywords_at. rewrite Hdown.
  cbn [Retrieval.searched]. do 2 f_equal.
  unfold join. cbn [String.concat]. by rewrite !string_app_assoc.
Qed.

Lemma processSources_searches_fallback_keywords_witness :
  ∃ result n',
    Retrieval.processSources Retrieval.sample_library "maize" None []
      Retrieval.idle = (Returned result, n')
    ∧ Retrieval.searches (Retrieval.calls n')
      = [("maize maize research maize study maize analysis", 15)].
Proof.
  destruct (processSources_searches_fallback_keywords Retrieval.sample_library
              "maize" None [] Retrieval.idle
              "Request failed with status code 503" eq_refl)
    as (result & n' & Hrun & Hsearch).
  by exists result, n'.
Defined.

(** X18.  When the model answers with JSON that is not an array,
    [processSources] returns no source at all: nothing is searched, nothing
    is sent to Zotero, and the operator is not told. *)
Theorem processSources_non_array_keywords_finds_nothing
    (lib : Retrieval.Library) (topic : string) (chatId : option string)
    (history : list Retrieval.Past) (n : Retrieval.Net) (content : string) :
  Retrieval.groq_keywords lib (Retrieval.ticks n)
    (Retrieval.keywords_prompt topic history) = HttpOk content →
  Retrieval.JSON_parse lib content = Some Retrieval.KwOther →
  ∃ n',
    Retrieval.processSources lib topic chatId history n = (Returned [], n')
    ∧ Retrieval.searches (Retrieval.calls n')
      = Retrieval.searches (Retrieval.calls n)
    ∧ Retrieval.zotero_asked (Retrieval.calls n')
      = Retrieval.zotero_asked (Retrieval.calls n)
    ∧ Retrieval.admin_posts (Retrieval.calls n')
      = Retrieval.admin_posts (Retrieval.calls n).
Proof.
  intros Hanswer Hparse.
  destruct (processSources_run lib topic chatId history n)
    as (kept & result & n' & Hrun & Hsub & _ & Himported & Hasked & Hadmin
        & Hsearch).
  revert Hsub Hsearch. unfold Retrieval.keywords_at.
  rewrite Hanswer, Hparse. cbn [Retrieval.found_at Retrieval.searched take
    fmap list_fmap]. intros Hsub Hsearch.
  apply sublist_nil_r in Hsub as ->.
  change (deduplicateSources []) with (@nil Source) in Himported, Hasked.
  apply Forall2_nil_inv_l in Himported as ->.
  exists n'. rewrite app_nil_r in Hasked, Hsearch. done.
Qed.

Lemma processSources_non_array_keywords_finds_nothing_witness :
  ∃ n',
    Retrieval.processSources Retrieval.chatty_library "maize" None []
      Retrieval.idle = (Returned [], n')
    ∧ Retrieval.searches (Retrieval.calls n') = []
    ∧ Retrieval.zotero_asked (Retrieval.calls n') = []
    ∧ Retrieval.admin_posts (Retrieval.calls n') = [].
Proof.
  exact (processSources_non_array_keywords_finds_nothing
           Retrieval.chatty_library "maize" None [] Retrieval.idle "{}"
           eq_refl eq_refl).
Defined.

(* --------------------------------------------------------------------- *)
(** ** The rating form and the rating handler                             *)
(* --------------------------------------------------------------------- *)

Lemma saved_ratings_app (l1 l2 : list Event) :
  saved_ratings (l1 ++ l2) = saved_ratings l1 ++ saved_ratings l2.
Proof. apply omap_app. Qed.

(** X19.  The buttons [collectFeedback] builds are read back by the
    callback handler as they were meant: for an identifier without
    underscore, the button of [k] stars saves the rating [k] for the chat,
    and sets the comment marker to the identifier when [k <= 3] (leaving
    the session alone otherwise); the comment button sets the marker to
    the identifier. *)
Theorem feedback_form_round_trip (svc : Services) (budget : nat) (chat : N)
    (draftId : string) (w : World) :
  transport_delivers svc →
  lacks "_" draftId = true →
  ∃ stars comment,
    reply_markup (collectFeedback draftId) = Some [stars; [comment]]
    ∧ caption <$> stars = CaptionStars <$> [1; 2; 3; 4; 5]
    ∧ caption comment = CaptionAddComment
    ∧ (∀ k button,
         stars !! k = Some button →
         let pressed :=
           on_callback_query svc budget chat (callback_data button) w in
         pressed.1 = Returned ()
         ∧ saved_ratings (log pressed.2)
           = saved_ratings (log w) ++ [(chat, Some (Z.of_nat (S k)))]
         ∧ session pressed.2
           = if S k <=? 3
             then set_waitingForComment (JStr draftId) (session w)
             else session w)
    ∧ session (on_callback_query svc budget chat (callback_data comment) w).2
      = set_waitingForComment (JStr draftId) (session w).
Proof.
  intros Hdelivers Hid. eexists _, _. split; [reflexivity|].
  split; [reflexivity|]. split; [reflexivity|]. split.
  - intros k button Hbutton.
    assert (k < 5) as Hk by (apply lookup_lt_Some in Hbutton; exact Hbutton).
    assert (∃ rating,
              callback_data button
              = "rate_" +:+ draftId +:+ "_" +:+ rating
              ∧ lacks "_" rating = true
              ∧ parseInt rating = Some (Z.of_nat (S k)))
      as (rating & -> & Hrating & Hparse).
    { destruct k as [|[|[|[|[|k]]]]]; [..|lia];
        injection Hbutton as <-; cbn [callback_data];
        [exists "1" | exists "2" | exists "3" | exists "4" | exists "5"];
        done. }
    cbn zeta.
    rewrite (callback_rate_run svc budget chat Hdelivers draftId rating
               (Z.of_nat (S k)) w Hid Hrating Hparse).
    destruct k as [|[|[|[|[|k]]]]]; [..|lia];
      match goal with
      | |- context [(?a <=? 3)%Z] =>
          let b := eval vm_compute in (a <=? 3)%Z in
          change (a <=? 3)%Z with b
      end;
      cbn [fst snd log session Nat.leb];
      rewrite saved_ratings_app; done.
  - apply callback_comment_store.
Qed.

Lemma feedback_form_round_trip_witness :
  ∃ stars comment,
    reply_markup (collectFeedback "1700000000000") = Some [stars; [comment]]
    ∧ (∀ button, stars !! 1 = Some button →
         saved_ratings
           (log (on_callback_query (dependable no_score) 0 42
                   (callback_data button) world_after_draft).2)
         = saved_ratings (log world_after_draft) ++ [(42%N, Some 2%Z)]).
Proof.
  assert (transport_delivers (dependable no_score)) as Hdelivers by done.
  destruct (feedback_form_round_trip (dependable no_score) 0 42
              "1700000000000" world_after_draft Hdelivers eq_refl)
    as (stars & comment & Hform & _ & _ & Hstars & _).
  exists stars, comment. split; [exact Hform|].
  intros button Hbutton. exact (proj1 (proj2 (Hstars 1 button Hbutton))).
Defined.

(* --------------------------------------------------------------------- *)
(** ** The API monitor                                                    *)
(* --------------------------------------------------------------------- *)

(** What a use of the monitor does to the counter of another name:
    nothing. *)
Lemma apply_calls_other (m : Monitoring.ApiMonitor) (op : Monitoring.Op)
    (api : string) :
  Monitoring.counts_for api op = false →
  Monitoring.calls (Monitoring.apply m op) !! api = Monitoring.calls m !! api.
Proof.
  destruct op as [now name success|now name error]; [|done].
  cbn [Monitoring.counts_for Monitoring.apply Monitoring.logCall
       Monitoring.calls].
  intros Hname%String.eqb_neq.
  destruct (Monitoring.calls m !! name) as [c|].
  - by rewrite lookup_insert_ne.
  - destruct (bool_decide _); [|done].
    destruct (String.eqb name "__proto__"); [done|].
    by rewrite lookup_insert_ne.
Qed.

(** What a call of [logCall] does to a counter that exists. *)
Lemma logCall_calls_same (m : Monitoring.ApiMonitor) (now api : string)
    (success : bool) (c : Monitoring.Count) :
  Monitoring.calls m !! api = Some c →
  Monitoring.calls (Monitoring.logCall now api success m) !! api
  = Some (Monitoring.increment c).
Proof.
  intros Hc. cbn [Monitoring.logCall Monitoring.calls]. rewrite Hc.
  by rewrite lookup_insert_eq.
Qed.

Lemma increment_capped (a : N) :
  Monitoring.increment (Monitoring.Num (N.min a (2 ^ 53)))
  = Monitoring.Num (N.min (a + 1) (2 ^ 53)).
Proof.
  unfold Monitoring.increment. generalize (2 ^ 53)%N as cap. intros cap.
  destruct (N.ltb_spec (N.min a cap) cap); f_equal; lia.
Qed.

Lemma run_counts (ops : list Monitoring.Op) (api : string) :
  ∀ (m : Monitoring.ApiMonitor) (a : N),
    Monitoring.calls m !! api = Some (Monitoring.Num (N.min a (2 ^ 53))) →
    Monitoring.calls (Monitoring.run ops m) !! api
    = Some
        (Monitoring.Num
           (N.min
              (a + N.of_nat (length (List.filter (Monitoring.counts_for api)
                                       ops)))
              (2 ^ 53))).
Proof.
  induction ops as [|op ops IH]; intros m a Hm.
  - cbn [List.filter length Monitoring.run foldl]. by rewrite N.add_0_r.
  - cbn [List.filter Monitoring.run foldl].
    destruct (Monitoring.counts_for api op) eqn:Hop.
    + destruct op as [now name success|]; [|done].
      apply String.eqb_eq in Hop as ->.
      cbn [length Monitoring.apply].
      replace (a + N.of_nat (S (length (List.filter
                                          (Monitoring.counts_for api) ops))))%N
        with ((a + 1) + N.of_nat (length (List.filter
                                            (Monitoring.counts_for api) ops)))%N
        by lia.
      apply IH.
      by rewrite (logCall_calls_same m now api success _ Hm),
        increment_capped.
    + apply IH. by rewrite apply_calls_other.
Qed.

(** X20.  The four counters of the monitor count the calls of [logCall]
    under their own name, whether they succeeded or not, up to [2^53];
    calls under other names and calls of [logError] do not change them. *)
Theorem tracked_counters_count_their_calls (ops : list Monitoring.Op)
    (start : Z) (api : string) :
  api ∈ Monitoring.tracked →
  Monitoring.calls (Monitoring.run ops (Monitoring.constructor start)) !! api
  = Some
      (Monitoring.Num
         (N.min
            (N.of_nat (length (List.filter (Monitoring.counts_for api) ops)))
            (2 ^ 53))).
Proof.
  intros Hapi.
  apply (run_counts ops api (Monitoring.constructor start) 0).
  unfold Monitoring.tracked in Hapi.
  rewrite !elem_of_cons, elem_of_nil in Hapi.
  destruct Hapi as [->|[->|[->|[->|[]]]]]; reflexivity.
Qed.

Lemma tracked_counters_count_their_calls_witness :
  Monitoring.calls
    (Monitoring.run Monitoring.sample_ops (Monitoring.constructor 0))
    !! "groq"
  = Some (Monitoring.Num 3).
Proof.
  apply (tracked_counters_count_their_calls Monitoring.sample_ops 0 "groq").
  unfold Monitoring.tracked. rewrite !elem_of_cons. by left.
Defined.

Lemma run_untracked (ops : list Monitoring.Op) (api : string) :
  ∀ m : Monitoring.ApiMonitor,
    (Monitoring.calls m !! api = Some Monitoring.NaN →
     Monitoring.calls (Monitoring.run ops m) !! api = Some Monitoring.NaN)
    ∧ (Monitoring.calls m !! api = None →
       Monitoring.calls (Monitoring.run ops m) !! api
       = if bool_decide (api ∈ object_prototype_names)
            && negb (String.eqb api "__proto__")
            && existsb (Monitoring.counts_for api) ops
         then Some Monitoring.NaN
         else None).
Proof.
  induction ops as [|op ops IH]; intros m.
  - cbn [Monitoring.run foldl existsb]. rewrite andb_false_r. by split.
  - change (Monitoring.run (op :: ops) m)
      with (Monitoring.run ops (Monitoring.apply m op)).
    cbn [existsb].
    destruct (IH (Monitoring.apply m op)) as [IHnan IHnone].
    destruct (Monitoring.counts_for api op) eqn:Hop.
    + destruct op as [now name success|]; [|done].
      apply String.eqb_eq in Hop as ->.
      cbn [Monitoring.apply] in IHnan, IHnone |- *.
      split; intros Hm.
      * apply IHnan.
        by rewrite (logCall_calls_same m now api success _ Hm).
      * rewrite orb_true_l, andb_true_r.
        assert (Monitoring.calls (Monitoring.logCall now api success m) !! api
                = if bool_decide (api ∈ object_prototype_names)
                     && negb (String.eqb api "__proto__")
                  then Some Monitoring.NaN
                  else None) as Hstep.
        { cbn [Monitoring.logCall Monitoring.calls]. rewrite Hm.
          destruct (bool_decide _); [|done].
          destruct (String.eqb api "__proto__"); [done|].
          by rewrite lookup_insert_eq. }
        destruct (bool_decide (api ∈ object_prototype_names)
                  && negb (String.eqb api "__proto__")) eqn:Hproto.
        -- by apply IHnan.
        -- by rewrite (IHnone Hstep).
    + rewrite (apply_calls_other m op api Hop) in IHnan, IHnone.
      by rewrite orb_false_l.
Qed.

(** X21.  A name without a counter is never counted.  After any uses of a
    new monitor, [calls] has no entry for it; the names of the members of
    [Object.prototype] are the exception: a call of [logCall] under one of
    them (other than [__proto__]) leaves [NaN] under that name. *)
Theorem untracked_names_are_never_counted (ops : list Monitoring.Op)
    (start : Z) (api : string) :
  api ∉ Monitoring.tracked →
  Monitoring.calls (Monitoring.run ops (Monitoring.constructor start)) !! api
  = if bool_decide (api ∈ object_prototype_names)
       && negb (String.eqb api "__proto__")
       && existsb (Monitoring.counts_for api) ops
    then Some Monitoring.NaN
    else None.
Proof.
  intros Hapi.
  apply (run_untracked ops api (Monitoring.constructor start)).
  unfold Monitoring.tracked in Hapi.
  rewrite !not_elem_of_cons in Hapi.
  destruct Hapi as (H1 & H2 & H3 & H4 & _).
  cbn [Monitoring.constructor Monitoring.calls].
  by rewrite !lookup_insert_ne, lookup_empty.
Qed.

Lemma untracked_names_are_never_counted_witness :
  Monitoring.calls
    (Monitoring.run Monitoring.sample_ops (Monitoring.constructor 0))
    !! "toString" = Some Monitoring.NaN
  ∧ Monitoring.calls
      (Monitoring.run Monitoring.sample_ops (Monitoring.constructor 0))
      !! "workflow" = None.
Proof.
  split.
  - apply (untracked_names_are_never_counted Monitoring.sample_ops 0
             "toString").
    unfold Monitoring.tracked. rewrite !not_elem_of_cons, elem_of_nil.
    repeat split; [done..|tauto].
  - apply (untracked_names_are_never_counted Monitoring.sample_ops 0
             "workflow").
    unfold Monitoring.tracked. rewrite !not_elem_of_cons, elem_of_nil.
    repeat split; [done..|tauto].
Defined.

Lemma run_errors (ops : list Monitoring.Op) :
  ∀ m : Monitoring.ApiMonitor,
    Monitoring.errors (Monitoring.run ops m)
    = Monitoring.errors m
      ++ (Monitoring.report_of <$> List.filter Monitoring.reports ops).
Proof.
  induction ops as [|op ops IH]; intros m.
  - cbn. by rewrite app_nil_r.
  - change (Monitoring.run (op :: ops) m)
      with (Monitoring.run ops (Monitoring.apply m op)).
    cbn [List.filter]. rewrite (IH _).
    destruct op as [now api [|]|now api error];
      cbn [Monitoring.reports negb Monitoring.apply Monitoring.logCall
           Monitoring.logError Monitoring.errors Monitoring.report_of
           fmap list_fmap]; [done|..]; by rewrite <- app_assoc.
Qed.

(** X22.  [getStats] counts every failure and lists the last ten.  After
    any uses of a new monitor, [errorCount] is the number of failed calls
    of [logCall] plus the number of calls of [logError]; [errors] holds
    the entries of the last ten of them, oldest first; a call that
    succeeded adds none. *)
Theorem getStats_lists_the_last_ten_errors (ops : list Monitoring.Op)
    (start now : Z) :
  let failures := List.filter Monitoring.reports ops in
  let stats :=
    Monitoring.getStats now
      (Monitoring.run ops (Monitoring.constructor start)) in
  Monitoring.errorCount stats = length failures
  ∧ Monitoring.stats_errors stats
    = Monitoring.report_of <$> drop (length failures - 10) failures
  ∧ length (Monitoring.stats_errors stats) = length failures `min` 10.
Proof.
  cbn zeta. unfold Monitoring.getStats.
  cbn [Monitoring.errorCount Monitoring.stats_errors].
  rewrite run_errors. cbn [Monitoring.constructor Monitoring.errors app].
  rewrite length_fmap, <- fmap_drop.
  split; [done|]. split; [done|].
  rewrite length_fmap, length_drop. lia.
Qed.

(* --------------------------------------------------------------------- *)
(** ** Screenshots and voice notes                                        *)
(* --------------------------------------------------------------------- *)

(** Symbolic execution of the photo and voice handlers. *)
Ltac stage :=
  cbv beta iota zeta delta
    [pbind pcatch pret pthrow Media.lift Media.signal Media.push_message
     bind ret throw emit tick get_session modify_session];
  cbn [fst snd Media.world Media.signals session heap log clock].

Lemma said_app (l1 l2 : list Media.Signal) :
  Media.said (l1 ++ l2) = Media.said l1 ++ Media.said l2.
Proof. apply omap_app. Qed.

Lemma eden_ocr_requests_app (l1 l2 : list Media.Signal) :
  Media.eden_ocr_requests (l1 ++ l2)
  = Media.eden_ocr_requests l1 ++ Media.eden_ocr_requests l2.
Proof. apply omap_app. Qed.

Lemma tesseract_requests_app (l1 l2 : list Media.Signal) :
  Media.tesseract_requests (l1 ++ l2)
  = Media.tesseract_requests l1 ++ Media.tesseract_requests l2.
Proof. apply omap_app. Qed.

Lemma text_or_nonempty (value : option string) (fallback : string) :
  fallback ≠ "" → Media.text_or value fallback ≠ "".
Proof.
  intros Hfallback. unfold Media.text_or.
  destruct value as [text|]; [|done].
  destruct (String.eqb text "") eqn:Htext; [done|].
  by apply String.eqb_neq.
Qed.

Section MediaFacts.
Variable svc : Services.
Variable studio : Media.Studio.

(** [transcribeVoice], run to the end: it returns in every case, and
    what it returns is not the empty string. *)
Lemma transcribeVoice_run (voiceFileId : string) (d : Media.Desk) :
  ∃ transcription cs t,
    Media.transcribeVoice studio voiceFileId d
    = (Returned transcription,
       Media.mkDesk
         (mkWorld (session (Media.world d)) (heap (Media.world d))
            (log (Media.world d)) t)
         (Media.signals d ++ cs))
    ∧ Media.said cs = []
    ∧ transcription ≠ ""
    ∧ (env_set (Media.EDEN_AI_KEY studio) = false →
       transcription
       = "Voice transcription requires Eden AI key - please type your request."
       ∨ transcription
         = "Voice transcription error - please type your request.").
Proof.
  unfold Media.transcribeVoice. stage.
  destruct (Media.telegram_file_path studio _ voiceFileId) as [filePath|e];
    stage.
  2:{ eexists _, [_], _. split; [reflexivity|]. by auto. }
  destruct (env_set (Media.EDEN_AI_KEY studio)); stage.
  2:{ eexists _, [_], _. split; [reflexivity|]. by auto. }
  destruct (Media.eden_transcription studio _ _) as [transcription|e]; stage;
    rewrite <- app_assoc; eexists _, [_; _], _; (split; [reflexivity|]);
    split; [done| |done|]; (split; [|done]); [|done].
  by apply text_or_nonempty.
Qed.

(** The voice handler, run to the end. *)
Lemma on_voice_run (voiceId : string) (d : Media.Desk) :
  ∃ transcription cs t,
    Media.on_voice studio voiceId d
    = (Returned (),
       Media.mkDesk
         (mkWorld
            (set_messages
               (Some (default [] (messages (session (Media.world d)))
                      ++ ["[Voice transcription]: " +:+ transcription]))
               (session (Media.world d)))
            (heap (Media.world d)) (log (Media.world d)) t)
         (Media.signals d ++ cs))
    ∧ Media.said cs
      = [Media.TranscribingVoice;
         Media.VoiceTranscribed (slice transcription 0 100)]
    ∧ transcription ≠ ""
    ∧ (env_set (Media.EDEN_AI_KEY studio) = false →
       transcription
       = "Voice transcription requires Eden AI key - please type your request."
       ∨ transcription
         = "Voice transcription error - please type your request.").
Proof.
  unfold Media.on_voice.
  destruct (transcribeVoice_run voiceId
              (Media.mkDesk (Media.world d)
                 (Media.signals d ++ [Media.Said Media.TranscribingVoice])))
    as (transcription & cs & t & Hrun & Hsaid & Hink & Hkey).
  cbn [Media.world Media.signals] in Hrun.
  exists transcription,
    (Media.Said Media.TranscribingVoice :: cs
     ++ [Media.Said (Media.VoiceTranscribed (slice transcription 0 100))]), t.
  split.
  { rewrite pbind_eq. unfold Media.signal at 1.
    rewrite (pbind_Returned _ _ _ _ _ Hrun). stage. fields.
    by rewrite <- !app_assoc. }
  split; [|done].
  change (Media.said (?x :: ?l)) with (Media.TranscribingVoice :: Media.said l).
  by rewrite said_app, Hsaid.
Qed.

(** [performOCR], run to the end: Eden AI is asked when a key is set,
    Tesseract when Eden AI gave no answer. *)
Lemma performOCR_run (imageUrl : string) (d : Media.Desk) :
  let t := clock (Media.world d) in
  let keyed := env_set (Media.EDEN_AI_KEY studio) in
  ∃ cs t',
    Media.performOCR studio imageUrl d
    = (match Media.eden_reads studio t imageUrl with
       | Some text => Returned text
       | None =>
           match
             Media.tesseract studio (if keyed then S t else t) imageUrl
           with
           | HttpOk text => Returned text
           | HttpFail e => Threw e
           end
       end,
       Media.mkDesk
         (mkWorld (session (Media.world d)) (heap (Media.world d))
            (log (Media.world d)) t')
         (Media.signals d ++ cs))
    ∧ Media.said cs = []
    ∧ Media.eden_ocr_requests cs = (if keyed then [imageUrl] else [])
    ∧ Media.tesseract_requests cs
      = match Media.eden_reads studio t imageUrl with
        | Some _ => []
        | None => [imageUrl]
        end.
Proof.
  cbn zeta. unfold Media.performOCR, Media.eden_reads.
  destruct (env_set (Media.EDEN_AI_KEY studio)); stage.
  - destruct (Media.eden_ocr studio _ imageUrl) as [predicted_text|e]; stage.
    + by eexists [_], _.
    + destruct (Media.tesseract studio _ imageUrl) as [text|e']; stage;
        rewrite <- !app_assoc; by eexists [_; _; _], _.
  - destruct (Media.tesseract studio _ imageUrl) as [text|e']; stage;
      rewrite <- !app_assoc; by eexists [_; _], _.
Qed.

(** The photo handler, run to the end: it returns with one fragment
    added, or throws with the session as it was. *)
Lemma on_photo_cases (photo : list string) (d : Media.Desk) :
  (∃ ocrText cs t,
     Media.on_photo studio photo d
     = (Returned (),
        Media.mkDesk
          (mkWorld
             (set_messages
                (Some (default [] (messages (session (Media.world d)))
                       ++ ["[OCR from image]: " +:+ ocrText]))
                (session (Media.world d)))
             (heap (Media.world d)) (log (Media.world d)) t)
          (Media.signals d ++ cs))
     ∧ Media.said cs
       = [Media.ProcessingImage;
          Media.ImageProcessed (slice ocrText 0 100)])
  ∨ (∃ e cs t,
       Media.on_photo studio photo d
       = (Threw e,
          Media.mkDesk
            (mkWorld (session (Media.world d)) (heap (Media.world d))
               (log (Media.world d)) t)
            (Media.signals d ++ cs))
       ∧ (Media.said cs = [] ∨ Media.said cs = [Media.ProcessingImage])).
Proof.
  unfold Media.on_photo. destruct (last photo) as [fileId|].
  2:{ right. exists "Cannot read properties of undefined (reading 'file_id')",
        [], (clock (Media.world d)).
      rewrite app_nil_r. split; [by destruct d as [[] ?] | by left]. }
  stage.
  destruct (Media.telegram_getFile studio _ fileId) as [file_path|e]; stage.
  2:{ right. eexists _, [_], _. split; [reflexivity | by left]. }
  set (imageUrl := Media.file_url _ _).
  destruct (performOCR_run imageUrl
              (Media.mkDesk
                 (mkWorld (session (Media.world d)) (heap (Media.world d))
                    (log (Media.world d)) (S (clock (Media.world d))))
                 ((Media.signals d ++ [Media.FileAsked fileId])
                  ++ [Media.Said Media.ProcessingImage])))
    as (cs & t' & Hrun & Hsaid & _).
  cbn [Media.world Media.signals session heap log clock] in Hrun.
  rewrite Hrun. clear Hrun.
  assert (∀ ocrText,
            Media.said
              ([Media.FileAsked fileId; Media.Said Media.ProcessingImage]
               ++ cs
               ++ [Media.Said (Media.ImageProcessed (slice ocrText 0 100))])
            = [Media.ProcessingImage;
               Media.ImageProcessed (slice ocrText 0 100)]) as Hreturned.
  { intros ocrText.
    change (Media.said ([?a; Media.Said ?n] ++ ?l)) with (n :: Media.said l).
    by rewrite said_app, Hsaid. }
  destruct (Media.eden_reads studio _ imageUrl) as [ocrText|];
    [|destruct (Media.tesseract studio _ imageUrl) as [ocrText|e]]; stage.
  - left. exists ocrText,
      ([Media.FileAsked fileId; Media.Said Media.ProcessingImage] ++ cs
       ++ [Media.Said (Media.ImageProcessed (slice ocrText 0 100))]), t'.
    fields. split; [by rewrite <- !app_assoc | apply Hreturned].
  - left. exists ocrText,
      ([Media.FileAsked fileId; Media.Said Media.ProcessingImage] ++ cs
       ++ [Media.Said (Media.ImageProcessed (slice ocrText 0 100))]), t'.
    fields. split; [by rewrite <- !app_assoc | apply Hreturned].
  - right. exists e,
      ([Media.FileAsked fileId; Media.Said Media.ProcessingImage] ++ cs), t'.
    split; [by rewrite <- !app_assoc|]. right.
    change (Media.said ([?a; Media.Said ?n] ++ ?l)) with (n :: Media.said l).
    by rewrite Hsaid.
Qed.

End MediaFacts.

Section MediaUpdates.
Variable svc : Services.
Variable studio : Media.Studio.
Variable budget : nat.
Variable chat : N.

(** The middleware, run on the world of a desk. *)
Lemma lift_middleware (d : Media.Desk) :
  Media.lift (middleware chat) d
  = (Returned (),
     Media.mkDesk
       (mkWorld
          (with_defaults chat (length (heap (Media.world d)))
             (session (Media.world d)))
          (match approvedSources (session (Media.world d)) with
           | Some _ => heap (Media.world d)
           | None => heap (Media.world d) ++ [[]]
           end)
          (log (Media.world d)) (clock (Media.world d)))
       (Media.signals d)).
Proof. unfold Media.lift. by rewrite middleware_defaults. Qed.

(** What [bot.catch] does leaves the session and the signals alone. *)
Lemma bot_catch_store (err : Error) (d : Media.Desk) :
  ∃ w',
    (Media.lift (emit (ConsoleError "Bot error:" err)) ;;
     Media.lift (reply_nowait svc MsgErrorOccurred))%prog d
    = (Returned (), Media.mkDesk w' (Media.signals d))
    ∧ session w' = session (Media.world d).
Proof.
  unfold reply_nowait. stage.
  destruct (telegram_send svc _ _); by eexists.
Qed.

(** A photo update runs the handler after the middleware. *)
Lemma handle_photo_eq (photo : list string) (d : Media.Desk) :
  Media.handle_inbound svc studio budget chat (Media.Photo photo) d
  = match
      Media.on_photo studio photo
        (Media.mkDesk
           (mkWorld
              (with_defaults chat (length (heap (Media.world d)))
                 (session (Media.world d)))
              (match approvedSources (session (Media.world d)) with
               | Some _ => heap (Media.world d)
               | None => heap (Media.world d) ++ [[]]
               end)
              (log (Media.world d)) (clock (Media.world d)))
           (Media.signals d))
    with
    | (Threw err, d') =>
        (Media.lift (emit (ConsoleError "Bot error:" err)) ;;
         Media.lift (reply_nowait svc MsgErrorOccurred))%prog d'
    | settled => settled
    end.
Proof.
  unfold Media.handle_inbound, pcatch. by rewrite pbind_eq, lift_middleware.
Qed.

(** A photo update: the session after it. *)
Lemma deliver_photo_store (photo : list string) (d : Media.Desk) :
  let s0 :=
    with_defaults chat (length (heap (Media.world d)))
      (session (Media.world d)) in
  let d' := Media.deliver svc studio budget chat d (Media.Photo photo) in
  (∃ ocrText,
     session (Media.world d')
     = set_messages
         (Some (default [] (messages s0) ++ ["[OCR from image]: " +:+ ocrText]))
         s0
     ∧ Media.said (Media.signals d')
       = Media.said (Media.signals d)
         ++ [Media.ProcessingImage;
             Media.ImageProcessed (slice ocrText 0 100)])
  ∨ (session (Media.world d') = s0
     ∧ (Media.said (Media.signals d') = Media.said (Media.signals d)
        ∨ Media.said (Media.signals d')
          = Media.said (Media.signals d) ++ [Media.ProcessingImage])).
Proof.
  cbn zeta. unfold Media.deliver. rewrite handle_photo_eq.
  set (d1 := Media.mkDesk _ _).
  destruct (on_photo_cases studio photo d1)
    as [(ocrText & cs & t & -> & Hsaid)|(e & cs & t & -> & Hsaid)].
  - left. exists ocrText. cbn [snd Media.world Media.signals session d1].
    split; [done|]. by rewrite said_app, Hsaid.
  - right.
    destruct (bot_catch_store e
                (Media.mkDesk
                   (mkWorld (session (Media.world d1)) (heap (Media.world d1))
                      (log (Media.world d1)) t)
                   (Media.signals d1 ++ cs)))
      as (w' & -> & Hsession).
    cbn [snd Media.world Media.signals session d1] in Hsession |- *.
    split; [done|]. rewrite said_app.
    destruct Hsaid as [->| ->]; [left; by rewrite app_nil_r | by right].
Qed.

(** An update of the other handlers, delivered to a desk. *)
Lemma deliver_plain (u : Update) (d : Media.Desk) :
  Media.world (Media.deliver svc studio budget chat d (Media.Plain u))
  = step svc budget chat (Media.world d) u.
Proof. done. Qed.


End MediaUpdates.

(** X23.  A voice note never fails and always leaves one fragment: the
    update returns, whatever Telegram and Eden AI answer; [messages] gains
    the fragment [[Voice transcription]: ...], whose text is never empty
    (without an Eden AI key it is one of two fixed apologies); the two
    replies are sent; nothing is written to the log and the other
    properties of the session are as the middleware leaves them. *)
Theorem voice_note_adds_one_fragment (svc : Services) (studio : Media.Studio)
    (budget : nat) (chat : N) (voiceId : string) (d : Media.Desk) :
  ∃ transcription d',
    Media.handle_inbound svc studio budget chat (Media.Voice voiceId) d
    = (Returned (), d')
    ∧ transcription ≠ ""
    ∧ session (Media.world d')
      = set_messages
          (Some (default [] (messages (session (Media.world d)))
                 ++ ["[Voice transcription]: " +:+ transcription]))
          (with_defaults chat (length (heap (Media.world d)))
             (session (Media.world d)))
    ∧ Media.said (Media.signals d')
      = Media.said (Media.signals d)
        ++ [Media.TranscribingVoice;
            Media.VoiceTranscribed (slice transcription 0 100)]
    ∧ log (Media.world d') = log (Media.world d)
    ∧ (env_set (Media.EDEN_AI_KEY studio) = false →
       transcription
       = "Voice transcription requires Eden AI key - please type your request."
       ∨ transcription
         = "Voice transcription error - please type your request.").
Proof.
  unfold Media.handle_inbound, pcatch.
  rewrite pbind_eq, lift_middleware.
  set (d1 := Media.mkDesk _ _).
  destruct (on_voice_run studio voiceId d1)
    as (transcription & cs & t & -> & Hsaid & Hink & Hkey).
  eexists transcription, _. split; [reflexivity|].
  cbn [Media.world Media.signals session log d1].
  split; [done|]. split; [done|]. split; [by rewrite said_app, Hsaid|].
  by split.
Qed.

Lemma voice_note_adds_one_fragment_witness :
  ∃ transcription d',
    Media.handle_inbound (dependable no_score) Media.offline_studio 0 42
      (Media.Voice "voice-1") Media.empty_desk
    = (Returned (), d')
    ∧ messages (session (Media.world d'))
      = Some ["[Voice transcription]: " +:+ transcription]
    ∧ (transcription
       = "Voice transcription requires Eden AI key - please type your request."
       ∨ transcription
         = "Voice transcription error - please type your request.").
Proof.
  destruct (voice_note_adds_one_fragment (dependable no_score)
              Media.offline_studio 0 42 "voice-1" Media.empty_desk)
    as (transcription & d' & Hrun & _ & Hsession & _ & _ & Hkey).
  exists transcription, d'. split; [exact Hrun|].
  split; [by rewrite Hsession | by apply Hkey].
Defined.

(** X24.  A screenshot sent before the first text of a request is lost.
    In a chat that is not aggregating and has no waiting marker set, a
    photo followed by a text message that [bot.start] does not take
    leaves [messages] holding the text alone: whatever the OCR read is
    gone, and the topic is the text. *)
Theorem screenshot_before_first_text_is_dropped (svc : Services)
    (studio : Media.Studio) (budget : nat) (chat : N) (photo : list string)
    (u : Update) (text : string) (d : Media.Desk) :
  free_text svc u = Some text →
  default false (isAggregating (session (Media.world d))) = false →
  truthy (waitingForRevision (session (Media.world d))) = false →
  truthy (waitingForComment (session (Media.world d))) = false →
  let d' :=
    Media.run_inbound svc studio budget chat
      [Media.Photo photo; Media.Plain u] d in
  messages (session (Media.world d')) = Some [text]
  ∧ isAggregating (session (Media.world d')) = Some true
  ∧ currentTopic (session (Media.world d')) = Some text.
Proof.
  intros Hu Hagg Hrev Hcom. cbn zeta.
  cbn [Media.run_inbound foldl]. rewrite deliver_plain.
  assert (collecting text []
            (step svc budget chat
               (Media.world
                  (Media.deliver svc studio budget chat d (Media.Photo photo)))
               u)) as (? & ? & ? & _); [|done].
  apply step_text_opens; [done|..];
    destruct (deliver_photo_store svc studio budget chat photo d)
      as [(ocrText & -> & _)|[-> _]];
    unfold with_defaults; fields; by rewrite ?Hagg.
Qed.

Lemma screenshot_before_first_text_is_dropped_witness :
  messages
    (session
       (Media.world
          (Media.run_inbound (dependable no_score) Media.offline_studio 0 42
             [Media.Photo ["small"; "large"]] Media.empty_desk)))
  = Some ["[OCR from image]: Essay on drought, 5 pages"]
  ∧ messages
      (session
         (Media.world
            (Media.run_inbound (dependable no_score) Media.offline_studio 0 42
               [Media.Photo ["small"; "large"];
                Media.Plain (Text "Drought" [])]
               Media.empty_desk)))
    = Some ["Drought"].
Proof.
  split; [reflexivity|].
  by apply (screenshot_before_first_text_is_dropped (dependable no_score)
              Media.offline_studio 0 42 ["small"; "large"]
              (Text "Drought" []) "Drought" Media.empty_desk).
Defined.



(** X26.  Tesseract is the fallback of the OCR, and only that.  For a
    photo whose file Telegram locates, the image address (which carries
    the bot token) goes to Eden AI exactly when a key is set, and to
    Tesseract exactly when Eden AI gave no answer: no key, or a failed
    call. *)
Theorem tesseract_is_asked_when_eden_gives_no_answer (studio : Media.Studio)
    (photo : list string) (fileId : string) (file_path : option string)
    (d : Media.Desk) :
  last photo = Some fileId →
  Media.telegram_getFile studio (clock (Media.world d)) fileId
  = HttpOk file_path →
  let imageUrl := Media.file_url (Media.TELEGRAM_TOKEN studio) file_path in
  let d' := (Media.on_photo studio photo d).2 in
  Media.eden_ocr_requests (Media.signals d')
  = Media.eden_ocr_requests (Media.signals d)
    ++ (if env_set (Media.EDEN_AI_KEY studio) then [imageUrl] else [])
  ∧ Media.tesseract_requests (Media.signals d')
    = Media.tesseract_requests (Media.signals d)
      ++ match
           Media.eden_reads studio (S (clock (Media.world d))) imageUrl
         with
         | Some _ => []
         | None => [imageUrl]
         end.
Proof.
  intros Hlast Hfile. cbn zeta. unfold Media.on_photo. rewrite Hlast.
  stage. rewrite Hfile. stage.
  set (imageUrl := Media.file_url _ _).
  destruct (performOCR_run studio imageUrl
              (Media.mkDesk
                 (mkWorld (session (Media.world d)) (heap (Media.world d))
                    (log (Media.world d)) (S (clock (Media.world d))))
                 ((Media.signals d ++ [Media.FileAsked fileId])
                  ++ [Media.Said Media.ProcessingImage])))
    as (cs & t' & Hrun & _ & Heden & Htesseract).
  cbn [Media.world Media.signals session heap log clock] in Hrun, Htesseract.
  rewrite Hrun. clear Hrun.
  destruct (Media.eden_reads studio _ imageUrl) as [ocrText|];
    [|destruct (Media.tesseract studio _ imageUrl) as [ocrText|e]]; stage;
    fields; cbn [fst snd Media.world Media.signals];
    rewrite !eden_ocr_requests_app, !tesseract_requests_app, Heden,
      Htesseract;
    cbn [Media.eden_ocr_requests Media.tesseract_requests omap list_omap];
    by rewrite !app_nil_r.
Qed.

Lemma tesseract_is_asked_when_eden_gives_no_answer_witness :
  let d' :=
    (Media.on_photo Media.offline_studio ["small"; "large"]
       Media.empty_desk).2 in
  Media.eden_ocr_requests (Media.signals d') = []
  ∧ Media.tesseract_requests (Media.signals d')
    = ["https://api.telegram.org/file/bot123:abc/photos/file_7.jpg"].
Proof.
  exact (tesseract_is_asked_when_eden_gives_no_answer Media.offline_studio
           ["small"; "large"] "large" (Some "photos/file_7.jpg")
           Media.empty_desk eq_refl eq_refl).
Defined.

(* --------------------------------------------------------------------- *)
(** ** The worlds of the running bot                                      *)
(* --------------------------------------------------------------------- *)












Section Orderly.
Variable svc : Services.





End Orderly.





Section OrderlyHandlers.
Variable svc : Services.
Variable budget : nat.
Variable chat : N.




End OrderlyHandlers.

Section OrderlyUpdates.
Variable svc : Services.
Variable studio : Media.Studio.
Variable budget : nat.
Variable chat : N.








(** The handler of [/revise] would set the marker, were it entered; a
    [/revise] message goes to the handler of text messages. *)
Lemma command_revise_not_entered (w : World) :
  truthy (waitingForRevision (session (command_revise svc w).2)) = true
  ∧ handler svc budget chat (Text "/revise" [mkEntity "bot_command" 0 7])
    = on_text svc chat "/revise".
Proof.
  split; [|reflexivity]. unfold command_revise, reply. run.
  by destruct (telegram_send svc _ _).
Qed.


End OrderlyUpdates.

(* --------------------------------------------------------------------- *)
(** ** The waiting markers in the running bot                             *)
(* --------------------------------------------------------------------- *)



Section Updates.
Variable svc : Services.
Variable budget : nat.
Variable chat : N.







End Updates.




(* --------------------------------------------------------------------- *)
(** ** Integers read and the Numbers that hold them                       *)
(* --------------------------------------------------------------------- *)

(** An integer of magnitude below [2 ^ 53] is a Number. *)
Lemma to_number_exact (n : Z) : (Z.abs n < 2 ^ 53)%Z → to_number n = n.
Proof.
  intros Hn. unfold to_number.
  destruct (Z.leb_spec (Z.log2 (Z.abs n) + 1) 53) as [_|Hbits]; [done|].
  exfalso.
  assert (0 < Z.abs n)%Z as Hpos.
  { destruct (Z.eq_dec (Z.abs n) 0) as [Hz|Hz]; [|lia].
    rewrite Hz in Hbits. simpl in Hbits. lia. }
  apply (Z.log2_lt_pow2 _ 53 Hpos) in Hn. lia.
Qed.

(** A larger one is rounded to a Number of the same sign that is no
    nearer to zero than [2 ^ 53]. *)
Lemma to_number_rounded (n : Z) :
  (2 ^ 53 ≤ Z.abs n)%Z →
  ∃ m, to_number n = (Z.sgn n * m)%Z ∧ (2 ^ 53 ≤ m)%Z.
Proof.
  intros Hn. unfold to_number. cbv zeta.
  set (a := Z.abs n) in *.
  assert (0 < a)%Z as Hpos.
  { assert (0 < 2 ^ 53)%Z by (by vm_compute). lia. }
  assert (53 ≤ Z.log2 a)%Z as Hlog.
  { apply Z.log2_le_pow2; [done|]. exact Hn. }
  destruct (Z.leb_spec (Z.log2 a + 1) 53) as [Hbits|_]; [lia|].
  set (shift := (Z.log2 a + 1 - 53)%Z).
  assert (1 ≤ shift)%Z as Hshift by (unfold shift; lia).
  set (q := Z.shiftr a shift).
  set (c := (_ || _)%bool). set (q' := if c then (q + 1)%Z else q).
  eexists. split; [reflexivity|].
  assert (2 ^ 52 ≤ q)%Z as Hq.
  { unfold q. rewrite Z.shiftr_div_pow2 by lia.
    apply Z.div_le_lower_bound; [apply Z.pow_pos_nonneg; lia|].
    transitivity (2 ^ Z.log2 a)%Z; [|apply Z.log2_spec; lia].
    rewrite <- Z.pow_add_r by lia.
    apply Z.pow_le_mono_r; unfold shift; lia. }
  assert (2 ^ 52 ≤ q')%Z as Hq' by (unfold q'; destruct c; lia).
  assert (2 ^ 53 ≤ Z.shiftl q' shift)%Z as Hv.
  { rewrite Z.shiftl_mul_pow2 by lia.
    assert (2 ^ 1 ≤ 2 ^ shift)%Z as Hpow by (apply Z.pow_le_mono_r; lia).
    change (2 ^ 53)%Z with (2 ^ 52 * 2 ^ 1)%Z.
    assert (0 < 2 ^ 52)%Z by (by vm_compute).
    apply Z.mul_le_mono_nonneg; lia. }
  case_match; [by vm_compute | exact Hv].
Qed.


(** An array holds fewer than [2 ^ 32] elements: the Number and the
    integer it holds name the same element, or both none. *)
Lemma pending_at_number (w : World) (index : option Z) :
  (Z.of_nat (length (pending_list w)) ≤ 2 ^ 53)%Z →
  pending_at w (to_number <$> index) = pending_at w index.
Proof.
  intros Hlen. destruct index as [i|]; [|done]. cbn [fmap option_fmap option_map].
  destruct (Z.lt_ge_cases (Z.abs i) (2 ^ 53)) as [Hsmall|Hlarge];
    [by rewrite to_number_exact|].
  destruct (to_number_rounded i Hlarge) as (m & -> & Hm).
  unfold pending_at, pending_list in *.
  destruct (pendingSources (session w)) as [address|]; [|done].
  assert (0 < 2 ^ 53)%Z as Hpos by (by vm_compute).
  destruct (Z.lt_ge_cases i 0) as [Hneg|Hnonneg].
  - rewrite (Z.sgn_neg i Hneg).
    destruct (Z.leb_spec 0 (-1 * m)) as [?|_]; [lia|].
    by destruct (Z.leb_spec 0 i) as [?|_]; [lia|].
  - rewrite (Z.sgn_pos i) by lia.
    destruct (Z.leb_spec 0 (1 * m)) as [_|?]; [|lia].
    destruct (Z.leb_spec 0 i) as [_|?]; [|lia].
    rewrite !lookup_ge_None_2; [done|lia..].
Qed.

(* --------------------------------------------------------------------- *)
(** ** Ratings and comments in the running bot                            *)
(* --------------------------------------------------------------------- *)




(* --------------------------------------------------------------------- *)
(** ** Approved and pending sources                                       *)
(* --------------------------------------------------------------------- *)

(** C2.  Through every sequence of source-approval events, from every
    session: each record approved afterwards was approved or pending
    before, and the pending batch gains no record.  The approved records
    stay among the pending ones when they were among them before and the
    selection is not cancelled in the sequence.  ([well_formed]: the
    session refers to arrays of the store, as every session of the bot
    does, see [reachable_orderly].) *)
Theorem approved_sources_stay_in_batch (svc : Services) (budget : nat)
    (chat : N) (events : list ApprovalEvent) (w : World) :
  well_formed w →
  let w' := run_updates svc budget chat (approval_update <$> events) w in
  approved_list w' ⊆ approved_list w ++ pending_list w
  ∧ pending_list w' ⊆ pending_list w
  ∧ (forallb (λ e, negb (is_cancel e)) events = true →
     approved_list w ⊆ pending_list w →
     approved_list w' ⊆ pending_list w').
Proof.
  intros Hwf. cbn zeta.
  assert (within (approved_list w ++ pending_list w) w) as Hwithin.
  { split; [done|].
    split; intros y Hy; apply elem_of_app; [by left | by right]. }
  destruct (run_approval_within svc budget chat _ events w Hwithin)
    as (_ & Happroved & Hpending).
  split; [exact Happroved|]. split.
  - clear Happroved Hpending Hwithin. revert w Hwf.
    induction events as [|e events IH]; intros w Hwf; [done|].
    cbn [fmap list_fmap run_updates foldl].
    destruct (step_approval_views svc budget chat e w Hwf)
      as (Hwf' & _ & Hp' & _).
    intros y Hy. apply Hp'. by apply (IH _ Hwf').
  - intros Hevents Hin.
    by destruct (run_approval_in_pending svc budget chat events Hevents w
                   (conj Hwf Hin)) as [_ Hafter].
Qed.

Lemma approved_sources_stay_in_batch_witness :
  (let w' :=
     run_updates (dependable no_score) 0 42
       (approval_update <$> [ApproveOne "1"; ApproveOne "7"; ApproveOne "0"])
       world_with_batch in
   approved_list w' ⊆ pending_list w'
   ∧ pending_list w' ⊆ [paper_a; paper_b; paper_c])
  ∧ (let w :=
       run_updates (dependable no_score) 1 42
         [Text "Drought" []; CallbackQuery "confirm_and_process"]
         fresh_world in
     let w' :=
       run_updates (dependable no_score) 1 42
         (approval_update <$> [ApproveOne "0"; CancelSelection]) w in
     approved_list w' ⊆ [paper_a; paper_b] ∧ pending_list w' ⊆ []).
Proof.
  split.
  - destruct (approved_sources_stay_in_batch (dependable no_score) 0 42
                [ApproveOne "1"; ApproveOne "7"; ApproveOne "0"]
                world_with_batch)
      as (_ & Hpending & Hkept).
    + split; intros address [= <-]; simpl; lia.
    + split; [|exact Hpending].
      apply Hkept; [reflexivity|]. apply list_subseteq_nil.
  - cbn zeta.
    set (w :=
           run_updates (dependable no_score) 1 42
             [Text "Drought" []; CallbackQuery "confirm_and_process"]
             fresh_world).
    destruct (approved_sources_stay_in_batch (dependable no_score) 1 42
                [ApproveOne "0"; CancelSelection] w)
      as (Happroved & Hpending & _).
    + split; intros address; vm_compute; intros [= <-]; lia.
    + split; [exact Happroved | exact Hpending].
Defined.

(** Where the claim fails, in the running bot: after a workflow the
    approved sources are the retrieved ones and nothing is pending;
    cancelling the selection leaves them approved. *)
Lemma approved_outlives_cancel_sources :
  let w :=
    run_updates (dependable no_score) 1 42
      [Text "Drought" []; CallbackQuery "confirm_and_process"] fresh_world in
  let w' :=
    run_updates (dependable no_score) 1 42
      (approval_update <$> [CancelSelection]) w in
  approved_list w = [paper_a; paper_b]
  ∧ pending_list w = []
  ∧ approved_list w' = [paper_a; paper_b]
  ∧ pending_list w' = []
  ∧ ¬ approved_list w' ⊆ pending_list w'.
Proof.
  cbn zeta. split; [reflexivity|]. split; [reflexivity|].
  split; [reflexivity|]. split; [reflexivity|].
  intros Hsub. specialize (Hsub paper_a).
  change (paper_a ∈ [paper_a; paper_b] → paper_a ∈ []) in Hsub.
  apply elem_of_nil in Hsub; [done|]. apply list_elem_of_here.
Qed.
